(** * Morse text codec and Morse audio codec (morse3.cpp)

    A shallow embedding of [MorseConverter] (text <-> Morse) and of
    [WavProcessor<SampleType>] (Morse <-> PCM samples, WAV container),
    together with the properties of the specification that concern them.

    Conventions of the embedding.
    - [std::string] is [string]; a [char] is an [ascii] (one byte).
    - [std::map] is stdpp's [gmap]; [count] and [at] are written out.
    - [size_t] indices into strings are [nat] (no subtraction below wraps:
      every [pos - prev] has [prev <= pos]).
    - [double] is Rocq's primitive binary64 [float]; [int], [size_t] and
      the sample types are [Z] with the conversions written out.
    - A call either returns, throws, or exhausts the iteration budget of a
      [while] loop ([OutOfFuel]); every loop below is shown to stay inside
      its budget.
    - The files are a finite map from names to contents; the names a
      stream can be opened on for writing are a parameter, and a file
      that was written can be read back. *)

From Stdlib Require Import ZArith Floats Ascii String Lia.
From stdpp Require Import gmap strings list.

#[local] Set Warnings "-inexact-float".

(** ** Outcomes of a call *)

(** [MorseException] carries its message; [out_of_range] is what
    [std::string::substr] and [std::map::at] throw. *)
Inductive exn : Type :=
| MorseException (msg : string)
| out_of_range.

Inductive outcome (A : Type) : Type :=
| Ok (a : A)
| Throw (e : exn)
| OutOfFuel
| Undefined.
Arguments Ok {A} a.
Arguments Throw {A} e.
Arguments OutOfFuel {A}.
Arguments Undefined {A}.

Definition outcome_bind {A B : Type} (f : A -> outcome B) (m : outcome A) : outcome B :=
  match m with
  | Ok a => f a
  | Throw e => Throw e
  | OutOfFuel => OutOfFuel
  | Undefined => Undefined
  end.

#[global] Instance outcome_mbind : MBind outcome := @outcome_bind.
#[global] Instance outcome_mret : MRet outcome := @Ok.
#[global] Instance outcome_fmap : FMap outcome :=
  fun A B f m => outcome_bind (fun a => Ok (f a)) m.

(** [while (cond) body] with an iteration budget. *)
Fixpoint while {S : Type} (fuel : nat) (cond : S -> bool) (body : S -> outcome S) (s : S)
  : outcome S :=
  if cond s then
    match fuel with
    | O => OutOfFuel
    | S fuel' => s' ← body s; while fuel' cond body s'
    end
  else Ok s.

(** ** std::string and std::map operations used by the program *)

Definition empty (s : string) : bool :=
  match s with EmptyString => true | String _ _ => false end.

Definition push_back (s : string) (c : ascii) : string := s +:+ String c "".

(** [s.find(needle, pos)]; [None] is [npos]. *)
Definition find (s needle : string) (pos : nat) : option nat := index pos needle s.

(** [s.substr(pos, count)]: throws when [pos > s.size()], clamps [count]. *)
Definition substr (s : string) (pos count : nat) : outcome string :=
  if String.length s <? pos then Throw out_of_range else Ok (substring pos count s).

(** [s.substr(pos)]: to the end of the string. *)
Definition substr_from (s : string) (pos : nat) : outcome string :=
  substr s pos (String.length s - pos).

Definition count `{Countable K} {V : Type} (m : gmap K V) (k : K) : nat :=
  match m !! k with Some _ => 1 | None => 0 end.

Definition at_ `{Countable K} {V : Type} (m : gmap K V) (k : K) : outcome V :=
  match m !! k with Some v => Ok v | None => Throw out_of_range end.

(** [std::toupper] in the "C" locale. *)
Definition toupper (c : ascii) : ascii :=
  let n := nat_of_ascii c in
  if (97 <=? n) && (n <=? 122) then ascii_of_nat (n - 32) else c.

(** ** MorseConverter *)

Module MorseConverter.

Record t : Type := mk {
  charToMorse : gmap ascii string;
  morseToChar : gmap string ascii
}.

Definition mappings : list (ascii * string) :=
  [ ("A"%char, ".-"); ("B"%char, "-..."); ("C"%char, "-.-."); ("D"%char, "-.."); ("E"%char, ".");
    ("F"%char, "..-."); ("G"%char, "--."); ("H"%char, "...."); ("I"%char, ".."); ("J"%char, ".---");
    ("K"%char, "-.-"); ("L"%char, ".-.."); ("M"%char, "--"); ("N"%char, "-."); ("O"%char, "---");
    ("P"%char, ".--."); ("Q"%char, "--.-"); ("R"%char, ".-."); ("S"%char, "..."); ("T"%char, "-");
    ("U"%char, "..-"); ("V"%char, "...-"); ("W"%char, ".--"); ("X"%char, "-..-"); ("Y"%char, "-.--");
    ("Z"%char, "--.."); ("0"%char, "-----"); ("1"%char, ".----"); ("2"%char, "..---"); ("3"%char, "...--");
    ("4"%char, "....-"); ("5"%char, "....."); ("6"%char, "-...."); ("7"%char, "--..."); ("8"%char, "---..");
    ("9"%char, "----."); ("."%char, ".-.-.-"); (","%char, "--..--"); ("?"%char, "..--.."); (" "%char, "   ")
  ].

(** [for (const auto& [c, s] : mappings) { charToMorse[c] = s; morseToChar[s] = c; }] *)
Definition initMaps (this : t) : t :=
  foldl (fun m '(c, s) =>
           {| charToMorse := <[c := s]> (charToMorse m);
              morseToChar := <[s := c]> (morseToChar m) |})
        this mappings.

(** The constructor: two empty maps, then [initMaps]. *)
Definition new : t := initMaps {| charToMorse := ∅; morseToChar := ∅ |}.
Arguments new : simpl never.

Definition cannot_encode (c : ascii) : exn :=
  MorseException ("Character '" +:+ String c "" +:+ "' cannot be encoded in Morse.").

(** The body of [for (char c : text)] in [encode], threading [morse] and
    [prev_was_space]. *)
Fixpoint encode_loop (this : t) (text : string) (morse : string) (prev_was_space : bool)
  : outcome string :=
  match text with
  | EmptyString => Ok morse
  | String c0 text' =>
      let c := toupper c0 in
      if (c =? " ")%char then
        encode_loop this text' (morse +:+ "   ") true
      else
        let morse := if negb (empty morse) && negb prev_was_space
                     then push_back morse " " else morse in
        if count (charToMorse this) c =? 0 then Throw (cannot_encode c)
        else
          s ← at_ (charToMorse this) c;
          encode_loop this text' (morse +:+ s) false
  end.

Definition encode (this : t) (text : string) : outcome string :=
  encode_loop this text "" false.

(** First loop of [decode]:
    [while ((pos = morse.find("   ", prev)) != npos) { words.push_back(...); prev = pos + 3; }]
    on the state [(prev, words)]. *)
Definition split_cond (morse : string) (st : nat * list string) : bool :=
  match find morse "   " (fst st) with Some _ => true | None => false end.

Definition split_body (morse : string) (st : nat * list string) : outcome (nat * list string) :=
  let '(prev, words) := st in
  match find morse "   " prev with
  | Some pos =>
      w ← substr morse prev (pos - prev);
      Ok (pos + 3, words ++ [w])
  | None => Ok st
  end.

(** [while (iss >> token) if (morseToChar.count(token)) text.push_back(morseToChar.at(token));]
    over the tokens the stream extraction yields. *)
Fixpoint token_loop (this : t) (tokens : list string) (text : string) : outcome string :=
  match tokens with
  | [] => Ok text
  | token :: tokens' =>
      if count (morseToChar this) token =? 0 then token_loop this tokens' text
      else
        c ← at_ (morseToChar this) token;
        token_loop this tokens' (push_back text c)
  end.

(** [for (size_t i = 0; i < words.size(); ++i)]: [rest] is [words] from
    index [i] on, [size] is [words.size()].  The extraction [iss >> token]
    skips white space and reads up to the next white space: the tokens of
    [words[i]] are [String.words (words[i])]. *)
Fixpoint word_loop (this : t) (rest : list string) (i size : nat) (text : string)
  : outcome string :=
  match rest with
  | [] => Ok text
  | w :: rest' =>
      text ← token_loop this (String.words w) text;
      let text := if i =? size - 1 then text else push_back text " " in
      word_loop this rest' (S i) size text
  end.

Definition decode (this : t) (morse : string) : outcome string :=
  '(prev, words) ← while (S (String.length morse)) (split_cond morse) (split_body morse) (0, []);
  w ← substr_from morse prev;
  let words := words ++ [w] in
  word_loop this words 0 (List.length words) "".

End MorseConverter.

(** ** Conversions between [double] and the integer types *)

(** [static_cast<double>(z)] for an integer [z]: the nearest binary64. *)
Definition double_of_Z (z : Z) : float := SF2Prim (binary_normalize prec emax z 0 false).

(** [static_cast<int>(d)]: truncation toward zero (the value is undefined in
    C++ when it does not fit; the program never converts such a value). *)
Definition trunc (d : float) : Z :=
  match Prim2SF d with
  | S754_finite s m e =>
      let a := match e with
               | Z0 => Zpos m
               | Zpos p => Z.shiftl (Zpos m) (Zpos p)
               | Zneg p => Z.shiftr (Zpos m) (Zpos p)
               end in
      if s then (- a)%Z else a
  | _ => 0%Z
  end.

(** [size_t] to [int] keeps the low 32 bits, two's complement. *)
Definition int_of_size_t (z : Z) : Z := ((z + 2 ^ 31) mod 2 ^ 32 - 2 ^ 31)%Z.

(** [i - k] for a [size_t i] and an [int k]: [k] is converted to [size_t]
    and the difference wraps at 64 bits. *)
Definition size_t_sub (i k : Z) : Z := ((i - k) mod 2 ^ 64)%Z.

Inductive SampleType : Type := int8_t | int16_t | int32_t.

Definition sizeof (T : SampleType) : Z :=
  match T with int8_t => 1 | int16_t => 2 | int32_t => 4 end%Z.

Definition numeric_limits_max (T : SampleType) : Z :=
  match T with int8_t => 127 | int16_t => 32767 | int32_t => 2147483647 end%Z.

Definition M_PI : float := 3.14159265358979323846%float.

(** ** The WAV container: header, bytes, input streams *)

(** [n] bytes of [z], least significant first. *)
Fixpoint le_bytes (n : nat) (z : Z) : string :=
  match n with
  | O => ""
  | S n' => String (ascii_of_N (Z.to_N (z mod 256))) (le_bytes n' (z / 256))
  end.

(** The unsigned value of little-endian bytes. *)
Fixpoint le_value (s : string) : Z :=
  match s with
  | EmptyString => 0
  | String c s' => Z.of_N (N_of_ascii c) + 256 * le_value s'
  end.

(** [struct WavHeader]; its members follow one another without padding. *)
Record WavHeader : Type := {
  riffId : string;
  riffSize : Z;
  waveId : string;
  fmtId : string;
  fmtSize : Z;
  audioFormat : Z;
  numChannels : Z;
  sampleRate : Z;
  byteRate : Z;
  blockAlign : Z;
  bitsPerSample : Z;
  dataId : string;
  dataSize : Z
}.

(** [WavHeader header;]: the members with an initializer get it, the
    others hold whatever [indeterminate] holds. *)
Definition WavHeader_init (indeterminate : WavHeader) : WavHeader :=
  {| riffId := "RIFF"; riffSize := riffSize indeterminate; waveId := "WAVE";
     fmtId := "fmt "; fmtSize := 16; audioFormat := 1; numChannels := 1;
     sampleRate := 44100; byteRate := byteRate indeterminate;
     blockAlign := blockAlign indeterminate; bitsPerSample := 16;
     dataId := "data"; dataSize := dataSize indeterminate |}.

(** The 44 bytes of a header in memory, and the header these bytes hold. *)
Definition header_image (h : WavHeader) : string :=
  substring 0 4 (riffId h) +:+ le_bytes 4 (riffSize h) +:+ substring 0 4 (waveId h)
  +:+ substring 0 4 (fmtId h) +:+ le_bytes 4 (fmtSize h) +:+ le_bytes 2 (audioFormat h)
  +:+ le_bytes 2 (numChannels h) +:+ le_bytes 4 (sampleRate h) +:+ le_bytes 4 (byteRate h)
  +:+ le_bytes 2 (blockAlign h) +:+ le_bytes 2 (bitsPerSample h)
  +:+ substring 0 4 (dataId h) +:+ le_bytes 4 (dataSize h).

Definition header_parse (image : string) : WavHeader :=
  {| riffId := substring 0 4 image; riffSize := le_value (substring 4 4 image);
     waveId := substring 8 4 image; fmtId := substring 12 4 image;
     fmtSize := le_value (substring 16 4 image);
     audioFormat := le_value (substring 20 2 image);
     numChannels := le_value (substring 22 2 image);
     sampleRate := le_value (substring 24 4 image);
     byteRate := le_value (substring 28 4 image);
     blockAlign := le_value (substring 32 2 image);
     bitsPerSample := le_value (substring 34 2 image);
     dataId := substring 36 4 image; dataSize := le_value (substring 40 4 image) |}.

Record ifstream : Type := {
  content : string;
  pos : nat;
  good : bool
}.

(** [file.read(buffer, n)]: the characters extracted and the stream after
    the call; fewer than [n] characters put the stream in the failed
    state, in which nothing is extracted any more. *)
Definition read (file : ifstream) (n : nat) : string * ifstream :=
  if good file then
    let got := substring (pos file) n (content file) in
    (got, {| content := content file; pos := pos file + String.length got;
             good := String.length got =? n |})
  else ("", file).

(** The memory [image] after [got] has been stored at its start. *)
Definition overlay (got image : string) : string :=
  got +:+ substring (String.length got) (String.length image - String.length got) image.

(** The value of a sample of [T] held in [sizeof T] bytes. *)
Definition sample_of_bytes (T : SampleType) (bytes : string) : Z :=
  let v := le_value bytes in
  if (v <? 2 ^ (8 * sizeof T - 1))%Z then v else (v - 2 ^ (8 * sizeof T))%Z.

(** The [n] samples held in a buffer of [n * sizeof T] bytes. *)
Definition samples_of_buffer (T : SampleType) (n : nat) (buffer : string) : list Z :=
  (fun k => sample_of_bytes T (substring (k * Z.to_nat (sizeof T)) (Z.to_nat (sizeof T)) buffer))
  <$> seq 0 n.

(** The conversions to [uint32_t] and to [uint16_t]. *)
Definition uint32_t (z : Z) : Z := (z mod 2 ^ 32)%Z.
Definition uint16_t (z : Z) : Z := (z mod 2 ^ 16)%Z.

(** The bytes of a vector of samples of [T] in memory, two's complement,
    least significant byte first. *)
Fixpoint buffer_of_samples (T : SampleType) (samples : list Z) : string :=
  match samples with
  | [] => ""
  | x :: samples' => le_bytes (Z.to_nat (sizeof T)) x +:+ buffer_of_samples T samples'
  end.

(** ** WavProcessor *)

Module WavProcessor.
Section WavProcessor.
(** The template parameter, and [std::sin] of the C library. *)
Variable T : SampleType.
Variable sin : float -> float.

Definition MAX_AMP : Z := numeric_limits_max T.
Definition DOT_DURATION : float := 0.1%float.
Definition DASH_DURATION : float := 0.3%float.
Definition SYMBOL_SPACE : float := 0.1%float.
Definition WORD_SPACE : float := 0.7%float.

(** The values pushed by [for (int i = 0; i < n; ++i) samples.push_back(...)]
    from index [i] on, [todo = n - i] iterations being left. *)
Fixpoint sine_burst (step : float) (todo : nat) (i : Z) : list Z :=
  match todo with
  | O => []
  | S todo' =>
      trunc (double_of_Z MAX_AMP * sin (step * double_of_Z i))
      :: sine_burst step todo' (i + 1)
  end.

Definition addSine (samples : list Z) (duration freq : float) (sr : Z) : list Z :=
  let n := trunc (duration * double_of_Z sr) in
  let step := (2 * M_PI * freq / double_of_Z sr)%float in
  samples ++ sine_burst step (Z.to_nat n) 0.

Definition addSilence (samples : list Z) (duration : float) (sr : Z) : list Z :=
  let n := trunc (duration * double_of_Z sr) in
  samples ++ replicate (Z.to_nat n) 0%Z.

(** [morse[i]]; the character past the end is the terminating null. *)
Definition at_index (s : string) (i : nat) : ascii := default "000"%char (get i s).

(** [while (i < morse.size() && morse[i] == ' ') { spaceCount++; i++; }]
    on the state [(i, spaceCount)]. *)
Definition spaces_cond (morse : string) (st : nat * nat) : bool :=
  (fst st <? String.length morse) && (at_index morse (fst st) =? " ")%char.

Definition spaces_body (st : nat * nat) : outcome (nat * nat) :=
  Ok (S (fst st), S (snd st)).

(** The loop of [generateSamples] on the state [(i, samples, counts)];
    [counts] is a ghost variable: the values [spaceCount] had when the
    test [spaceCount == 1] was reached, in order. *)
Definition gen_cond (morse : string) (st : nat * list Z * list nat) : bool :=
  fst (fst st) <? String.length morse.

Definition gen_body (morse : string) (st : nat * list Z * list nat)
  : outcome (nat * list Z * list nat) :=
  let '(i, samples, counts) := st in
  let freq := 800.0%float in
  let sr := 44100%Z in
  let c := at_index morse i in
  if (c =? ".")%char || (c =? "-")%char then
    let samples :=
      if (c =? ".")%char then addSine samples DOT_DURATION freq sr
      else addSine samples DASH_DURATION freq sr in
    let samples := addSilence samples SYMBOL_SPACE sr in
    Ok (S i, samples, counts)
  else if (c =? " ")%char then
    '(i, spaceCount) ← while (String.length morse) (spaces_cond morse) spaces_body (i, 0);
    let samples :=
      if spaceCount =? 1 then addSilence samples (SYMBOL_SPACE * 3) sr
      else if 3 <=? spaceCount then addSilence samples WORD_SPACE sr
      else samples in
    Ok (i, samples, counts ++ [spaceCount])
  else Ok (S i, samples, counts).

Definition generate (morse : string) : outcome (nat * list Z * list nat) :=
  while (String.length morse) (gen_cond morse) (gen_body morse) (0, [], []).

Definition generateSamples (morse : string) : outcome (list Z) :=
  st ← generate morse; Ok (snd (fst st)).

Definition spaceCounts (morse : string) : outcome (list nat) :=
  st ← generate morse; Ok (snd st).

(** The local variables of [decodeSamples]. *)
Record detector : Type := Detector {
  morse : string;
  in_tone : bool;
  tone_start : Z;
  silence_start : Z;
  debounce_counter : Z
}.

Definition threshold : Z := (MAX_AMP ÷ 100)%Z.

Definition debounce_threshold (sr : Z) : Z := trunc (double_of_Z sr * 0.001).

(** One iteration of [for (size_t i = 0; i < samples.size(); ++i)] with
    [x = samples[i]].  [std::abs] is taken on the sample promoted to [int]:
    [Z.abs] is its value for every sample of [int8_t] and [int16_t]; for
    [int32_t] the sample [-2^31] has no absolute value in [int]. *)
Definition step (sr : Z) (st : detector) (i x : Z) : detector :=
  if (Z.abs x >? threshold)%Z then
    if negb (in_tone st) then
      let counter := (debounce_counter st + 1)%Z in
      if (counter >=? debounce_threshold sr)%Z then
        let m :=
          if (silence_start st =? -1)%Z then morse st
          else
            let silence_duration :=
              (double_of_Z (size_t_sub i (silence_start st)) / double_of_Z sr)%float in
            if (0.79 <=? silence_duration)%float then morse st +:+ "   "
            else if (0.39 <=? silence_duration)%float then morse st +:+ " "
            else morse st in
        {| morse := m; in_tone := true; tone_start := int_of_size_t i;
           silence_start := -1; debounce_counter := 0 |}
      else
        {| morse := morse st; in_tone := in_tone st; tone_start := tone_start st;
           silence_start := silence_start st; debounce_counter := counter |}
    else
      {| morse := morse st; in_tone := in_tone st; tone_start := tone_start st;
         silence_start := silence_start st; debounce_counter := 0 |}
  else
    if in_tone st then
      let counter := (debounce_counter st + 1)%Z in
      if (counter >=? debounce_threshold sr)%Z then
        let tone_duration :=
          (double_of_Z (size_t_sub i (tone_start st)) / double_of_Z sr)%float in
        let symbol :=
          if (tone_duration <? (DOT_DURATION + DASH_DURATION) / 2)%float then "." else "-" in
        {| morse := morse st +:+ symbol; in_tone := false; tone_start := tone_start st;
           silence_start := int_of_size_t i; debounce_counter := 0 |}
      else
        {| morse := morse st; in_tone := in_tone st; tone_start := tone_start st;
           silence_start := silence_start st; debounce_counter := counter |}
    else
      {| morse := morse st; in_tone := in_tone st; tone_start := tone_start st;
         silence_start := silence_start st; debounce_counter := 0 |}.

Fixpoint detect_loop (sr : Z) (samples : list Z) (i : Z) (st : detector) : detector :=
  match samples with
  | [] => st
  | x :: samples' => detect_loop sr samples' (i + 1) (step sr st i x)
  end.

Definition detector_init : detector :=
  {| morse := ""; in_tone := false; tone_start := 0; silence_start := -1;
     debounce_counter := 0 |}.

(** [decodeSamples] also prints the decoded string on [std::cout]; the
    embedding keeps the returned value only. *)
Definition decodeSamples (samples : list Z) (sr : Z) : string :=
  morse (detect_loop sr samples 0 detector_init).

End WavProcessor.

Section loadWav.
Variable T : SampleType.
(** The files that can be opened, by name, and the indeterminate values
    of the header members that have no initializer. *)
Variable fs : gmap string string.
Variable indeterminate : WavHeader.

(** [loadWav] up to the call of [decodeSamples]: the vector [samples]
    and [header.sampleRate].  The second [read] stores [header.dataSize]
    characters at most into a vector of [dataSize / sizeof(SampleType)]
    samples: storing more than the vector holds is undefined. *)
Definition loadWav_samples (filename : string) : outcome (list Z * Z) :=
  match fs !! filename with
  | None => Throw (MorseException ("Cannot open " +:+ filename))
  | Some bytes =>
      let file := {| content := bytes; pos := 0; good := true |} in
      let '(got, file) := read file 44 in
      let header := header_parse (overlay got (header_image (WavHeader_init indeterminate))) in
      if negb (bitsPerSample header =? sizeof T * 8)%Z then Throw (MorseException "Unsupported sample type in WAV file.")
      else
        let n := (dataSize header / sizeof T)%Z in
        let '(got, file) := read file (Z.to_nat (dataSize header)) in
        if (n * sizeof T <? Z.of_nat (String.length got))%Z then Undefined
        else
          Ok (samples_of_buffer T (Z.to_nat n)
                (overlay got (le_bytes (Z.to_nat (n * sizeof T)) 0)),
              sampleRate header)
  end.

Definition loadWav (filename : string) : outcome string :=
  '(samples, sr) ← loadWav_samples filename;
  Ok (decodeSamples T samples sr).
End loadWav.

Section saveWav.
Variable T : SampleType.
(** The names a stream can be opened on for writing, and the indeterminate
    values of the header members that have no initializer. *)
Variable writable : string -> bool.
Variable indeterminate : WavHeader.

(** The header after the five assignments of [saveWav]. *)
Definition saveWav_header (samples : list Z) : WavHeader :=
  let header := WavHeader_init indeterminate in
  let data_size := uint32_t (Z.of_nat (List.length samples) * sizeof T) in
  {| riffId := riffId header;
     riffSize := uint32_t (data_size + 44 - 8);
     waveId := waveId header; fmtId := fmtId header; fmtSize := fmtSize header;
     audioFormat := audioFormat header; numChannels := numChannels header;
     sampleRate := sampleRate header;
     byteRate := uint32_t (sampleRate header * numChannels header * sizeof T);
     blockAlign := uint16_t (numChannels header * sizeof T);
     bitsPerSample := uint16_t (sizeof T * 8);
     dataId := dataId header;
     dataSize := data_size |}.

(** [saveWav] on the files [fs]: the file is created or replaced, and
    holds the 44 bytes of the header followed by the samples.  The two
    [write] calls are taken to succeed once the stream is open. *)
Definition saveWav (fs : gmap string string) (filename : string) (samples : list Z)
  : outcome (gmap string string) :=
  if writable filename then
    Ok (<[filename := header_image (saveWav_header samples) +:+ buffer_of_samples T samples]> fs)
  else Throw (MorseException ("Cannot open " +:+ filename)).
End saveWav.

End WavProcessor.

Import MorseConverter.
Import WavProcessor.

(** ** FileHandler, MorseEncoder, MorseDecoder *)

(** Files are named byte strings; a file is read as it was written (no
    translation of line ends). *)
Module FileHandler.
Section FileHandler.
Variable writable : string -> bool.

Definition read (fs : gmap string string) (filename : string) : outcome string :=
  match fs !! filename with
  | Some content => Ok content
  | None => Throw (MorseException ("Cannot read " +:+ filename))
  end.

Definition write (fs : gmap string string) (filename content : string)
  : outcome (gmap string string) :=
  if writable filename then Ok (<[filename := content]> fs)
  else Throw (MorseException ("Cannot write " +:+ filename)).
End FileHandler.
End FileHandler.

Module MorseEncoder.
Record t : Type := mk { converter : MorseConverter.t }.

Definition new : t := {| converter := MorseConverter.new |}.

Definition encode (this : t) (text : string) : outcome string :=
  MorseConverter.encode (converter this) text.

Definition decode (this : t) (morse : string) : outcome string :=
  Throw (MorseException "Encoder cannot decode").

Section encodeFile.
Variable sin : float -> float.
Variable writable : string -> bool.
Variable indeterminate : WavHeader.

(** [WavProcessor<>] is [WavProcessor<int8_t>]. *)
Definition encodeFile (this : t) (fs : gmap string string) (input output : string)
  : outcome (gmap string string) :=
  text ← FileHandler.read fs input;
  morse ← encode this text;
  samples ← generateSamples int8_t sin morse;
  saveWav int8_t writable indeterminate fs output samples.
End encodeFile.
End MorseEncoder.

Module MorseDecoder.
Record t : Type := mk { converter : MorseConverter.t }.

Definition new : t := {| converter := MorseConverter.new |}.

Definition encode (this : t) (text : string) : outcome string :=
  Throw (MorseException "Decoder cannot encode").

Definition decode (this : t) (morse : string) : outcome string :=
  MorseConverter.decode (converter this) morse.

Section decodeFile.
Variable writable : string -> bool.
Variable indeterminate : WavHeader.

Definition decodeFile (this : t) (fs : gmap string string) (input output : string)
  : outcome (gmap string string) :=
  morse ← loadWav int8_t fs indeterminate input;
  text ← decode this morse;
  FileHandler.write writable fs output text.
End decodeFile.
End MorseDecoder.

(** ** main *)

Section main.
Variable sin : float -> float.
Variable writable : string -> bool.
Variable indeterminate : WavHeader.

(** [try { ... } catch (const std::exception& e) { ...; return 1; }] around
    a step that leaves the files [fs] as they are when it throws. *)
Definition try_step {A : Type} (fs : gmap string string) (step : outcome A)
  (next : A -> outcome (Z * gmap string string)) : outcome (Z * gmap string string) :=
  match step with
  | Ok a => next a
  | Throw _ => Ok (1%Z, fs)
  | OutOfFuel => OutOfFuel
  | Undefined => Undefined
  end.

(** The constants of the self-test; [test_wav_file] is the [test_wav] of
    the source. *)
Definition test_message : string := "I HAVE 2 CUPS OF WATER.".
Definition test_file : string := "test.txt".
Definition test_wav_file : string := "test.wav".
Definition test_out : string := "output.txt".

(** The self-test that [main] runs when it is not given three arguments. *)
Definition self_test (fs : gmap string string) : outcome (Z * gmap string string) :=
  try_step fs (FileHandler.write writable fs test_file test_message) (fun fs1 =>
  try_step fs1 (MorseEncoder.encode MorseEncoder.new test_message) (fun test_morse =>
  try_step fs1 (MorseEncoder.encodeFile sin writable indeterminate MorseEncoder.new
                  fs1 test_file test_wav_file) (fun fs2 =>
  try_step fs2 (MorseDecoder.decodeFile writable indeterminate MorseDecoder.new
                  fs2 test_wav_file test_out) (fun fs3 =>
  try_step fs3 (FileHandler.read fs3 test_out) (fun decoded =>
  Ok (0%Z, fs3)))))).

(** [main]: the exit status and the files it leaves; [argv] holds [argc]
    strings.  What is printed is not part of the embedding. *)
Definition main (argv : list string) (fs : gmap string string)
  : outcome (Z * gmap string string) :=
  match argv with
  | [_; mode; input; output] =>
      if String.eqb mode "--encode" then
        try_step fs (MorseEncoder.encodeFile sin writable indeterminate MorseEncoder.new
                       fs input output)
          (fun fs' => Ok (0%Z, fs'))
      else if String.eqb mode "--decode" then
        try_step fs (MorseDecoder.decodeFile writable indeterminate MorseDecoder.new
                       fs input output)
          (fun fs' => Ok (0%Z, fs'))
      else
        try_step fs (Throw (MorseException "Invalid mode. Use --encode or --decode"))
          (fun _ : unit => Ok (0%Z, fs))
  | _ => self_test fs
  end.
End main.

(** * Definitions of the specification side *)

(** ** Text codec *)

(** The word segments of a Morse string: cut at every ["   "] met when
    scanning from the left, as the [find] loop of [decode] does.  [cur]
    holds the characters of the segment being read. *)
Fixpoint split3 (cur : string) (s : string) : list string :=
  match s with
  | EmptyString => [cur]
  | String c s' =>
      if String.prefix "   " s then
        match s' with
        | String _ (String _ s'') => cur :: split3 "" s''
        | _ => [cur]
        end
      else split3 (push_back cur c) s'
  end.

Definition segments (morse : string) : list string := split3 "" morse.

(** The text of one token, and of a list of tokens. *)
Definition token_text (this : MorseConverter.t) (token : string) : string :=
  match morseToChar this !! token with Some c => String c "" | None => "" end.

Definition tokens_text (this : MorseConverter.t) (tokens : list string) : string :=
  foldr (fun token acc => token_text this token +:+ acc) "" tokens.

Definition segment_text (this : MorseConverter.t) (w : string) : string :=
  tokens_text this (String.words w).

(** The alphabet as the specification lists it. *)
Definition is_upper (c : ascii) : bool :=
  let n := nat_of_ascii c in (65 <=? n) && (n <=? 90).

Definition is_digit (c : ascii) : bool :=
  let n := nat_of_ascii c in (48 <=? n) && (n <=? 57).

Definition in_alphabet (c : ascii) : bool :=
  is_upper c || is_digit c || (c =? ".")%char || (c =? ",")%char || (c =? "?")%char
  || (c =? " ")%char.

Definition supported (text : string) : Prop :=
  forall c, In c (list_ascii_of_string text) -> in_alphabet (toupper c) = true.

Fixpoint uppercase (s : string) : string :=
  match s with
  | EmptyString => EmptyString
  | String c s' => String (toupper c) (uppercase s')
  end.

Fixpoint no_spaceb (s : string) : bool :=
  match s with
  | EmptyString => true
  | String c s' => negb (Ascii.is_space c) && no_spaceb s'
  end.

(** What [encode] appends after the text already produced; [sep] tells
    whether a pattern that comes next is preceded by a letter gap. *)
Fixpoint encode_tail (this : MorseConverter.t) (text : string) (sep : bool) : outcome string :=
  match text with
  | EmptyString => Ok ""
  | String c0 text' =>
      let c := toupper c0 in
      if (c =? " ")%char then (fun m => "   " +:+ m) <$> encode_tail this text' false
      else
        match charToMorse this !! c with
        | None => Throw (cannot_encode c)
        | Some p =>
            (fun m => (if sep then " " else "") +:+ p +:+ m) <$> encode_tail this text' true
        end
  end.

Definition pattern_okb (c : ascii) : bool :=
  match charToMorse new !! c with
  | None => true
  | Some p =>
      (c =? " ")%char
      || (negb (empty p) && no_spaceb p
          && match morseToChar new !! p with Some c' => (c' =? c)%char | None => false end)
  end.

(** Spec words: runs of literal spaces strictly inside the text are
    collapsed to one space; leading and trailing runs are kept. *)
Fixpoint spaces (n : nat) : string :=
  match n with O => "" | S n' => String " " (spaces n') end.

Fixpoint collapse_go (seen : bool) (pending : nat) (s : string) : string :=
  match s with
  | EmptyString => spaces pending
  | String c s' =>
      if (c =? " ")%char then collapse_go seen (S pending) s'
      else
        (if seen then (match pending with O => "" | S _ => " " end) else spaces pending)
        +:+ String c (collapse_go true 0 s')
  end.

Definition collapse_internal_literal_whitespace (s : string) : string :=
  collapse_go false 0 s.

(** The specification's [UnsupportedCharacter]: the [MorseException]
    raised for a character outside the alphabet. *)
Definition UnsupportedCharacter (e : exn) : Prop :=
  exists c, in_alphabet c = false /\ e = cannot_encode c.

Definition has_unsupported (text : string) : Prop :=
  exists c, In c (list_ascii_of_string text) /\ in_alphabet (toupper c) = false.

(** A token: non-empty, without white space. *)
Definition is_token (t : string) : Prop := empty t = false /\ no_spaceb t = true.

Definition has_space (s : string) : Prop := In " "%char (list_ascii_of_string s).

Definition first_char (s : string) : option ascii :=
  match s with EmptyString => None | String c _ => Some c end.

Fixpoint last_char (s : string) : option ascii :=
  match s with
  | EmptyString => None
  | String c s' => match last_char s' with Some c' => Some c' | None => Some c end
  end.

Definition emit_run (run : nat) : list nat :=
  match run with O => [] | S _ => [run] end.

(** Lengths of the maximal runs of spaces of [s], left to right; [run]
    counts the spaces just before [s]. *)
Fixpoint runs_go (run : nat) (s : string) : list nat :=
  match s with
  | EmptyString => emit_run run
  | String c s' =>
      if (c =? " ")%char then runs_go (S run) s'
      else emit_run run ++ runs_go 0 s'
  end.

Definition space_runs (s : string) : list nat := runs_go 0 s.

Definition gap_run (n : nat) : Prop := n = 1 \/ (0 < n /\ n mod 3 = 0).

(** ** Rendering *)

(** A polynomial sine in binary64, used to run the renderer: reduction of
    the argument to [[-pi, pi)] and the Taylor polynomial of degree 23. *)
Fixpoint sin_taylor (terms : nat) (k : float) (term x2 acc : float) : float :=
  match terms with
  | O => acc
  | S terms' =>
      let term' := (- term * x2 / ((k + 1) * (k + 2)))%float in
      sin_taylor terms' (k + 2)%float term' x2 (acc + term')%float
  end.

Definition sin_poly (x : float) : float :=
  let turns := double_of_Z (trunc (x / (2 * M_PI))) in
  let r := (x - turns * (2 * M_PI) - M_PI)%float in
  (- sin_taylor 11 1 r (r * r) r)%float.

Section rendering.
Variable T : SampleType.
Variable sin : float -> float.

(** The samples of one symbol: the tone, then the symbol space. *)
Definition symbol_samples (c : ascii) : list Z :=
  if (c =? ".")%char then addSilence (addSine T sin [] DOT_DURATION 800 44100) SYMBOL_SPACE 44100
  else if (c =? "-")%char
       then addSilence (addSine T sin [] DASH_DURATION 800 44100) SYMBOL_SPACE 44100
       else [].

(** The samples of a run of [n] spaces. *)
Definition gap_samples (n : nat) : list Z :=
  if n =? 1 then addSilence [] (SYMBOL_SPACE * 3) 44100
  else if 3 <=? n then addSilence [] WORD_SPACE 44100
  else [].

(** The samples of [s], [run] spaces having been read just before it. *)
Fixpoint render_go (run : nat) (s : string) : list Z :=
  match s with
  | EmptyString => gap_samples run
  | String c s' =>
      if (c =? " ")%char then render_go (S run) s'
      else gap_samples run ++ symbol_samples c ++ render_go 0 s'
  end.

Definition render (s : string) : list Z := render_go 0 s.

Definition dot_burst : list Z := addSine T sin [] DOT_DURATION 800 44100.
Definition dash_burst : list Z := addSine T sin [] DASH_DURATION 800 44100.
End rendering.

(** The number of zero samples of a run of [k] spaces with the products
    of the code: [static_cast<int>(duration * sr)] in binary64. *)
Definition gap_length (k : nat) : Z :=
  if k =? 1 then trunc (0.3 * 44100)
  else if 3 <=? k then trunc (0.7 * 44100)
  else 0.

(** The number of zero samples the specification gives for a run of [k]
    spaces: [floor(0.3 * 44100)] and [floor(0.7 * 44100)], the products
    taken exactly (0.3 is 3/10 and 0.7 is 7/10). *)
Definition claimed_gap_length (k : nat) : Z :=
  if k =? 1 then (3 * 44100 / 10)%Z
  else if 3 <=? k then (7 * 44100 / 10)%Z
  else 0%Z.

(** ** Detection *)

Section detection.
Variable T : SampleType.
Variable sr : Z.

Definition active (x : Z) : bool := (Z.abs x >? threshold T)%Z.

(** The gap appended when a tone is confirmed at sample [i]. *)
Definition gap_of (i silence_start : Z) : string :=
  if (silence_start =? -1)%Z then ""
  else
    let d := (double_of_Z (size_t_sub i silence_start) / double_of_Z sr)%float in
    if (0.79 <=? d)%float then "   " else if (0.39 <=? d)%float then " " else "".

(** The symbol appended when a silence is confirmed at sample [i]. *)
Definition symbol_of (i tone_start : Z) : string :=
  let d := (double_of_Z (size_t_sub i tone_start) / double_of_Z sr)%float in
  if (d <? (DOT_DURATION + DASH_DURATION) / 2)%float then "." else "-".
End detection.

Section clean_bursts.
Variable T : SampleType.

(** The counter of the detector in a tone, over the samples [l]: [None]
    when 44 quiet samples in a row are met. *)
Fixpoint sustained (c : Z) (l : list Z) : option Z :=
  match l with
  | [] => Some c
  | x :: l' =>
      if active T x then sustained 0 l'
      else if (c + 1 >=? 44)%Z then None else sustained (c + 1) l'
  end.

(** A burst the detector follows: a quiet first sample (the sine starts
    at zero), then 44 active samples, then never 44 quiet samples in a
    row, the last sample being active. *)
Definition clean_burst (b : list Z) : bool :=
  match b with
  | [] => false
  | x0 :: rest =>
      negb (active T x0)
      && (List.length (take 44 rest) =? 44)
      && forallb (active T) (take 44 rest)
      && match sustained 0 (drop 44 rest) with Some 0%Z => true | _ => false end
  end.
End clean_bursts.

Definition is_symbol (c : ascii) : bool := (c =? ".")%char || (c =? "-")%char.

(** Symbols separated by nothing, by one space or by three spaces. *)
Inductive proper : string -> Prop :=
| proper_last c : is_symbol c = true -> proper (String c "")
| proper_more c j m :
    is_symbol c = true -> j = 0 \/ j = 1 \/ j = 3 -> proper m ->
    proper (String c (spaces j +:+ m)).

Definition morse_char (c : ascii) : bool := is_symbol c || (c =? " ")%char.

(** The condition of the specification: characters ['.'], ['-'], [' ']
    only, and every maximal run of spaces of length 1 or 3. *)
Definition single_and_triple_gaps (m : string) : Prop :=
  (forall c, In c (list_ascii_of_string m) -> morse_char c = true)
  /\ Forall (fun n => n = 1 \/ n = 3) (space_runs m).

(** The same, and no space at either end. *)
Definition well_formed (m : string) : Prop :=
  single_and_triple_gaps m
  /\ first_char m <> Some " "%char /\ last_char m <> Some " "%char.

(** ** Container *)

Definition UnsupportedSampleWidth : exn :=
  MorseException "Unsupported sample type in WAV file.".

(** A file of four 8-bit samples. *)
Definition test_header : WavHeader :=
  {| riffId := "RIFF"; riffSize := 40; waveId := "WAVE"; fmtId := "fmt "; fmtSize := 16;
     audioFormat := 1; numChannels := 1; sampleRate := 44100; byteRate := 44100;
     blockAlign := 1; bitsPerSample := 8; dataId := "data"; dataSize := 4 |}.

Definition test_wav : string :=
  header_image test_header +:+ le_bytes 1 1 +:+ le_bytes 1 255 +:+ le_bytes 1 128
  +:+ le_bytes 1 127.

(** ** More on the text codec *)

(** A pattern of the table read back, and the shape of a pattern. *)
Definition inverse_okb (c : ascii) : bool :=
  match charToMorse new !! c with
  | None => true
  | Some p => match morseToChar new !! p with Some c' => (c' =? c)%char | None => false end
  end.

Definition pattern_shapeb (c : ascii) : bool :=
  match charToMorse new !! c with
  | None => true
  | Some p =>
      (1 <=? String.length p) && (String.length p <=? 6)
      && forallb morse_char (list_ascii_of_string p)
  end.

Definition ends_letter (a : string) : bool :=
  match last_char a with Some x => negb (x =? " ")%char | None => false end.

Definition starts_letter (b : string) : bool :=
  match first_char b with Some y => negb (y =? " ")%char | None => false end.

(** Whether a code that comes after the text [a] is preceded by a letter
    gap, [sep] telling it for the empty text. *)
Definition sep_after (a : string) (sep : bool) : bool :=
  match last_char a with Some x => negb (x =? " ")%char | None => sep end.

(** Whether [encode] puts a letter gap between the codes of [a] and [b]. *)
Definition letter_joint (a b : string) : bool := ends_letter a && starts_letter b.

(** [s] without its leading and trailing spaces, every other run of [n]
    spaces replaced by [gap n]; [seen] tells whether a character other
    than a space has been met, [run] counts the spaces just before [s]. *)
Fixpoint squeeze_go (gap : nat -> string) (seen : bool) (run : nat) (s : string) : string :=
  match s with
  | EmptyString => ""
  | String c s' =>
      if (c =? " ")%char then squeeze_go gap seen (S run) s'
      else (if seen then gap run else "") +:+ String c (squeeze_go gap true 0 s')
  end.

(** A text with its words separated by single spaces. *)
Definition word_gap (n : nat) : string := match n with O => "" | S _ => " " end.

Definition normalize (text : string) : string := squeeze_go word_gap false 0 text.

(** A Morse string as the detector gives it back: a single space stays, a
    run of three or more is a word gap, a run of two is lost. *)
Definition gap_text (n : nat) : string :=
  if n =? 1 then " " else if 3 <=? n then "   " else "".

Definition squeeze (m : string) : string := squeeze_go gap_text false 0 m.

(** ** More on rendering and detection *)

Fixpoint count_char (c : ascii) (s : string) : nat :=
  match s with
  | EmptyString => 0
  | String x s' => (if (x =? c)%char then 1 else 0) + count_char c s'
  end.

(** The samples a run of [k] spaces stands for. *)
Definition run_samples (k : nat) : Z :=
  if k =? 1 then 13230%Z else if 3 <=? k then 30869%Z else 0%Z.

(** The number of samples of a Morse string: 8820 for a dot (4410 of
    tone, 4410 of silence), 17640 for a dash (13230 and 4410), and what
    each run of spaces stands for. *)
Definition samples_count (m : string) : Z :=
  (8820 * Z.of_nat (count_char "." m) + 17640 * Z.of_nat (count_char "-" m)
   + foldr Z.add 0 (run_samples <$> space_runs m))%Z.

(** What holds of the detector as long as it has emitted nothing, [i]
    samples having been read at [sr] samples a second. *)
Definition nothing_yet (sr : Z) (i : Z) (st : detector) : Prop :=
  morse st = "" /\ silence_start st = (-1)%Z
  /\ (0 <= debounce_counter st)%Z
  /\ (in_tone st = false -> debounce_counter st <= i)%Z
  /\ (in_tone st = true -> debounce_counter st + debounce_threshold sr <= i)%Z.

(** The shape of the detector's output at any time. *)
Definition detector_shape (st : detector) : Prop :=
  single_and_triple_gaps (morse st)
  /\ first_char (morse st) <> Some " "%char
  /\ (in_tone st = false -> last_char (morse st) <> Some " "%char)
  /\ (in_tone st = false -> silence_start st <> (-1)%Z -> morse st <> "").

(** ** More on the container *)

(** The values a sample of [T] can hold. *)
Definition in_range (T : SampleType) (x : Z) : bool :=
  (- numeric_limits_max T - 1 <=? x)%Z && (x <=? numeric_limits_max T)%Z.

(** The header [saveWav] writes for [n] samples of [T]. *)
Definition wav_header (T : SampleType) (n : nat) : WavHeader :=
  {| riffId := "RIFF"; riffSize := 36 + Z.of_nat n * sizeof T; waveId := "WAVE";
     fmtId := "fmt "; fmtSize := 16; audioFormat := 1; numChannels := 1;
     sampleRate := 44100; byteRate := 44100 * sizeof T; blockAlign := sizeof T;
     bitsPerSample := 8 * sizeof T; dataId := "data"; dataSize := Z.of_nat n * sizeof T |}.

(** ** Tactics *)

Ltac each_ascii c := destruct c as [[] [] [] [] [] [] [] []].

Ltac zlia :=
  change (2 ^ 31)%Z with 2147483648%Z in *;
  change (2 ^ 64)%Z with 18446744073709551616%Z in *; lia.

Example encode_self_test :
  encode new "I HAVE 2 CUPS OF WATER." =
  Ok ("..   .... .- ...- .   ..---   -.-. ..- .--. ...   --- ..-.   .-- .- - . .-. .-.-.-").
Proof. vm_compute. reflexivity. Qed.

Example decode_self_test :
  decode new "..   .... .- ...- .   ..---   -.-. ..- .--. ...   --- ..-.   .-- .- - . .-. .-.-.-"
  = Ok "I HAVE 2 CUPS OF WATER.".
Proof. vm_compute. reflexivity. Qed.

(** * Strings *)

Section string_facts.
Implicit Types (s t u : string) (c : ascii).

Lemma sapp_cons c s t : String c s +:+ t = String c (s +:+ t).
Proof. reflexivity. Qed.

Lemma sapp_nil_l s : "" +:+ s = s.
Proof. reflexivity. Qed.

Lemma sapp_nil_r s : s +:+ "" = s.
Proof. induction s as [|c s IH]; [reflexivity|]. rewrite sapp_cons, IH. reflexivity. Qed.

Lemma sapp_assoc s t u : (s +:+ t) +:+ u = s +:+ t +:+ u.
Proof.
  induction s as [|c s IH]; [reflexivity|].
  rewrite !sapp_cons, IH. reflexivity.
Qed.

Lemma slength_app s t : String.length (s +:+ t) = String.length s + String.length t.
Proof.
  induction s as [|c s IH]; [reflexivity|].
  rewrite sapp_cons. simpl. rewrite IH. reflexivity.
Qed.

Lemma push_back_app s t c : push_back (s +:+ t) c = s +:+ push_back t c.
Proof. unfold push_back. apply sapp_assoc. Qed.

Lemma empty_app s t : empty (s +:+ t) = empty s && empty t.
Proof. destruct s; reflexivity. Qed.

Lemma index_skip s needle t :
  index (String.length s) needle (s +:+ t) = (fun p => String.length s + p) <$> index 0 needle t.
Proof.
  induction s as [|c s IH].
  - rewrite sapp_nil_l. simpl. destruct (index 0 needle t); reflexivity.
  - rewrite sapp_cons. simpl. rewrite IH. destruct (index 0 needle t); reflexivity.
Qed.

Lemma substring_skip s t k :
  substring (String.length s) k (s +:+ t) = substring 0 k t.
Proof.
  induction s as [|c s IH]; [reflexivity|].
  rewrite sapp_cons. simpl. exact IH.
Qed.

Lemma substring_take s t : substring 0 (String.length s) (s +:+ t) = s.
Proof.
  induction s as [|c s IH].
  - simpl. destruct t; reflexivity.
  - rewrite sapp_cons. simpl. rewrite IH. reflexivity.
Qed.

Lemma substring_all s : substring 0 (String.length s) s = s.
Proof. rewrite <- (sapp_nil_r s) at 2. apply substring_take. Qed.
End string_facts.

(** * The iteration budget *)

Section while_facts.
Context {S : Type} (cond : S -> bool) (body : S -> outcome S).

Lemma while_done fuel s : cond s = false -> while fuel cond body s = Ok s.
Proof. intros H. destruct fuel; simpl; rewrite H; reflexivity. Qed.

Lemma while_step fuel s :
  cond s = true -> while (Datatypes.S fuel) cond body s = body s ≫= while fuel cond body.
Proof. intros H. simpl. rewrite H. reflexivity. Qed.
End while_facts.

(** * Text codec: what the loops compute *)

(** ** The table *)

Lemma pattern_okb_all c : pattern_okb c = true.
Proof. each_ascii c; vm_compute; reflexivity. Qed.

Lemma count_alphabet c : count (charToMorse new) c = if in_alphabet c then 1 else 0.
Proof. each_ascii c; vm_compute; reflexivity. Qed.

Lemma toupper_space c : (toupper c =? " ")%char = (c =? " ")%char.
Proof. each_ascii c; vm_compute; reflexivity. Qed.

Lemma morseToChar_elements :
  forall token c, morseToChar new !! token = Some c ->
                  In (c, token) mappings.
Proof.
  intros token c H. apply elem_of_map_to_list in H.
  apply list_elem_of_In in H.
  let l := eval vm_compute in (map_to_list (morseToChar new)) in
  assert (E : map_to_list (morseToChar new) = l) by (vm_compute; reflexivity).
  rewrite E in H. clear E.
  simpl in H. unfold mappings.
  repeat (destruct H as [H|H]; [inversion H; subst; simpl; tauto|]).
  destruct H.
Qed.

(** The tables are fixed; from here on they are used through the facts
    above, never unfolded. *)
Opaque new.

Lemma pattern_facts c p :
  charToMorse new !! c = Some p -> (c =? " ")%char = false ->
  empty p = false /\ no_spaceb p = true /\ morseToChar new !! p = Some c.
Proof.
  intros Hp Hc. pose proof (pattern_okb_all c) as H. unfold pattern_okb in H.
  rewrite Hp, Hc in H. simpl in H.
  destruct (empty p); [discriminate|]. destruct (no_spaceb p); [|discriminate].
  destruct (morseToChar new !! p) as [c'|]; [|discriminate].
  simpl in H. apply Ascii.eqb_eq in H. subst. auto.
Qed.

(** ** [encode] *)

Lemma outcome_fmap_compose {A B C : Type} (f : A -> B) (g : B -> C) (m : outcome A) :
  g <$> (f <$> m) = (fun a => g (f a)) <$> m.
Proof. destruct m; reflexivity. Qed.

Lemma outcome_fmap_ext {A B : Type} (f g : A -> B) (m : outcome A) :
  (forall a, f a = g a) -> f <$> m = g <$> m.
Proof. intros H. destruct m; try reflexivity. unfold fmap, outcome_fmap. simpl. rewrite H. reflexivity. Qed.

Lemma encode_loop_tail text : forall morse prev,
  encode_loop new text morse prev
  = (fun out => morse +:+ out) <$> encode_tail new text (negb (empty morse) && negb prev).
Proof.
  induction text as [|c0 text IH]; intros morse prev.
  - simpl. unfold fmap, outcome_fmap. simpl. rewrite sapp_nil_r. reflexivity.
  - simpl. destruct (toupper c0 =? " ")%char eqn:Hsp.
    + rewrite IH, outcome_fmap_compose. rewrite andb_false_r.
      apply outcome_fmap_ext. intros a. apply sapp_assoc.
    + unfold count, at_.
      destruct (charToMorse new !! toupper c0) as [p|] eqn:Hp; simpl; [|reflexivity].
      destruct (pattern_facts _ _ Hp Hsp) as (Hne & _ & _).
      rewrite IH, outcome_fmap_compose.
      rewrite empty_app, Hne, andb_false_r. simpl.
      apply outcome_fmap_ext. intros a.
      destruct (negb (empty morse) && negb prev).
      * unfold push_back. rewrite !sapp_assoc. reflexivity.
      * rewrite sapp_assoc. reflexivity.
Qed.

Lemma encode_tail_spec text : encode new text = encode_tail new text false.
Proof.
  unfold encode. rewrite encode_loop_tail. simpl.
  destruct (encode_tail new text false); reflexivity.
Qed.

(** ** [decode]: the [find] loop *)

Lemma split3_index rest : forall cur,
  match index 0 "   " rest with
  | None => split3 cur rest = [cur +:+ rest]
  | Some p => exists a b, rest = a +:+ "   " +:+ b /\ String.length a = p
                          /\ split3 cur rest = (cur +:+ a) :: split3 "" b
  end.
Proof.
  induction rest as [|c rest IH]; intros cur.
  - simpl. rewrite sapp_nil_r. reflexivity.
  - cbn [index split3].
    destruct (String.prefix "   " (String c rest)) eqn:Hpre.
    + apply prefix_correct in Hpre. simpl in Hpre.
      destruct rest as [|c1 [|c2 rest]]; try discriminate.
      injection Hpre as -> -> ->.
      exists "", rest. rewrite sapp_nil_r. auto.
    + specialize (IH (push_back cur c)).
      destruct (index 0 "   " rest) as [p|].
      * destruct IH as (a & b & -> & <- & IH). exists (String c a), b.
        rewrite IH. unfold push_back. rewrite sapp_assoc. auto.
      * rewrite IH. unfold push_back. rewrite sapp_assoc. reflexivity.
Qed.

Lemma split_body_found morse prev words pos :
  find morse "   " prev = Some pos ->
  split_body morse (prev, words)
  = (w ← substr morse prev (pos - prev); Ok (pos + 3, words ++ [w])).
Proof. intros H. unfold split_body. rewrite H. reflexivity. Qed.

Lemma split_loop_spec fuel : forall done rest words,
  String.length rest < fuel ->
  exists prev' ws wlast,
    while fuel (split_cond (done +:+ rest)) (split_body (done +:+ rest))
          (String.length done, words) = Ok (prev', words ++ ws)
    /\ substr_from (done +:+ rest) prev' = Ok wlast
    /\ ws ++ [wlast] = split3 "" rest.
Proof.
  induction fuel as [|fuel IH]; intros done rest words Hfuel; [lia|].
  pose proof (split3_index rest "") as Hsplit.
  pose proof (index_skip done "   " rest) as Hidx.
  destruct (index 0 "   " rest) as [p|] eqn:Hp.
  - destruct Hsplit as (a & b & -> & <- & Hsplit).
    rewrite while_step by (unfold split_cond, find; cbn [fst]; rewrite Hidx; reflexivity).
    rewrite (split_body_found _ _ _ _ Hidx).
    unfold substr. rewrite slength_app.
    destruct (_ <? _) eqn:Hlt; [apply Nat.ltb_lt in Hlt; lia|].
    replace (String.length done + String.length a - String.length done)
      with (String.length a) by lia.
    rewrite substring_skip, substring_take. simpl.
    destruct (IH (done +:+ a +:+ "   ") b (words ++ [a])) as (prev' & ws & wlast & Hw & Hs & Hr).
    { rewrite !slength_app in Hfuel. simpl in Hfuel. lia. }
    rewrite !sapp_assoc in Hw, Hs.
    replace (String.length (done +:+ a +:+ "   ")) with (String.length done + String.length a + 3)
      in Hw by (rewrite !slength_app; simpl; lia).
    exists prev', (a :: ws), wlast. rewrite Hw, Hs, Hsplit, <- Hr.
    rewrite <- app_assoc. auto.
  - rewrite while_done by (unfold split_cond, find; cbn [fst]; rewrite Hidx; reflexivity).
    exists (String.length done), [], rest. rewrite app_nil_r. split; [reflexivity|].
    split; [|rewrite Hsplit; reflexivity].
    unfold substr_from, substr. rewrite slength_app.
    destruct (_ <? _) eqn:Hlt; [apply Nat.ltb_lt in Hlt; lia|].
    replace (String.length done + String.length rest - String.length done)
      with (String.length rest) by lia.
    rewrite substring_skip, substring_all. reflexivity.
Qed.

(** ** [decode]: tokens and words *)

Lemma token_loop_spec tokens : forall text,
  token_loop new tokens text = Ok (text +:+ tokens_text new tokens).
Proof.
  induction tokens as [|token tokens IH]; intros text.
  - simpl. rewrite sapp_nil_r. reflexivity.
  - cbn [token_loop tokens_text foldr]. unfold count, at_, token_text.
    destruct (morseToChar new !! token) as [c|]; simpl.
    + rewrite IH. unfold push_back. rewrite sapp_assoc. reflexivity.
    + apply IH.
Qed.

Lemma word_loop_spec rest : forall i size text,
  size = i + List.length rest ->
  word_loop new rest i size text
  = Ok (text +:+ String.concat " " (map (segment_text new) rest)).
Proof.
  induction rest as [|w rest IH]; intros i size text Hsize.
  - simpl. rewrite sapp_nil_r. reflexivity.
  - cbn [word_loop]. rewrite token_loop_spec. simpl.
    destruct rest as [|w' rest].
    + simpl in Hsize. replace (i =? size - 1) with true by (symmetry; apply Nat.eqb_eq; lia).
      reflexivity.
    + replace (i =? size - 1) with false
        by (symmetry; apply Nat.eqb_neq; simpl in Hsize; lia).
      rewrite IH by (simpl in *; lia).
      unfold push_back. rewrite !sapp_assoc. reflexivity.
Qed.

(** [decode] returns the segment texts joined by single spaces. *)
Lemma decode_spec morse :
  decode new morse = Ok (String.concat " " (map (segment_text new) (segments morse))).
Proof.
  unfold decode.
  destruct (split_loop_spec (S (String.length morse)) "" morse [])
    as (prev' & ws & wlast & Hw & Hs & Hr); [lia|].
  rewrite sapp_nil_l in Hw, Hs. change (String.length "") with 0 in Hw.
  rewrite Hw. cbv beta iota delta [mbind outcome_mbind outcome_bind].
  rewrite Hs. rewrite app_nil_l, Hr.
  rewrite word_loop_spec by reflexivity. reflexivity.
Qed.

(** ** Stream extraction: [String.words] *)

Lemma rev_app_app s : forall acc x,
  String.rev_app (String.rev_app s acc) x = String.rev_app acc (s +:+ x).
Proof.
  induction s as [|c s IH]; intros acc x; [reflexivity|].
  cbn [String.rev_app]. rewrite IH. reflexivity.
Qed.

Lemma rev_app_nil acc : forall x, String.rev_app acc x = String.rev_app acc "" +:+ x.
Proof.
  induction acc as [|c acc IH]; intros x; [reflexivity|].
  cbn [String.rev_app]. rewrite (IH (String c x)), (IH (String c "")).
  rewrite sapp_assoc. reflexivity.
Qed.

Lemma rev_rev_app s acc : String.rev (String.rev_app s acc) = String.rev acc +:+ s.
Proof.
  unfold String.rev. rewrite rev_app_app, sapp_nil_r. apply rev_app_nil.
Qed.

Lemma words_go_app a : forall cur sp b,
  Ascii.is_space sp = true ->
  String.words_go cur (a +:+ String sp b) = String.words_go cur a ++ String.words b.
Proof.
  induction a as [|c a IH]; intros cur sp b Hsp.
  - rewrite sapp_nil_l. cbn [String.words_go]. rewrite Hsp. reflexivity.
  - rewrite sapp_cons. cbn [String.words_go].
    destruct (Ascii.is_space c).
    + rewrite IH by assumption. rewrite app_assoc. reflexivity.
    + apply IH. assumption.
Qed.

Lemma words_go_token t : forall acc,
  no_spaceb t = true ->
  String.words_go (Some acc) t = [String.rev acc +:+ t].
Proof.
  induction t as [|c t IH]; intros acc Ht.
  - simpl. rewrite sapp_nil_r. reflexivity.
  - cbn [no_spaceb] in Ht. apply andb_true_iff in Ht as [Hc Ht].
    cbn [String.words_go]. destruct (Ascii.is_space c); [discriminate|].
    simpl. rewrite IH by assumption.
    change (String c acc) with (String.rev_app (String c "") acc).
    rewrite rev_rev_app. rewrite sapp_assoc. reflexivity.
Qed.

Lemma words_token t : no_spaceb t = true -> empty t = false -> String.words t = [t].
Proof.
  intros Ht Hne. destruct t as [|c t]; [discriminate|].
  cbn [no_spaceb] in Ht. apply andb_true_iff in Ht as [Hc Ht].
  unfold String.words. cbn [String.words_go].
  destruct (Ascii.is_space c); [discriminate|]. simpl.
  rewrite words_go_token by assumption. reflexivity.
Qed.

Lemma words_app a sp b :
  Ascii.is_space sp = true -> String.words (a +:+ String sp b) = String.words a ++ String.words b.
Proof. apply words_go_app. Qed.

Lemma tokens_text_app this l1 l2 :
  tokens_text this (l1 ++ l2) = tokens_text this l1 +:+ tokens_text this l2.
Proof.
  induction l1 as [|x l1 IH]; [reflexivity|].
  simpl. rewrite IH, sapp_assoc. reflexivity.
Qed.

Lemma segment_text_app this a sp b :
  Ascii.is_space sp = true ->
  segment_text this (a +:+ String sp b) = segment_text this a +:+ segment_text this b.
Proof.
  intros Hsp. unfold segment_text. rewrite words_app by assumption. apply tokens_text_app.
Qed.

(** ** Scanning for the word gap *)

Lemma no_spaceb_head c t : no_spaceb (String c t) = true -> (c =? " ")%char = false.
Proof.
  cbn [no_spaceb]. intros H. apply andb_true_iff in H as [H _].
  destruct (c =? " ")%char eqn:E; [|reflexivity].
  apply Ascii.eqb_eq in E. subst. discriminate.
Qed.

Lemma prefix_cons c1 s1 c2 s2 :
  String.prefix (String c1 s1) (String c2 s2) = (c1 =? c2)%char && String.prefix s1 s2.
Proof.
  cbn [String.prefix]. destruct (ascii_dec c1 c2) as [->|Hne].
  - rewrite Ascii.eqb_refl. reflexivity.
  - apply Ascii.eqb_neq in Hne. rewrite Hne. reflexivity.
Qed.

Lemma prefix3_head c z : (c =? " ")%char = false -> String.prefix "   " (String c z) = false.
Proof. intros H. rewrite prefix_cons, Ascii.eqb_sym, H. reflexivity. Qed.

Lemma split3_token t : forall cur z,
  no_spaceb t = true -> split3 cur (t +:+ z) = split3 (cur +:+ t) z.
Proof.
  induction t as [|c t IH]; intros cur z Ht.
  - rewrite sapp_nil_r. reflexivity.
  - pose proof (no_spaceb_head _ _ Ht) as Hc.
    cbn [no_spaceb] in Ht. apply andb_true_iff in Ht as [_ Ht].
    rewrite sapp_cons. cbn [split3]. rewrite prefix3_head by assumption.
    rewrite IH by assumption. unfold push_back. rewrite sapp_assoc. reflexivity.
Qed.

Lemma split3_letter_gap cur c z :
  (c =? " ")%char = false ->
  split3 cur (String " " (String c z)) = split3 (push_back cur " ") (String c z).
Proof.
  intros Hc. cbn [split3].
  rewrite (prefix_cons " " "  " " "), (prefix_cons " " " " c), (Ascii.eqb_sym " " c), Hc.
  rewrite andb_false_r. reflexivity.
Qed.

Lemma split3_word_gap cur z : split3 cur ("   " +:+ z) = cur :: split3 "" z.
Proof.
  change ("   " +:+ z) with (String " " (String " " (String " " z))).
  cbn [split3]. rewrite !prefix_cons, !Ascii.eqb_refl.
  destruct z; reflexivity.
Qed.

Lemma split3_nonempty cur s : split3 cur s <> [].
Proof.
  revert cur. induction s as [|c s IH]; intros cur; [discriminate|].
  cbn [split3]. destruct (String.prefix _ _); [|apply IH].
  destruct s as [|? [|? ?]]; discriminate.
Qed.

Lemma concat_cons sep x l :
  l <> [] -> String.concat sep (x :: l) = x +:+ sep +:+ String.concat sep l.
Proof. destruct l; [congruence|reflexivity]. Qed.

(** ** Round trip through the text codec *)

Lemma supported_cons c text :
  supported (String c text) -> in_alphabet (toupper c) = true /\ supported text.
Proof.
  intros H. split; [apply H; left; reflexivity|].
  intros c' Hc'. apply H. right. exact Hc'.
Qed.

Lemma supported_lookup c :
  in_alphabet c = true -> exists p, charToMorse new !! c = Some p.
Proof.
  intros H. pose proof (count_alphabet c) as Hc. rewrite H in Hc. unfold count in Hc.
  destruct (charToMorse new !! c) as [p|]; [eauto|discriminate].
Qed.

Lemma segment_text_pattern c p :
  charToMorse new !! c = Some p -> (c =? " ")%char = false ->
  segment_text new p = String c "".
Proof.
  intros Hp Hc. destruct (pattern_facts _ _ Hp Hc) as (Hne & Hns & Hback).
  unfold segment_text. rewrite words_token by assumption.
  simpl. unfold token_text. rewrite Hback. reflexivity.
Qed.

Lemma roundtrip_tail text : forall sep cur,
  supported text -> (sep = false -> cur = "") ->
  exists m, encode_tail new text sep = Ok m
            /\ String.concat " " (map (segment_text new) (split3 cur m))
               = segment_text new cur +:+ uppercase text.
Proof.
  induction text as [|c0 text IH]; intros sep cur Hsup Hcur.
  - exists "". split; [reflexivity|]. simpl. rewrite sapp_nil_r. reflexivity.
  - apply supported_cons in Hsup as [Hc0 Hsup].
    cbn [encode_tail uppercase]. destruct (toupper c0 =? " ")%char eqn:Hsp.
    + destruct (IH false "" Hsup) as (m & Hm & Hjoin); [reflexivity|].
      rewrite Hm. exists ("   " +:+ m). split; [reflexivity|].
      rewrite split3_word_gap. cbn [map].
      rewrite concat_cons
        by (intros E; apply map_eq_nil in E; exact (split3_nonempty _ _ E)).
      rewrite Hjoin. apply Ascii.eqb_eq in Hsp. rewrite Hsp. reflexivity.
    + destruct (supported_lookup _ Hc0) as [p Hp]. rewrite Hp.
      destruct (pattern_facts _ _ Hp Hsp) as (Hne & Hns & Hback).
      destruct sep.
      * destruct (IH true (push_back cur " " +:+ p) Hsup) as (m & Hm & Hjoin);
          [discriminate|].
        rewrite Hm. exists (" " +:+ p +:+ m). split; [reflexivity|].
        destruct p as [|c1 p']; [discriminate|].
        change (" " +:+ String c1 p' +:+ m) with (String " " (String c1 (p' +:+ m))).
        rewrite split3_letter_gap by (eapply no_spaceb_head; eassumption).
        change (String c1 (p' +:+ m)) with (String c1 p' +:+ m).
        rewrite split3_token by assumption. rewrite Hjoin.
        unfold push_back. rewrite sapp_assoc.
        change (" " +:+ String c1 p') with (String " " (String c1 p')).
        rewrite segment_text_app by reflexivity.
        rewrite (segment_text_pattern _ _ Hp Hsp). rewrite sapp_assoc. reflexivity.
      * rewrite (Hcur eq_refl).
        destruct (IH true p Hsup) as (m & Hm & Hjoin); [discriminate|].
        rewrite Hm. exists (p +:+ m). split; [reflexivity|].
        rewrite split3_token by assumption. rewrite sapp_nil_l, Hjoin.
        rewrite (segment_text_pattern _ _ Hp Hsp). reflexivity.
Qed.

(** C1 (as amended): for every text over the alphabet (lower-case letters
    included), [encode] succeeds and decoding its result gives the
    upper-cased text itself, every literal space kept. *)
Theorem decode_encode_uppercase text :
  supported text ->
  exists morse, encode new text = Ok morse /\ decode new morse = Ok (uppercase text).
Proof.
  intros Hsup. destruct (roundtrip_tail text false "" Hsup) as (m & Hm & Hjoin); [reflexivity|].
  exists m. rewrite encode_tail_spec, decode_spec. split; [exact Hm|].
  unfold segments. rewrite Hjoin. reflexivity.
Qed.

Lemma decode_encode_uppercase_witness :
  exists morse, encode new "Sos, 2  go?" = Ok morse /\ decode new morse = Ok "SOS, 2  GO?".
Proof.
  apply (decode_encode_uppercase "Sos, 2  go?").
  intros c Hc. simpl in Hc.
  repeat (destruct Hc as [<-|Hc]; [vm_compute; reflexivity|]). destruct Hc.
Defined.

(** C1 as stated fails: two literal spaces between words come back as two
    spaces, not one. *)
Lemma decode_encode_collapse_counterexample :
  supported "A  B"
  /\ (encode new "A  B" ≫= decode new) = Ok "A  B"
  /\ uppercase (collapse_internal_literal_whitespace "A  B") = "A B"
  /\ (encode new "A  B" ≫= decode new)
     <> Ok (uppercase (collapse_internal_literal_whitespace "A  B")).
Proof.
  split; [|split; [|split]].
  - intros c Hc. simpl in Hc.
    repeat (destruct Hc as [<-|Hc]; [vm_compute; reflexivity|]). destruct Hc.
  - vm_compute. reflexivity.
  - vm_compute. reflexivity.
  - vm_compute. discriminate.
Qed.

(** ** Failure of [encode] *)

Lemma lookup_alphabet c :
  charToMorse new !! c = None <-> in_alphabet c = false.
Proof.
  pose proof (count_alphabet c) as H. unfold count in H.
  destruct (charToMorse new !! c), (in_alphabet c); split; intros; congruence.
Qed.

Lemma space_in_alphabet c : (c =? " ")%char = true -> in_alphabet c = true.
Proof. intros H. apply Ascii.eqb_eq in H. subst. reflexivity. Qed.

Lemma supported_or_not text : supported text \/ has_unsupported text.
Proof.
  induction text as [|c text [IH|(c' & Hin & Hc')]].
  - left. intros c [].
  - destruct (in_alphabet (toupper c)) eqn:Hc.
    + left. intros c' [<-|Hin]; [exact Hc|apply IH, Hin].
    + right. exists c. split; [left; reflexivity|exact Hc].
  - right. exists c'. split; [right; exact Hin|exact Hc'].
Qed.

Lemma supported_not_unsupported text : supported text -> has_unsupported text -> False.
Proof. intros Hs (c & Hin & Hc). rewrite (Hs c Hin) in Hc. discriminate. Qed.

Lemma encode_tail_throw text : forall sep,
  has_unsupported text ->
  exists c, in_alphabet c = false /\ encode_tail new text sep = Throw (cannot_encode c).
Proof.
  induction text as [|c0 text IH]; intros sep (c & Hin & Hc).
  - destruct Hin.
  - cbn [encode_tail]. destruct (toupper c0 =? " ")%char eqn:Hsp.
    + destruct Hin as [<-|Hin].
      { rewrite (space_in_alphabet _ Hsp) in Hc. discriminate. }
      destruct (IH false) as (c' & Hc' & Ht); [exists c; auto|].
      rewrite Ht. exists c'. auto.
    + destruct (charToMorse new !! toupper c0) as [p|] eqn:Hp.
      * destruct Hin as [<-|Hin].
        { apply lookup_alphabet in Hc. congruence. }
        destruct (IH true) as (c' & Hc' & Ht); [exists c; auto|].
        rewrite Ht. exists c'. auto.
      * exists (toupper c0). split; [apply lookup_alphabet, Hp|reflexivity].
Qed.

(** C3: [encode] throws the unsupported-character exception exactly when
    some character of the text, once upper-cased, is outside the alphabet;
    it returns a Morse string exactly when there is none; and these are its
    only two outcomes: the exception holds a message about the offending
    character and nothing of the output built so far. *)
Theorem encode_unsupported_character text :
  (has_unsupported text <-> exists e, UnsupportedCharacter e /\ encode new text = Throw e)
  /\ (supported text <-> exists morse, encode new text = Ok morse)
  /\ ((exists morse, encode new text = Ok morse)
      \/ (exists e, UnsupportedCharacter e /\ encode new text = Throw e)).
Proof.
  rewrite encode_tail_spec.
  assert (Hbad : has_unsupported text ->
                 exists e, UnsupportedCharacter e /\ encode_tail new text false = Throw e).
  { intros H. destruct (encode_tail_throw text false H) as (c & Hc & Ht).
    exists (cannot_encode c). split; [exists c; auto|exact Ht]. }
  assert (Hgood : supported text -> exists morse, encode_tail new text false = Ok morse).
  { intros H. destruct (roundtrip_tail text false "" H) as (m & Hm & _); eauto. }
  split; [|split].
  - split; [exact Hbad|]. intros (e & _ & He).
    destruct (supported_or_not text) as [Hs|Hn]; [|exact Hn].
    destruct (Hgood Hs) as (m & Hm). congruence.
  - split; [exact Hgood|]. intros (m & Hm).
    destruct (supported_or_not text) as [Hs|Hn]; [exact Hs|].
    destruct (Hbad Hn) as (e & _ & He). congruence.
  - destruct (supported_or_not text) as [Hs|Hn]; [left; auto|right; auto].
Qed.

Example encode_bang :
  encode new "Hi!" = Throw (MorseException "Character '!' cannot be encoded in Morse.").
Proof. vm_compute. reflexivity. Qed.

(** ** [decode] never fails and drops unknown tokens *)

Lemma concat_head c t ts : exists z, String.concat " " (String c t :: ts) = String c z.
Proof. destruct ts; [exists t|exists (t +:+ " " +:+ String.concat " " (s :: ts))]; reflexivity. Qed.

Lemma split3_tokens tokens : forall cur,
  Forall is_token tokens ->
  split3 cur (String.concat " " tokens) = [cur +:+ String.concat " " tokens].
Proof.
  induction tokens as [|t ts IH]; intros cur Htok.
  - cbn [String.concat split3]. rewrite sapp_nil_r. reflexivity.
  - apply Forall_cons in Htok as [[Hne Hns] Hts].
    destruct ts as [|t2 ts].
    + cbn [String.concat]. rewrite <- (sapp_nil_r t) at 1.
      rewrite split3_token by assumption. reflexivity.
    + rewrite concat_cons by discriminate. rewrite split3_token by assumption.
      pose proof Hts as Hts'. apply Forall_cons in Hts' as [[Hne2 Hns2] _].
      destruct t2 as [|c t2]; [discriminate|].
      destruct (concat_head c t2 ts) as [z Hz].
      change (" " +:+ String.concat " " (String c t2 :: ts))
        with (String " " (String.concat " " (String c t2 :: ts))).
      rewrite Hz, split3_letter_gap by (eapply no_spaceb_head; eassumption).
      rewrite <- Hz, IH by assumption.
      unfold push_back. rewrite !sapp_assoc. reflexivity.
Qed.

Lemma words_empty : String.words "" = [].
Proof. reflexivity. Qed.

Lemma words_tokens tokens :
  Forall is_token tokens -> String.words (String.concat " " tokens) = tokens.
Proof.
  induction tokens as [|t ts IH]; intros Htok; [reflexivity|].
  apply Forall_cons in Htok as [[Hne Hns] Hts].
  destruct ts as [|t2 ts].
  - cbn [String.concat]. apply words_token; assumption.
  - rewrite concat_cons by discriminate.
    change (" " +:+ String.concat " " (t2 :: ts))
      with (String " " (String.concat " " (t2 :: ts))).
    rewrite words_app by reflexivity. rewrite words_token, IH by assumption. reflexivity.
Qed.

Lemma tokens_text_omap this tokens :
  tokens_text this tokens
  = string_of_list_ascii (omap (fun token => morseToChar this !! token) tokens).
Proof.
  induction tokens as [|t ts IH]; [reflexivity|].
  cbn [tokens_text foldr omap list_omap]. fold (tokens_text this ts). rewrite IH.
  unfold token_text. destruct (morseToChar this !! t); reflexivity.
Qed.

(** C4: [decode] returns a text for every input string; and on tokens
    separated by single spaces it returns exactly the characters of the
    tokens found in the table, in order, the others being dropped. *)
Theorem decode_never_fails :
  (forall morse, exists text, decode new morse = Ok text)
  /\ (forall tokens,
        Forall is_token tokens ->
        decode new (String.concat " " tokens)
        = Ok (string_of_list_ascii (omap (fun token => morseToChar new !! token) tokens))).
Proof.
  split.
  - intros morse. rewrite decode_spec. eauto.
  - intros tokens Htok. rewrite decode_spec. unfold segments.
    rewrite split3_tokens by assumption. rewrite sapp_nil_l.
    cbn [map String.concat]. unfold segment_text.
    rewrite words_tokens by assumption. rewrite tokens_text_omap. reflexivity.
Qed.

Example decode_junk : decode new "xyz .- #! -... ..--" = Ok "AB".
Proof. vm_compute. reflexivity. Qed.

(** ** The join of the decoded segments *)

Lemma list_ascii_app s t :
  list_ascii_of_string (s +:+ t) = list_ascii_of_string s ++ list_ascii_of_string t.
Proof. induction s as [|c s IH]; [reflexivity|]. rewrite sapp_cons. simpl. rewrite IH. reflexivity. Qed.

Lemma last_char_app s t :
  last_char (s +:+ t) = match last_char t with Some c => Some c | None => last_char s end.
Proof.
  induction s as [|c s IH].
  - rewrite sapp_nil_l. destruct (last_char t); reflexivity.
  - rewrite sapp_cons. cbn [last_char]. rewrite IH.
    destruct (last_char t); reflexivity.
Qed.

Lemma last_char_in s c : last_char s = Some c -> In c (list_ascii_of_string s).
Proof.
  induction s as [|c0 s IH]; [discriminate|].
  cbn [last_char]. destruct (last_char s) as [c'|].
  - intros [= ->]. right. apply IH. reflexivity.
  - intros [= ->]. left. reflexivity.
Qed.

Lemma last_char_none s : last_char s = None -> s = "".
Proof. destruct s as [|c s]; [reflexivity|]. cbn [last_char]. destruct (last_char s); discriminate. Qed.

Lemma no_spaceb_rev_app s : forall acc,
  no_spaceb (String.rev_app s acc) = no_spaceb s && no_spaceb acc.
Proof.
  induction s as [|c s IH]; intros acc; [reflexivity|].
  cbn [String.rev_app no_spaceb]. rewrite IH. cbn [no_spaceb].
  destruct (Ascii.is_space c), (no_spaceb s), (no_spaceb acc); reflexivity.
Qed.

Lemma words_go_no_space s : forall cur,
  (forall acc, cur = Some acc -> no_spaceb acc = true) ->
  Forall (fun t => no_spaceb t = true) (String.words_go cur s).
Proof.
  induction s as [|c s IH]; intros cur Hcur.
  - cbn [String.words_go]. destruct cur as [acc|]; [|constructor].
    repeat constructor. unfold String.rev. rewrite no_spaceb_rev_app, (Hcur acc eq_refl).
    reflexivity.
  - cbn [String.words_go]. destruct (Ascii.is_space c) eqn:Hc.
    + apply Forall_app. split; [|apply IH; discriminate].
      destruct cur as [acc|]; [|constructor].
      repeat constructor. unfold String.rev. rewrite no_spaceb_rev_app, (Hcur acc eq_refl).
      reflexivity.
    + apply IH. intros acc [= <-]. destruct cur as [acc|]; cbn [from_option no_spaceb].
      * rewrite Hc, (Hcur acc eq_refl). reflexivity.
      * rewrite Hc. reflexivity.
Qed.

Lemma words_no_space w : Forall (fun t => no_spaceb t = true) (String.words w).
Proof. apply words_go_no_space. discriminate. Qed.

Lemma token_char_not_space token c :
  morseToChar new !! token = Some c -> no_spaceb token = true -> c <> " "%char.
Proof.
  intros H Hns. apply morseToChar_elements in H. unfold mappings in H.
  cbn [In] in H.
  repeat (destruct H as [H|H]; [injection H as <- <-; first [discriminate Hns | discriminate]|]).
  destruct H.
Qed.

Lemma tokens_text_no_space tokens :
  Forall (fun t => no_spaceb t = true) tokens -> ~ has_space (tokens_text new tokens).
Proof.
  induction tokens as [|t ts IH]; intros Htok; [intros []|].
  apply Forall_cons in Htok as [Ht Hts].
  cbn [tokens_text foldr]. fold (tokens_text new ts).
  unfold has_space. rewrite list_ascii_app. intros Hin. apply in_app_or in Hin as [Hin|Hin].
  - unfold token_text in Hin. destruct (morseToChar new !! t) as [c|] eqn:Hc; [|destruct Hin].
    destruct Hin as [Hin|[]]. exact (token_char_not_space _ _ Hc Ht Hin).
  - exact (IH Hts Hin).
Qed.

Lemma segment_text_no_space w : ~ has_space (segment_text new w).
Proof. apply tokens_text_no_space, words_no_space. Qed.

Section join_facts.
Variable texts : list string.
Hypothesis texts_no_space : Forall (fun w => ~ has_space w) texts.

Lemma first_char_no_space w : ~ has_space w -> first_char w <> Some " "%char.
Proof. destruct w as [|c w]; [discriminate|]. intros H [= ->]. apply H. left. reflexivity. Qed.

Lemma join_first :
  first_char (String.concat " " texts) = Some " "%char
  <-> 2 <= List.length texts /\ hd "" texts = "".
Proof.
  destruct texts_no_space as [|x rest Hx Hrest]; [split; [discriminate|simpl; lia]|].
  destruct rest as [|y rest].
  - cbn [String.concat]. split; [|simpl; lia].
    intros H. destruct (first_char_no_space _ Hx H).
  - rewrite concat_cons by discriminate. cbn [hd]. destruct x as [|c x].
    + split; [simpl; intros _; split; [lia|reflexivity]|reflexivity].
    + split; [|intros [_ [=]]].
      intros H. destruct (first_char_no_space _ Hx H).
Qed.

Lemma join_last :
  last_char (String.concat " " texts) = Some " "%char
  <-> 2 <= List.length texts /\ List.last texts "" = "".
Proof.
  induction texts_no_space as [|x rest Hx Hrest IH]; [split; [discriminate|simpl; lia]|].
  specialize (IH Hrest). destruct rest as [|y rest].
  - cbn [String.concat]. split; [|simpl; lia].
    intros H. apply last_char_in in H. destruct (Hx H).
  - rewrite concat_cons by discriminate. rewrite !last_char_app.
    change (List.last (x :: y :: rest) "") with (List.last (y :: rest) "").
    destruct (last_char (String.concat " " (y :: rest))) as [c|] eqn:Hc.
    + cbv beta iota. rewrite IH. split; [intros [_ H]; split; [simpl; lia|exact H]|].
      intros [_ H]. split; [|exact H].
      destruct rest as [|z rest]; [|simpl; lia].
      cbn [List.last] in H. subst y. discriminate Hc.
    + apply last_char_none in Hc. cbn [last_char].
      split; [intros _; split; [simpl; lia|]|reflexivity].
      destruct rest as [|z rest]; [exact Hc|].
      rewrite concat_cons in Hc by discriminate. destruct y; discriminate Hc.
Qed.
End join_facts.

(** C8 (as amended): [decode] returns the texts of the word segments joined
    with exactly one space between consecutive segments, and nothing before
    the first or after the last; a segment text holds no space of its own.
    A segment that is empty or holds only unknown tokens has the empty
    text and keeps its place in the join: the output begins (ends) with a
    space exactly when there are at least two segments and the first
    (last) has the empty text. *)
Theorem decode_joins_segments (morse : string) :
  exists out,
    decode new morse = Ok out
    /\ out = String.concat " " (map (segment_text new) (segments morse))
    /\ Forall (fun w => ~ has_space w) (map (segment_text new) (segments morse))
    /\ (first_char out = Some " "%char
        <-> 2 <= List.length (segments morse)
            /\ segment_text new (hd "" (segments morse)) = "")
    /\ (last_char out = Some " "%char
        <-> 2 <= List.length (segments morse)
            /\ segment_text new (List.last (segments morse) "") = "").
Proof.
  assert (Hns : Forall (fun w => ~ has_space w) (map (segment_text new) (segments morse))).
  { apply Forall_map, Forall_forall. intros w _. apply segment_text_no_space. }
  eexists. split; [apply decode_spec|]. split; [reflexivity|]. split; [exact Hns|].
  split.
  - rewrite (join_first _ Hns), length_map.
    destruct (segments morse); reflexivity.
  - rewrite (join_last _ Hns), length_map.
    replace (List.last (map (segment_text new) (segments morse)) "")
      with (segment_text new (List.last (segments morse) "")); [reflexivity|].
    unfold segments. generalize (split3_nonempty "" morse).
    induction (split3 "" morse) as [|w [|w' l] IH]; intros Hne; [congruence|reflexivity|].
    change (List.last (w :: w' :: l) "") with (List.last (w' :: l) "").
    rewrite IH by discriminate. reflexivity.
Qed.

(** C8 as stated fails: an empty first segment, or one holding only an
    unknown token, leaves a leading space; an empty last one a trailing
    space. *)
Lemma decode_leading_space_counterexample :
  decode new "   .-" = Ok " A"
  /\ decode new "xyz   .-" = Ok " A"
  /\ decode new ".-   " = Ok "A ".
Proof. repeat split; vm_compute; reflexivity. Qed.

(** ** Runs of spaces in an encoded string *)

Lemma runs_go_token t : forall run z,
  no_spaceb t = true -> empty t = false ->
  runs_go run (t +:+ z) = emit_run run ++ runs_go 0 z.
Proof.
  induction t as [|c t IH]; intros run z Hns Hne; [discriminate|].
  pose proof (no_spaceb_head _ _ Hns) as Hc.
  cbn [no_spaceb] in Hns. apply andb_true_iff in Hns as [_ Hns].
  rewrite sapp_cons. cbn [runs_go]. rewrite Hc. f_equal.
  destruct t as [|c' t]; [reflexivity|].
  rewrite IH by (assumption || reflexivity). reflexivity.
Qed.

Lemma emit_run_gap run : run mod 3 = 0 -> Forall gap_run (emit_run run).
Proof.
  intros Hrun. destruct run as [|r]; [constructor|].
  constructor; [|constructor]. right. split; [lia|exact Hrun].
Qed.

Lemma encode_tail_runs text : forall sep run m,
  encode_tail new text sep = Ok m ->
  run mod 3 = 0 -> (sep = true -> run = 0) ->
  Forall gap_run (runs_go run m).
Proof.
  induction text as [|c0 text IH]; intros sep run m Hm Hrun Hsep.
  - injection Hm as <-. cbn [runs_go]. apply emit_run_gap, Hrun.
  - cbn [encode_tail] in Hm. destruct (toupper c0 =? " ")%char eqn:Hsp.
    + destruct (encode_tail new text false) as [m'| | |] eqn:Hm'; try discriminate.
      injection Hm as <-.
      change ("   " +:+ m') with (String " " (String " " (String " " m'))).
      cbn [runs_go]. rewrite Ascii.eqb_refl.
      apply (IH false _ _ Hm'); [|discriminate].
      replace (S (S (S run))) with (run + 1 * 3) by lia.
      rewrite Nat.Div0.mod_add. exact Hrun.
    + destruct (charToMorse new !! toupper c0) as [p|] eqn:Hp; [|discriminate].
      destruct (pattern_facts _ _ Hp Hsp) as (Hne & Hns & _).
      destruct (encode_tail new text true) as [m'| | |] eqn:Hm'; try discriminate.
      injection Hm as <-.
      assert (Htail : Forall gap_run (runs_go 0 m'))
        by (apply (IH true _ _ Hm'); reflexivity).
      destruct sep.
      * rewrite (Hsep eq_refl).
        change (" " +:+ p +:+ m') with (String " " (p +:+ m')).
        cbn [runs_go]. rewrite Ascii.eqb_refl.
        rewrite runs_go_token by assumption.
        constructor; [left; reflexivity|exact Htail].
      * rewrite sapp_nil_l, runs_go_token by assumption.
        apply Forall_app. split; [|exact Htail]. apply emit_run_gap, Hrun.
Qed.

(** * Rendering: what the loops of [generateSamples] compute *)

Section render.
Variable T : SampleType.
Variable sin : float -> float.

Lemma addSine_app samples d f sr :
  addSine T sin samples d f sr = samples ++ addSine T sin [] d f sr.
Proof. reflexivity. Qed.

Lemma addSilence_app samples d sr : addSilence samples d sr = samples ++ addSilence [] d sr.
Proof. reflexivity. Qed.

Lemma get_skip done s : get (String.length done) (done +:+ s) = get 0 s.
Proof. induction done as [|c done IH]; [reflexivity|]. rewrite sapp_cons. exact IH. Qed.

Lemma at_index_skip done c z : at_index (done +:+ String c z) (String.length done) = c.
Proof. unfold at_index. rewrite get_skip. reflexivity. Qed.

Lemma slength_spaces j : String.length (spaces j) = j.
Proof. induction j as [|j IH]; [reflexivity|]. cbn [spaces String.length]. rewrite IH. reflexivity. Qed.

Lemma render_go_spaces j : forall run z, render_go T sin run (spaces j +:+ z) = render_go T sin (run + j) z.
Proof.
  induction j as [|j IH]; intros run z.
  - rewrite Nat.add_0_r. reflexivity.
  - cbn [spaces]. rewrite sapp_cons. cbn [render_go]. rewrite Ascii.eqb_refl, IH.
    f_equal. lia.
Qed.

Lemma runs_go_spaces j : forall run z, runs_go run (spaces j +:+ z) = runs_go (run + j) z.
Proof.
  induction j as [|j IH]; intros run z.
  - rewrite Nat.add_0_r. reflexivity.
  - cbn [spaces]. rewrite sapp_cons. cbn [runs_go]. rewrite Ascii.eqb_refl, IH.
    f_equal. lia.
Qed.

Lemma render_go_flush run z :
  first_char z <> Some " "%char -> render_go T sin run z = gap_samples run ++ render_go T sin 0 z.
Proof.
  destruct z as [|c z]; intros Hz.
  - cbn [render_go]. rewrite app_nil_r. reflexivity.
  - cbn [render_go]. destruct (c =? " ")%char eqn:Hc.
    + apply Ascii.eqb_eq in Hc. subst. destruct Hz. reflexivity.
    + reflexivity.
Qed.

Lemma runs_go_flush run z :
  first_char z <> Some " "%char -> runs_go run z = emit_run run ++ runs_go 0 z.
Proof.
  destruct z as [|c z]; intros Hz.
  - cbn [runs_go]. rewrite app_nil_r. reflexivity.
  - cbn [runs_go]. destruct (c =? " ")%char eqn:Hc.
    + apply Ascii.eqb_eq in Hc. subst. destruct Hz. reflexivity.
    + reflexivity.
Qed.

(** Every string is a run of spaces followed by a string that does not
    start with a space. *)
Lemma leading_spaces s :
  exists j z, s = spaces j +:+ z /\ first_char z <> Some " "%char.
Proof.
  induction s as [|c s (j & z & -> & Hz)].
  - exists 0, "". split; [reflexivity|discriminate].
  - destruct (c =? " ")%char eqn:Hc.
    + apply Ascii.eqb_eq in Hc. subst. exists (S j), z. split; [reflexivity|exact Hz].
    + exists 0, (String c (spaces j +:+ z)). split; [reflexivity|].
      intros [= ->]. discriminate.
Qed.

Lemma spaces_loop j : forall fuel done z k,
  first_char z <> Some " "%char -> j <= fuel ->
  while fuel (spaces_cond (done +:+ spaces j +:+ z)) spaces_body (String.length done, k)
  = Ok (String.length done + j, k + j).
Proof.
  induction j as [|j IH]; intros fuel done z k Hz Hfuel.
  - rewrite while_done; [rewrite !Nat.add_0_r; reflexivity|].
    unfold spaces_cond. cbn [fst spaces]. rewrite sapp_nil_l.
    destruct z as [|c z].
    + rewrite sapp_nil_r, Nat.ltb_irrefl. reflexivity.
    + rewrite at_index_skip. destruct (c =? " ")%char eqn:Hc; [|apply andb_false_r].
      apply Ascii.eqb_eq in Hc. subst. destruct Hz. reflexivity.
  - destruct fuel as [|fuel]; [lia|].
    rewrite while_step.
    + change (spaces_body (String.length done, k)) with (Ok (S (String.length done), S k)).
      cbn [mbind outcome_mbind outcome_bind].
      specialize (IH fuel (done +:+ " ") z (S k) Hz ltac:(lia)).
      rewrite sapp_assoc in IH. change (" " +:+ spaces j +:+ z) with (spaces (S j) +:+ z) in IH.
      rewrite slength_app in IH. cbn [String.length] in IH.
      replace (S (String.length done)) with (String.length done + 1) by lia.
      rewrite IH. f_equal. f_equal; lia.
    + unfold spaces_cond. cbn [fst spaces]. rewrite sapp_cons, at_index_skip.
      rewrite slength_app. cbn [String.length].
      rewrite Ascii.eqb_refl, andb_true_r. apply Nat.ltb_lt. lia.
Qed.

Lemma generate_loop fuel : forall done rest samples counts,
  String.length rest <= fuel ->
  while fuel (gen_cond (done +:+ rest)) (gen_body T sin (done +:+ rest))
        (String.length done, samples, counts)
  = Ok (String.length (done +:+ rest), samples ++ render_go T sin 0 rest, counts ++ runs_go 0 rest).
Proof.
  induction fuel as [fuel IH] using lt_wf_ind. intros done rest samples counts Hfuel.
  destruct rest as [|c rest].
  - rewrite while_done; [rewrite sapp_nil_r, !app_nil_r; reflexivity|].
    unfold gen_cond. cbn [fst]. rewrite sapp_nil_r. apply Nat.ltb_irrefl.
  - cbn [String.length] in Hfuel. destruct fuel as [|fuel]; [lia|].
    rewrite while_step
      by (unfold gen_cond; cbn [fst]; rewrite slength_app; cbn [String.length];
          apply Nat.ltb_lt; lia).
    set (loop := while fuel _ _) in *. unfold gen_body. rewrite at_index_skip.
    assert (Hnext : forall samples' counts',
      loop (S (String.length done), samples', counts')
      = Ok (String.length (done +:+ String c rest),
            samples' ++ render_go T sin 0 rest, counts' ++ runs_go 0 rest)).
    { intros samples' counts'. subst loop.
      specialize (IH fuel ltac:(lia) (done +:+ String c "") rest samples' counts' ltac:(lia)).
      rewrite sapp_assoc in IH. change (String c "" +:+ rest) with (String c rest) in IH.
      rewrite slength_app in IH. cbn [String.length] in IH.
      replace (S (String.length done)) with (String.length done + 1) by lia.
      exact IH. }
    destruct ((c =? ".")%char || (c =? "-")%char) eqn:Hsym.
    + cbn [mbind outcome_mbind outcome_bind]. rewrite Hnext.
      assert (Hsp : (c =? " ")%char = false).
      { apply orb_true_iff in Hsym as [H|H]; apply Ascii.eqb_eq in H; subst; reflexivity. }
      cbn [render_go runs_go]. rewrite Hsp. cbn [gap_samples emit_run app].
      unfold symbol_samples.
      apply orb_true_iff in Hsym as [H|H]; apply Ascii.eqb_eq in H; subst c;
        cbn [Ascii.eqb Bool.eqb]; cbv beta iota;
        rewrite addSilence_app, addSine_app, (addSilence_app (addSine _ _ _ _ _ _));
        rewrite <- !app_assoc; reflexivity.
    + destruct (c =? " ")%char eqn:Hsp.
      * apply Ascii.eqb_eq in Hsp. subst c.
        destruct (leading_spaces rest) as (j & z & -> & Hz).
        change (String " " (spaces j +:+ z)) with (spaces (S j) +:+ z).
        rewrite (spaces_loop (S j))
          by (assumption || (rewrite !slength_app, slength_spaces; lia)).
        cbn [mbind outcome_mbind outcome_bind]. cbv beta iota.
        subst loop. specialize (IH fuel ltac:(lia) (done +:+ spaces (S j)) z).
        rewrite sapp_assoc in IH.
        assert (Hlen : String.length (done +:+ spaces (S j)) = String.length done + S j).
        { rewrite slength_app, slength_spaces. reflexivity. }
        rewrite Hlen in IH. rewrite IH.
        2:{ rewrite slength_app, slength_spaces in Hfuel. lia. }
        rewrite (render_go_spaces (S j) 0), (runs_go_spaces (S j) 0). cbn [Nat.add].
        rewrite (render_go_flush (S j)), (runs_go_flush (S j)) by assumption.
        cbn [emit_run]. unfold gap_samples.
        rewrite <- !app_assoc. cbn [app].
        destruct (S j =? 1); [rewrite addSilence_app, <- app_assoc; reflexivity|].
        destruct (3 <=? S j); [rewrite addSilence_app, <- app_assoc; reflexivity|].
        reflexivity.
      * cbn [mbind outcome_mbind outcome_bind]. rewrite Hnext.
        cbn [render_go runs_go]. rewrite Hsp. cbn [gap_samples emit_run app].
        unfold symbol_samples. apply orb_false_iff in Hsym as [H1 H2]. rewrite H1, H2.
        reflexivity.
Qed.

Lemma generate_spec m :
  generate T sin m = Ok (String.length m, render T sin m, space_runs m).
Proof.
  unfold generate. pose proof (generate_loop (String.length m) "" m [] []) as H.
  rewrite sapp_nil_l in H. apply H. lia.
Qed.

Lemma generateSamples_spec m : generateSamples T sin m = Ok (render T sin m).
Proof. unfold generateSamples. rewrite generate_spec. reflexivity. Qed.

Lemma spaceCounts_spec m : spaceCounts T sin m = Ok (space_runs m).
Proof. unfold spaceCounts. rewrite generate_spec. reflexivity. Qed.
End render.

(** ** Gaps in the rendering *)

Example gap_length_values :
  gap_length 1 = 13230%Z /\ gap_length 2 = 0%Z /\ gap_length 3 = 30869%Z
  /\ (0.7 * 44100 <? 30870)%float = true.
Proof. repeat split; vm_compute; reflexivity. Qed.

Section gaps.
Variable T : SampleType.
Variable sin : float -> float.

Lemma gap_length_literal k :
  gap_length k = if k =? 1 then 13230%Z else if 3 <=? k then 30869%Z else 0%Z.
Proof.
  unfold gap_length. destruct (k =? 1); [vm_compute; reflexivity|].
  destruct (3 <=? k); [vm_compute; reflexivity|reflexivity].
Qed.

Lemma gap_samples_length k :
  gap_samples k = replicate (Z.to_nat (gap_length k)) 0%Z.
Proof.
  unfold gap_samples, gap_length, addSilence.
  destruct (k =? 1);
    [apply (f_equal (fun n => replicate (Z.to_nat n) 0%Z)); vm_compute; reflexivity|].
  destruct (3 <=? k); [|reflexivity].
  apply (f_equal (fun n => replicate (Z.to_nat n) 0%Z)). vm_compute. reflexivity.
Qed.

Lemma render_go_app_l pre : forall run z,
  first_char z <> Some " "%char ->
  render_go T sin run (pre +:+ z) = render_go T sin run pre ++ render_go T sin 0 z.
Proof.
  induction pre as [|c pre IH]; intros run z Hz.
  - rewrite sapp_nil_l. cbn [render_go]. apply render_go_flush, Hz.
  - rewrite sapp_cons. cbn [render_go]. destruct (c =? " ")%char.
    + apply IH, Hz.
    + rewrite IH by exact Hz. rewrite <- !app_assoc. reflexivity.
Qed.

Lemma render_go_app_r pre : forall run z,
  pre <> "" -> last_char pre <> Some " "%char ->
  render_go T sin run (pre +:+ z) = render_go T sin run pre ++ render_go T sin 0 z.
Proof.
  induction pre as [|c pre IH]; intros run z Hne Hlast; [congruence|].
  rewrite sapp_cons. cbn [render_go]. destruct pre as [|c' pre].
  - cbn [last_char] in Hlast. destruct (c =? " ")%char eqn:Hc.
    + apply Ascii.eqb_eq in Hc. subst. congruence.
    + rewrite sapp_nil_l. cbn [render_go gap_samples Nat.eqb Nat.leb].
      rewrite !app_nil_r, <- !app_assoc. reflexivity.
  - assert (Hlast' : last_char (String c' pre) <> Some " "%char).
    { intros H. apply Hlast. cbn [last_char] in *.
      destruct (last_char pre); [exact H|]. rewrite H. reflexivity. }
    destruct (c =? " ")%char.
    + apply IH; [discriminate|exact Hlast'].
    + rewrite IH by (discriminate || exact Hlast'). rewrite <- !app_assoc. reflexivity.
Qed.

Lemma render_app pre z :
  last_char pre <> Some " "%char ->
  render T sin (pre +:+ z) = render T sin pre ++ render T sin z.
Proof.
  intros Hlast. destruct pre as [|c pre]; [reflexivity|].
  apply render_go_app_r; [discriminate|exact Hlast].
Qed.

(** A maximal run of [k] spaces in a Morse string (between a part that
    does not end with a space and a part that does not start with one)
    stands for 13230 zero samples when [k = 1], for 30869 zero samples
    when [k >= 3], and for nothing when [k = 2]; a character other than
    ['.'], ['-'] and [' '] stands for nothing. *)
Theorem space_run_rendering (pre post : string) (k : nat) :
  0 < k -> last_char pre <> Some " "%char -> first_char post <> Some " "%char ->
  exists a b,
    generateSamples T sin pre = Ok a /\ generateSamples T sin post = Ok b
    /\ generateSamples T sin (pre +:+ spaces k +:+ post)
       = Ok (a ++ replicate (Z.to_nat (if k =? 1 then 13230 else if 3 <=? k then 30869 else 0))
                            0%Z ++ b)
    /\ forall c, (c =? ".")%char = false -> (c =? "-")%char = false ->
                 (c =? " ")%char = false ->
                 generateSamples T sin (pre +:+ String c post) = Ok (a ++ b).
Proof.
  intros Hk Hpre Hpost. exists (render T sin pre), (render T sin post).
  rewrite !generateSamples_spec. repeat split.
  - rewrite render_app by exact Hpre. unfold render at 2.
    rewrite render_go_spaces, render_go_flush by exact Hpost.
    rewrite gap_samples_length, gap_length_literal. reflexivity.
  - intros c Hdot Hdash Hsp. rewrite generateSamples_spec. unfold render at 1.
    rewrite render_go_app_l by (intros [= ->]; discriminate).
    cbn [render_go]. rewrite Hsp. unfold symbol_samples. rewrite Hdot, Hdash. reflexivity.
Qed.
End gaps.

Lemma space_run_rendering_witness :
  (exists a b,
     generateSamples int8_t sin_poly "." = Ok a /\ generateSamples int8_t sin_poly "-x" = Ok b
     /\ generateSamples int8_t sin_poly ". -x" = Ok (a ++ replicate (Z.to_nat 13230) 0%Z ++ b)
     /\ generateSamples int8_t sin_poly ".  -x" = Ok (a ++ b)
     /\ generateSamples int8_t sin_poly ".   -x" = Ok (a ++ replicate (Z.to_nat 30869) 0%Z ++ b)
     /\ generateSamples int8_t sin_poly ".#-x" = Ok (a ++ b)).
Proof.
  destruct (space_run_rendering int8_t sin_poly "." "-x" 1) as (a & b & Ha & Hb & H1 & Hc);
    [lia|discriminate|discriminate|].
  destruct (space_run_rendering int8_t sin_poly "." "-x" 2) as (a2 & b2 & Ha2 & Hb2 & H2 & _);
    [lia|discriminate|discriminate|].
  destruct (space_run_rendering int8_t sin_poly "." "-x" 3) as (a3 & b3 & Ha3 & Hb3 & H3 & _);
    [lia|discriminate|discriminate|].
  rewrite Ha in Ha2, Ha3. rewrite Hb in Hb2, Hb3.
  injection Ha2 as <-. injection Ha3 as <-. injection Hb2 as <-. injection Hb3 as <-.
  exists a, b. split; [exact Ha|]. split; [exact Hb|]. split; [exact H1|].
  split; [exact H2|]. split; [exact H3|]. apply (Hc "#"%char); reflexivity.
Defined.

(** C5: the word gap is one sample short.  For the Morse string of three
    spaces (what [encode] returns for a text of one space) [generateSamples]
    appends 30869 zero samples, where [floor(0.7 * 44100)] is 30870: the
    binary64 product [0.7 * 44100] is 30869.999999999996 and the conversion
    to [int] truncates it.  The other counts are those of the
    specification: [floor(0.3 * 44100) = 13230] zero samples for one space,
    none for two. *)
Theorem word_gap_one_sample_short (T : SampleType) (sin : float -> float) :
  generateSamples T sin "   " = Ok (replicate (Z.to_nat 30869) 0%Z)
  /\ claimed_gap_length 3 = 30870%Z
  /\ generateSamples T sin " " = Ok (replicate (Z.to_nat (claimed_gap_length 1)) 0%Z)
  /\ generateSamples T sin "  " = Ok [].
Proof.
  rewrite !generateSamples_spec. unfold render.
  split; [|split; [reflexivity|split; [|reflexivity]]].
  - change (render_go T sin 0 "   ") with (gap_samples 3).
    rewrite gap_samples_length, gap_length_literal. reflexivity.
  - change (render_go T sin 0 " ") with (gap_samples 1).
    rewrite gap_samples_length, gap_length_literal. reflexivity.
Qed.

(** C10: in every string [encode] returns, each maximal run of spaces has
    length 1 or a positive multiple of 3, never 2; the renderer's
    [spaceCount] takes exactly these values, so that its branch for a run
    of two spaces is not taken. *)
Theorem encode_space_runs (T : SampleType) (sin : float -> float) (text morse : string) :
  encode new text = Ok morse ->
  Forall gap_run (space_runs morse)
  /\ ~ In 2 (space_runs morse)
  /\ spaceCounts T sin morse = Ok (space_runs morse).
Proof.
  intros Henc. rewrite encode_tail_spec in Henc.
  assert (H : Forall gap_run (space_runs morse))
    by (apply (encode_tail_runs text false 0 morse Henc); [reflexivity|discriminate]).
  split; [exact H|]. split; [|apply spaceCounts_spec].
  intros Hin. rewrite Forall_forall in H. apply list_elem_of_In in Hin.
  destruct (H 2 Hin) as [?|[_ ?]]; discriminate.
Qed.

Lemma encode_space_runs_witness :
  Forall gap_run (space_runs "...   ---      .")
  /\ ~ In 2 (space_runs "...   ---      .")
  /\ spaceCounts int8_t sin_poly "...   ---      ." = Ok (space_runs "...   ---      .").
Proof.
  apply (encode_space_runs int8_t sin_poly "s o  e"). vm_compute. reflexivity.
Defined.

(** * Detection: the state machine of [decodeSamples] *)

(** ** Comparisons of binary64 numbers *)




Lemma Zgeb_false (a b : Z) : (a < b)%Z -> (a >=? b)%Z = false.
Proof. intros H. rewrite Z.geb_leb. apply Z.leb_gt. exact H. Qed.

Lemma Zgeb_true (a b : Z) : (b <= a)%Z -> (a >=? b)%Z = true.
Proof. intros H. rewrite Z.geb_leb. apply Z.leb_le. exact H. Qed.

(** ** One step *)

Section detector.
Variable T : SampleType.
Variable sr : Z.

Lemma step_active_silence m ts ss c i x :
  active T x = true ->
  step T sr (Detector m false ts ss c) i x
  = if (c + 1 >=? debounce_threshold sr)%Z
    then Detector (m +:+ gap_of sr i ss) true (int_of_size_t i) (-1) 0
    else Detector m false ts ss (c + 1).
Proof.
  intros Hx. unfold step, active in *. rewrite Hx.
  cbn [in_tone negb debounce_counter silence_start morse tone_start].
  destruct (c + 1 >=? debounce_threshold sr)%Z; [|reflexivity].
  unfold gap_of. destruct (ss =? -1)%Z; [rewrite sapp_nil_r; reflexivity|].
  destruct (0.79 <=? _)%float; [reflexivity|].
  destruct (0.39 <=? _)%float; [reflexivity|rewrite sapp_nil_r; reflexivity].
Qed.

Lemma step_active_tone m ts ss c i x :
  active T x = true ->
  step T sr (Detector m true ts ss c) i x = Detector m true ts ss 0.
Proof. intros Hx. unfold step, active in *. rewrite Hx. reflexivity. Qed.

Lemma step_quiet_silence m ts ss c i x :
  active T x = false ->
  step T sr (Detector m false ts ss c) i x = Detector m false ts ss 0.
Proof. intros Hx. unfold step, active in *. rewrite Hx. reflexivity. Qed.

Lemma step_quiet_tone m ts ss c i x :
  active T x = false ->
  step T sr (Detector m true ts ss c) i x
  = if (c + 1 >=? debounce_threshold sr)%Z
    then Detector (m +:+ symbol_of sr i ts) false ts (int_of_size_t i) 0
    else Detector m true ts ss (c + 1).
Proof.
  intros Hx. unfold step, active in *. rewrite Hx.
  cbn [in_tone negb debounce_counter silence_start morse tone_start].
  destruct (c + 1 >=? debounce_threshold sr)%Z; reflexivity.
Qed.

Lemma detect_loop_app l1 : forall l2 i st,
  detect_loop T sr (l1 ++ l2) i st
  = detect_loop T sr l2 (i + Z.of_nat (List.length l1)) (detect_loop T sr l1 i st).
Proof.
  induction l1 as [|x l1 IH]; intros l2 i st.
  - cbn [app detect_loop List.length]. rewrite Z.add_0_r. reflexivity.
  - cbn [app detect_loop]. rewrite IH. f_equal. cbn [List.length]. lia.
Qed.

(** After a quiet sample the detector is either in a tone or has its
    counter at zero. *)
Lemma step_quiet_counter st i x :
  active T x = false -> in_tone (step T sr st i x) = false ->
  debounce_counter (step T sr st i x) = 0%Z.
Proof.
  destruct st as [m [] ts ss c]; intros Hx.
  - rewrite step_quiet_tone by exact Hx.
    destruct (c + 1 >=? debounce_threshold sr)%Z; [reflexivity|discriminate].
  - rewrite step_quiet_silence by exact Hx. reflexivity.
Qed.

(** Active samples that do not reach the debounce minimum only count. *)
Lemma active_run_below l : forall m ts ss c i,
  Forall (fun x => active T x = true) l ->
  (c + Z.of_nat (List.length l) < debounce_threshold sr)%Z ->
  detect_loop T sr l i (Detector m false ts ss c)
  = Detector m false ts ss (c + Z.of_nat (List.length l)).
Proof.
  induction l as [|x l IH]; intros m ts ss c i Hact Hlen.
  - cbn [detect_loop List.length]. rewrite Z.add_0_r. reflexivity.
  - apply Forall_cons in Hact as [Hx Hact]. cbn [List.length] in *.
    cbn [detect_loop]. rewrite step_active_silence by exact Hx.
    rewrite Zgeb_false by lia.
    rewrite IH by (assumption || lia). f_equal. lia.
Qed.
End detector.

(** ** Classification of a silence *)



Example silence_thresholds_44100 :
  gap_of 44100 34839 0 = "   " /\ gap_of 44100 34838 0 = " "
  /\ gap_of 44100 17199 0 = " " /\ gap_of 44100 17198 0 = "".
Proof. repeat split; vm_compute; reflexivity. Qed.

(** ** Debounce *)

(** C7: a run of active samples shorter than the debounce minimum
    [trunc (sr * 0.001)], met in the silence state after a quiet sample
    (or at the start), commits no tone and adds no symbol: after each of
    its samples the detector is still in silence with the output unchanged
    and the counter at the number of samples of the run read so far; the
    quiet sample that ends the run puts the counter back to zero. *)
Theorem short_active_run_ignored (T : SampleType) (sr : Z) (pre run : list Z) :
  in_tone (detect_loop T sr pre 0 detector_init) = false ->
  (pre = [] \/ exists pre' x, pre = pre' ++ [x] /\ active T x = false) ->
  Forall (fun x => active T x = true) run ->
  (Z.of_nat (List.length run) < debounce_threshold sr)%Z ->
  (forall j, j <= List.length run ->
     let st := detect_loop T sr (pre ++ take j run) 0 detector_init in
     in_tone st = false
     /\ morse st = morse (detect_loop T sr pre 0 detector_init)
     /\ debounce_counter st = Z.of_nat j)
  /\ (forall x, active T x = false ->
        let st := detect_loop T sr (pre ++ run ++ [x]) 0 detector_init in
        in_tone st = false
        /\ morse st = morse (detect_loop T sr pre 0 detector_init)
        /\ debounce_counter st = 0%Z).
Proof.
  intros Hsil Hpre Hrun Hlen.
  assert (Hc : debounce_counter (detect_loop T sr pre 0 detector_init) = 0%Z).
  { destruct Hpre as [->|(pre' & x & -> & Hx)]; [reflexivity|].
    rewrite detect_loop_app in *. cbn [detect_loop] in *.
    apply step_quiet_counter; assumption. }
  destruct (detect_loop T sr pre 0 detector_init) as [m it ts ss c] eqn:Hst.
  cbn [in_tone debounce_counter morse] in *. subst it c.
  split.
  - intros j Hj. cbv zeta. rewrite detect_loop_app, Hst.
    rewrite active_run_below.
    + rewrite length_take. cbn [in_tone morse debounce_counter].
      repeat split. lia.
    + apply Forall_take, Hrun.
    + rewrite length_take. lia.
  - intros x Hx. cbv zeta. rewrite detect_loop_app, Hst, detect_loop_app.
    rewrite active_run_below by (assumption || lia).
    cbn [detect_loop]. rewrite step_quiet_silence by exact Hx.
    repeat split.
Qed.

Lemma short_active_run_ignored_witness :
  (forall j, j <= List.length (replicate 43 100%Z) ->
     let st := detect_loop int8_t 44100 ([0; 5; 0]%Z ++ take j (replicate 43 100%Z)) 0 detector_init in
     in_tone st = false
     /\ morse st = morse (detect_loop int8_t 44100 [0; 5; 0]%Z 0 detector_init)
     /\ debounce_counter st = Z.of_nat j)
  /\ (forall x, active int8_t x = false ->
        let st := detect_loop int8_t 44100 ([0; 5; 0]%Z ++ replicate 43 100%Z ++ [x]) 0 detector_init in
        in_tone st = false
        /\ morse st = morse (detect_loop int8_t 44100 [0; 5; 0]%Z 0 detector_init)
        /\ debounce_counter st = 0%Z).
Proof.
  apply (short_active_run_ignored int8_t 44100 [0; 5; 0]%Z (replicate 43 100%Z)).
  - vm_compute. reflexivity.
  - right. exists [0; 5]%Z, 0%Z. split; reflexivity.
  - apply Forall_replicate. reflexivity.
  - vm_compute. reflexivity.
Defined.

(** * Round trip through the waveform *)

Lemma debounce_threshold_44100 : debounce_threshold 44100 = 44%Z.
Proof. vm_compute. reflexivity. Qed.

Lemma int_of_size_t_small (i : Z) : (0 <= i < 2 ^ 31)%Z -> int_of_size_t i = i.
Proof.
  intros H. unfold int_of_size_t. rewrite Z.mod_small by lia. lia.
Qed.

Lemma size_t_sub_small (i k : Z) : (0 <= k <= i)%Z -> (i < 2 ^ 64)%Z -> size_t_sub i k = (i - k)%Z.
Proof. intros H1 H2. unfold size_t_sub. apply Z.mod_small. lia. Qed.

Section envelope.
Variable T : SampleType.

Lemma zero_quiet : active T 0 = false.
Proof. destruct T; reflexivity. Qed.

#[local] Abbreviation run l i st := (detect_loop T 44100 l i st).

Lemma quiet_run_silence l : forall m ts ss i,
  Forall (fun x => active T x = false) l ->
  run l i (Detector m false ts ss 0) = Detector m false ts ss 0.
Proof.
  induction l as [|x l IH]; intros m ts ss i Hq; [reflexivity|].
  apply Forall_cons in Hq as [Hx Hq]. cbn [detect_loop].
  rewrite step_quiet_silence by exact Hx. apply IH, Hq.
Qed.

Lemma active_run_commit l : forall m ts ss c i,
  Forall (fun x => active T x = true) l ->
  (0 <= c)%Z -> (c + Z.of_nat (List.length l) = 44)%Z -> l <> [] ->
  run l i (Detector m false ts ss c)
  = Detector (m +:+ gap_of 44100 (i + Z.of_nat (List.length l) - 1) ss) true
             (int_of_size_t (i + Z.of_nat (List.length l) - 1)) (-1) 0.
Proof.
  induction l as [|x l IH]; intros m ts ss c i Hact Hc Hlen Hne; [congruence|].
  apply Forall_cons in Hact as [Hx Hact]. cbn [List.length] in *.
  cbn [detect_loop]. rewrite step_active_silence by exact Hx.
  rewrite debounce_threshold_44100. destruct l as [|y l].
  - cbn [List.length] in *. rewrite Zgeb_true by lia. cbn [detect_loop].
    replace (i + Z.of_nat 1 - 1)%Z with i by lia. reflexivity.
  - rewrite Zgeb_false by (cbn [List.length] in *; lia).
    rewrite IH by (assumption || discriminate || (cbn [List.length] in *; lia)).
    replace (i + 1 + Z.of_nat (List.length (y :: l)) - 1)%Z
      with (i + Z.of_nat (S (List.length (y :: l))) - 1)%Z by lia.
    reflexivity.
Qed.

Lemma sustained_run l : forall m ts ss c c' i,
  sustained T c l = Some c' ->
  run l i (Detector m true ts ss c) = Detector m true ts ss c'.
Proof.
  induction l as [|x l IH]; intros m ts ss c c' i Hs.
  - injection Hs as <-. reflexivity.
  - cbn [sustained] in Hs. cbn [detect_loop]. destruct (active T x) eqn:Hx.
    + rewrite step_active_tone by exact Hx. apply IH, Hs.
    + rewrite step_quiet_tone by exact Hx. rewrite debounce_threshold_44100.
      destruct (c + 1 >=? 44)%Z; [discriminate|]. apply IH, Hs.
Qed.

Lemma quiet_run_release l : forall m ts ss c i,
  Forall (fun x => active T x = false) l ->
  (0 <= c < 44)%Z -> (44 - c <= Z.of_nat (List.length l))%Z ->
  run l i (Detector m true ts ss c)
  = Detector (m +:+ symbol_of 44100 (i + 43 - c) ts) false ts (int_of_size_t (i + 43 - c)) 0.
Proof.
  induction l as [|x l IH]; intros m ts ss c i Hq Hc Hlen; [cbn [List.length] in Hlen; lia|].
  apply Forall_cons in Hq as [Hx Hq]. cbn [List.length] in Hlen.
  cbn [detect_loop]. rewrite step_quiet_tone by exact Hx.
  rewrite debounce_threshold_44100.
  destruct (Z.eq_dec c 43%Z) as [->|Hne].
  - rewrite Zgeb_true by lia. rewrite quiet_run_silence by exact Hq.
    replace (i + 43 - 43)%Z with i by lia. reflexivity.
  - rewrite Zgeb_false by lia. rewrite IH by (assumption || lia).
    replace (i + 1 + 43 - (c + 1))%Z with (i + 43 - c)%Z by lia. reflexivity.
Qed.

(** A clean burst, met in silence, commits a tone at its 45th sample. *)
Lemma burst_attack b m ts ss i :
  clean_burst T b = true ->
  run b i (Detector m false ts ss 0)
  = Detector (m +:+ gap_of 44100 (i + 44) ss) true (int_of_size_t (i + 44)) (-1) 0.
Proof.
  destruct b as [|x0 rest]; [discriminate|]. cbn [clean_burst].
  intros H. apply andb_true_iff in H as [H Hsus].
  apply andb_true_iff in H as [H Hact]. apply andb_true_iff in H as [Hx0 Hlen].
  apply negb_true_iff in Hx0. apply Nat.eqb_eq in Hlen.
  cbn [detect_loop]. rewrite step_quiet_silence by exact Hx0.
  rewrite <- (take_drop 44 rest), detect_loop_app.
  rewrite active_run_commit.
  - rewrite Hlen.
    replace (i + 1 + Z.of_nat 44 - 1)%Z with (i + 44)%Z by lia.
    destruct (sustained T 0 (drop 44 rest)) as [[| |]|] eqn:Hs; try discriminate.
    apply sustained_run, Hs.
  - apply Forall_forall. intros x Hx. apply list_elem_of_In in Hx.
    rewrite forallb_forall in Hact. apply Hact, Hx.
  - lia.
  - rewrite Hlen. lia.
  - intros E. rewrite E in Hlen. discriminate.
Qed.

(** A clean burst followed by [L >= 44] zero samples: one gap (for the
    silence before it) and one symbol. *)
Lemma burst_then_silence b L m ts ss i :
  clean_burst T b = true -> (44 <= L)%Z ->
  run (b ++ replicate (Z.to_nat L) 0%Z) i (Detector m false ts ss 0)
  = Detector (m +:+ gap_of 44100 (i + 44) ss
                +:+ symbol_of 44100 (i + Z.of_nat (List.length b) + 43) (int_of_size_t (i + 44)))
             false (int_of_size_t (i + 44))
             (int_of_size_t (i + Z.of_nat (List.length b) + 43)) 0.
Proof.
  intros Hb HL. rewrite detect_loop_app, burst_attack by exact Hb.
  rewrite quiet_run_release.
  - rewrite sapp_assoc, Z.sub_0_r. reflexivity.
  - apply Forall_replicate, zero_quiet.
  - lia.
  - rewrite length_replicate. lia.
Qed.
End envelope.

(** ** Morse strings whose gaps lie between symbols *)

Lemma proper_first m : proper m -> first_char m <> Some " "%char.
Proof. intros [c Hc|c j m' Hc _ _]; intros [= ->]; discriminate. Qed.

Lemma gap_of_shift (i ss : Z) :
  (0 <= ss <= i)%Z -> (i < 2 ^ 64)%Z -> gap_of 44100 i ss = gap_of 44100 (i - ss) 0.
Proof.
  intros H1 H2. unfold gap_of.
  replace (ss =? -1)%Z with false by (symmetry; apply Z.eqb_neq; lia).
  cbn [Z.eqb]. rewrite !size_t_sub_small by lia. rewrite Z.sub_0_r. reflexivity.
Qed.

Lemma symbol_of_shift (i ts : Z) :
  (0 <= ts <= i)%Z -> (i < 2 ^ 64)%Z -> symbol_of 44100 i ts = symbol_of 44100 (i - ts) 0.
Proof.
  intros H1 H2. unfold symbol_of. rewrite !size_t_sub_small by lia.
  rewrite Z.sub_0_r. reflexivity.
Qed.

Section roundtrip.
Variable T : SampleType.
Variable sin : float -> float.

Hypothesis dot_clean : clean_burst T (dot_burst T sin) = true.
Hypothesis dash_clean : clean_burst T (dash_burst T sin) = true.

Lemma length_sine_burst step n : forall i, List.length (sine_burst T sin step n i) = n.
Proof. induction n as [|n IH]; intros i; [reflexivity|]. cbn [sine_burst List.length]. rewrite IH. reflexivity. Qed.

Lemma symbol_facts c :
  is_symbol c = true ->
  exists b n,
    symbol_samples T sin c = b ++ replicate (Z.to_nat 4410) 0%Z
    /\ clean_burst T b = true
    /\ Z.of_nat (List.length b) = n
    /\ (n = 4410 \/ n = 13230)%Z
    /\ symbol_of 44100 (n - 1) 0 = String c "".
Proof.
  unfold is_symbol, symbol_samples. destruct (c =? ".")%char eqn:Hdot.
  - apply Ascii.eqb_eq in Hdot. subst c. intros _.
    exists (dot_burst T sin), 4410%Z. split; [|split; [exact dot_clean|split; [|split]]].
    + rewrite addSilence_app. f_equal.
    + unfold dot_burst, addSine. rewrite app_nil_l, length_sine_burst.
      vm_compute. reflexivity.
    + left. reflexivity.
    + vm_compute. reflexivity.
  - cbn [orb]. intros Hdash. rewrite Hdash. apply Ascii.eqb_eq in Hdash. subst c.
    exists (dash_burst T sin), 13230%Z. split; [|split; [exact dash_clean|split; [|split]]].
    + rewrite addSilence_app. f_equal.
    + unfold dash_burst, addSine. rewrite app_nil_l, length_sine_burst.
      vm_compute. reflexivity.
    + right. reflexivity.
    + vm_compute. reflexivity.
Qed.

Lemma gap_facts j :
  j = 0 \/ j = 1 \/ j = 3 ->
  exists G, gap_samples j = replicate (Z.to_nat G) 0%Z /\ (0 <= G < 40000)%Z
            /\ gap_of 44100 (4411 + G) 0 = spaces j.
Proof.
  intros [->|[->| ->]]; rewrite gap_samples_length.
  - exists 0%Z. split; [reflexivity|]. split; [lia|]. vm_compute. reflexivity.
  - exists 13230%Z. split; [reflexivity|]. split; [lia|]. vm_compute. reflexivity.
  - exists 30869%Z. split; [reflexivity|]. split; [lia|]. vm_compute. reflexivity.
Qed.

Lemma render_symbol c j z :
  is_symbol c = true -> first_char z <> Some " "%char ->
  render T sin (String c (spaces j +:+ z))
  = symbol_samples T sin c ++ gap_samples j ++ render T sin z.
Proof.
  intros Hc Hz. unfold render. cbn [render_go].
  replace (c =? " ")%char with false.
  2:{ unfold is_symbol in Hc. apply orb_true_iff in Hc as [H|H];
      apply Ascii.eqb_eq in H; subst; reflexivity. }
  rewrite render_go_spaces, render_go_flush by exact Hz. reflexivity.
Qed.

Lemma render_last c :
  is_symbol c = true -> render T sin (String c "") = symbol_samples T sin c.
Proof.
  intros Hc. change (String c "") with (String c (spaces 0 +:+ "")).
  rewrite render_symbol by (exact Hc || discriminate).
  cbn [gap_samples Nat.eqb Nat.leb app]. apply app_nil_r.
Qed.

Lemma symbol_detect c mo ts ss i :
  is_symbol c = true -> (0 <= i)%Z ->
  (i + Z.of_nat (List.length (symbol_samples T sin c)) <= 2 ^ 31)%Z ->
  detect_loop T 44100 (symbol_samples T sin c) i (Detector mo false ts ss 0)
  = Detector (mo +:+ gap_of 44100 (i + 44) ss +:+ String c "") false (i + 44)
             (i + Z.of_nat (List.length (symbol_samples T sin c)) - 4367) 0.
Proof.
  intros Hc Hi Hlen. destruct (symbol_facts c Hc) as (b & n & Heq & Hb & Hn & Hn' & Hsym).
  rewrite Heq in *. rewrite length_app, length_replicate in *.
  rewrite burst_then_silence by (exact Hb || lia).
  rewrite Hn. rewrite !int_of_size_t_small by lia.
  rewrite symbol_of_shift by zlia.
  replace (i + n + 43 - (i + 44))%Z with (n - 1)%Z by lia. rewrite Hsym.
  f_equal. lia.
Qed.

Lemma proper_detect m :
  proper m ->
  forall mo ts ss i,
    (0 <= i)%Z -> (i + Z.of_nat (List.length (render T sin m)) <= 2 ^ 31)%Z ->
    exists ts',
      detect_loop T 44100 (render T sin m) i (Detector mo false ts ss 0)
      = Detector (mo +:+ gap_of 44100 (i + 44) ss +:+ m) false ts'
                 (i + Z.of_nat (List.length (render T sin m)) - 4367) 0.
Proof.
  induction 1 as [c Hc|c j m' Hc Hj Hm' IH]; intros mo ts ss i Hi Hlen.
  - rewrite render_last in * by exact Hc.
    exists (i + 44)%Z. apply symbol_detect; assumption.
  - rewrite render_symbol in * by (exact Hc || apply proper_first, Hm').
    rewrite !length_app in Hlen. rewrite !length_app.
    destruct (gap_facts j Hj) as (G & HG & HGr & Hgap). rewrite HG in *.
    rewrite length_replicate in *.
    assert (Hsl : (8820 <= Z.of_nat (List.length (symbol_samples T sin c)))%Z).
    { destruct (symbol_facts c Hc) as (b & n & Heq & _ & Hn & Hn' & _).
      rewrite Heq, length_app, length_replicate. lia. }
    rewrite detect_loop_app, symbol_detect by (assumption || lia).
    rewrite detect_loop_app, quiet_run_silence by (apply Forall_replicate, zero_quiet).
    rewrite length_replicate.
    edestruct IH as [ts' ->]; [| |exists ts'].
    + lia.
    + lia.
    + match goal with |- context [gap_of 44100 ?a (?b - 4367)%Z] =>
        rewrite (gap_of_shift a (b - 4367)%Z) by zlia;
        replace (a - (b - 4367))%Z with (4411 + G)%Z by lia
      end.
      rewrite Hgap. rewrite !sapp_assoc. f_equal. lia.
Qed.
End roundtrip.

(** ** Well-formed Morse strings *)

Lemma gaps_check m :
  forallb morse_char (list_ascii_of_string m) = true ->
  forallb (fun n => (n =? 1) || (n =? 3)) (space_runs m) = true ->
  single_and_triple_gaps m.
Proof.
  intros H1 H2. split.
  - intros c Hc. rewrite forallb_forall in H1. apply H1, Hc.
  - apply Forall_forall. intros n Hn. apply list_elem_of_In in Hn.
    rewrite forallb_forall in H2. specialize (H2 n Hn).
    apply orb_true_iff in H2 as [H|H]; apply Nat.eqb_eq in H; auto.
Qed.

Lemma last_char_spaces j : last_char (spaces (S j)) = Some " "%char.
Proof. induction j as [|j IH]; [reflexivity|]. cbn [spaces last_char] in *. rewrite IH. reflexivity. Qed.

Lemma well_formed_proper m : well_formed m -> m = "" \/ proper m.
Proof.
  remember (String.length m) as n eqn:Hn. revert m Hn.
  induction n as [n IH] using lt_wf_ind. intros m Hn ((Hchars & Hruns) & Hfirst & Hlast).
  destruct m as [|c m']; [left; reflexivity|right].
  assert (Hc : is_symbol c = true).
  { specialize (Hchars c (or_introl eq_refl)). unfold morse_char in Hchars.
    apply orb_true_iff in Hchars as [H|H]; [exact H|].
    apply Ascii.eqb_eq in H. subst. destruct Hfirst. reflexivity. }
  assert (Hsp : (c =? " ")%char = false).
  { unfold is_symbol in Hc. apply orb_true_iff in Hc as [H|H];
      apply Ascii.eqb_eq in H; subst; reflexivity. }
  destruct (leading_spaces m') as (j & z & -> & Hz).
  unfold space_runs in Hruns. cbn [runs_go] in Hruns. rewrite Hsp in Hruns.
  cbn [emit_run app] in Hruns.
  rewrite (runs_go_spaces j 0), (runs_go_flush j) in Hruns by exact Hz.
  cbn [Nat.add] in Hruns. apply Forall_app in Hruns as [Hj Hruns].
  assert (Hj' : j = 0 \/ j = 1 \/ j = 3).
  { destruct j as [|j]; [left; reflexivity|right].
    cbn [emit_run] in Hj. apply Forall_cons in Hj as [Hj _]. exact Hj. }
  destruct z as [|c' z].
  - rewrite sapp_nil_r in *. destruct j as [|j]; [apply proper_last, Hc|].
    destruct Hlast. cbn [last_char]. rewrite last_char_spaces. reflexivity.
  - apply proper_more; [exact Hc|exact Hj'|].
    destruct (IH (String.length (String c' z))) with (m := String c' z) as [E|Hp];
      [|reflexivity| |discriminate E|exact Hp].
    + subst n. cbn [String.length]. rewrite slength_app. cbn [String.length]. lia.
    + repeat split.
      * intros x Hx. apply Hchars. right. rewrite list_ascii_app. apply in_or_app. right. exact Hx.
      * exact Hruns.
      * exact Hz.
      * intros H. apply Hlast. cbn [last_char]. rewrite last_char_app, H. reflexivity.
Qed.

(** C2 (as amended): for a Morse string over ['.'], ['-'], [' '] whose
    runs of spaces have length 1 or 3 and which neither starts nor ends
    with a space, detection recovers the string from its samples, at
    least when the two tone bursts the renderer produces are clean (as
    those of [sin_poly] are, at 800 Hz and 44100 samples a second) and the
    number of samples fits the [int] indices of the detector. *)
Theorem waveform_roundtrip (T : SampleType) (sin : float -> float) (m : string) :
  clean_burst T (dot_burst T sin) = true ->
  clean_burst T (dash_burst T sin) = true ->
  well_formed m ->
  exists samples,
    generateSamples T sin m = Ok samples
    /\ ((Z.of_nat (List.length samples) <= 2 ^ 31)%Z -> decodeSamples T samples 44100 = m).
Proof.
  intros Hdot Hdash Hwf. exists (render T sin m). split; [apply generateSamples_spec|].
  intros Hlen. unfold decodeSamples, detector_init.
  destruct (well_formed_proper m Hwf) as [->|Hp]; [reflexivity|].
  destruct (proper_detect T sin Hdot Hdash m Hp "" 0%Z (-1)%Z 0%Z) as [ts' ->];
    [lia|rewrite Z.add_0_l; exact Hlen|].
  reflexivity.
Qed.

Lemma waveform_roundtrip_witness :
  exists samples,
    generateSamples int8_t sin_poly "-. .   -" = Ok samples
    /\ decodeSamples int8_t samples 44100 = "-. .   -".
Proof.
  destruct (waveform_roundtrip int8_t sin_poly "-. .   -") as (samples & Hgen & Hdec).
  - vm_compute. reflexivity.
  - vm_compute. reflexivity.
  - split; [apply gaps_check; reflexivity|]. split; discriminate.
  - exists samples. split; [exact Hgen|]. apply Hdec.
    rewrite generateSamples_spec in Hgen. injection Hgen as <-.
    apply Z.leb_le. vm_compute. reflexivity.
Defined.

(** C2 as stated fails: a string that is one space (or starts or ends with
    a gap) satisfies its condition, and the gap is lost.  The first part
    holds whatever the sine is. *)
Lemma waveform_roundtrip_counterexample :
  single_and_triple_gaps " "
  /\ (forall T sin, exists samples,
        generateSamples T sin " " = Ok samples /\ decodeSamples T samples 44100 = "")
  /\ single_and_triple_gaps ".   " /\ single_and_triple_gaps " -"
  /\ ((fun l => decodeSamples int8_t l 44100) <$> generateSamples int8_t sin_poly ".   ") = Ok "."
  /\ ((fun l => decodeSamples int8_t l 44100) <$> generateSamples int8_t sin_poly " -") = Ok "-".
Proof.
  split; [apply gaps_check; reflexivity|]. split.
  - intros T sin. exists (render T sin " "). split; [apply generateSamples_spec|].
    unfold render. cbn [render_go]. rewrite Ascii.eqb_refl. cbn [render_go].
    rewrite gap_samples_length. unfold decodeSamples, detector_init.
    rewrite quiet_run_silence by (apply Forall_replicate, zero_quiet). reflexivity.
  - split; [apply gaps_check; reflexivity|]. split; [apply gaps_check; reflexivity|].
    split; vm_compute; reflexivity.
Qed.

(** * The WAV container *)

Lemma le_value_nonneg s : (0 <= le_value s)%Z.
Proof.
  induction s as [|c s IH]; [reflexivity|]. cbn [le_value].
  pose proof (N2Z.is_nonneg (N_of_ascii c)). lia.
Qed.

Lemma length_le_bytes n : forall z, String.length (le_bytes n z) = n.
Proof. induction n as [|n IH]; intros z; [reflexivity|]. cbn [le_bytes String.length]. rewrite IH. reflexivity. Qed.

Lemma length_substring s : forall a k,
  String.length (substring a k s) = Nat.min k (String.length s - a).
Proof.
  induction s as [|c s IH]; intros a k.
  - destruct a, k; reflexivity.
  - destruct a as [|a].
    + destruct k as [|k]; [reflexivity|]. cbn [substring String.length].
      rewrite IH. rewrite Nat.sub_0_r. reflexivity.
    + cbn [substring String.length]. rewrite IH. reflexivity.
Qed.

Lemma substring_empty s : forall a, substring a 0 s = "".
Proof. induction s as [|c s IH]; intros [|a]; try reflexivity. cbn [substring]. apply IH. Qed.

Lemma overlay_full got image :
  String.length image <= String.length got -> overlay got image = got.
Proof.
  intros H. unfold overlay. replace (String.length image - String.length got) with 0 by lia.
  rewrite substring_empty. apply sapp_nil_r.
Qed.

(** C9: when the file can be opened, [loadWav] throws the
    sample-width exception whenever the bits-per-sample member of the
    header it has read differs from [8 * sizeof(SampleType)]; otherwise
    the vector it hands to [decodeSamples] holds exactly
    [dataSize / sizeof(SampleType)] samples, which are those of the
    payload (the [dataSize] bytes after the 44 bytes of the header) when
    the file holds all of it.  [dataSize] is taken to be a multiple of the
    sample size, as it always is for the 8-bit samples of the program. *)
Theorem loadWav_sample_width
  (T : SampleType) (fs : gmap string string) (indeterminate : WavHeader)
  (filename bytes : string) :
  fs !! filename = Some bytes ->
  let header :=
    header_parse (overlay (substring 0 44 bytes)
                          (header_image (WavHeader_init indeterminate))) in
  let n := (dataSize header / sizeof T)%Z in
  (bitsPerSample header <> (8 * sizeof T)%Z ->
   loadWav_samples T fs indeterminate filename = Throw UnsupportedSampleWidth
   /\ loadWav T fs indeterminate filename = Throw UnsupportedSampleWidth)
  /\ (bitsPerSample header = (8 * sizeof T)%Z ->
      (dataSize header mod sizeof T = 0)%Z ->
      exists samples,
        loadWav_samples T fs indeterminate filename = Ok (samples, sampleRate header)
        /\ loadWav T fs indeterminate filename
           = Ok (decodeSamples T samples (sampleRate header))
        /\ Z.of_nat (List.length samples) = n
        /\ (44 + Z.to_nat (dataSize header) <= String.length bytes ->
            samples = samples_of_buffer T (Z.to_nat n)
                        (substring 44 (Z.to_nat (dataSize header)) bytes))).
Proof.
  intros Hfs header n.
  assert (Hsize : (0 < sizeof T)%Z) by (destruct T; reflexivity).
  assert (Hdata : (0 <= dataSize header)%Z) by apply le_value_nonneg.
  assert (Hn : (0 <= n)%Z) by (apply Z.div_pos; lia).
  unfold loadWav, loadWav_samples. rewrite Hfs.
  cbv beta iota zeta delta [read good pos content]. fold header.
  split.
  - intros Hbits.
    replace (bitsPerSample header =? sizeof T * 8)%Z with false
      by (symmetry; apply Z.eqb_neq; lia).
    split; reflexivity.
  - intros Hbits Hmod. rewrite Hbits, Z.mul_comm, Z.eqb_refl. cbn [negb].
    fold n.
    assert (Hmul : (n * sizeof T = dataSize header)%Z).
    { unfold n. rewrite Z.mul_comm. symmetry. apply Z.div_exact; lia. }
    set (got := if String.length (substring 0 44 bytes) =? 44
                then substring (0 + String.length (substring 0 44 bytes))
                               (Z.to_nat (dataSize header)) bytes
                else "").
    assert (Hgot : String.length got <= Z.to_nat (dataSize header)).
    { unfold got. destruct (_ =? 44); [rewrite length_substring|cbn [String.length]]; lia. }
    destruct (String.length (substring 0 44 bytes) =? 44) eqn:Hhead; fold got.
    + rewrite (proj2 (Z.ltb_ge _ _)) by lia.
      eexists. split; [reflexivity|]. split; [reflexivity|]. split.
      * unfold samples_of_buffer. rewrite length_fmap, length_seq. lia.
      * intros Hlen. f_equal. unfold got. apply Nat.eqb_eq in Hhead. rewrite Hhead.
        apply overlay_full. rewrite length_le_bytes, length_substring. lia.
    + rewrite (proj2 (Z.ltb_ge _ _)) by lia.
      eexists. split; [reflexivity|]. split; [reflexivity|]. split.
      * unfold samples_of_buffer. rewrite length_fmap, length_seq. lia.
      * intros Hlen. apply Nat.eqb_neq in Hhead. rewrite length_substring in Hhead. lia.
Qed.

Lemma loadWav_sample_width_witness :
  (exists samples,
     loadWav_samples int8_t {[ "test.wav" := test_wav ]} test_header "test.wav"
     = Ok (samples, 44100%Z)
     /\ Z.of_nat (List.length samples) = 4%Z
     /\ samples = [1; -1; -128; 127]%Z)
  /\ loadWav_samples int16_t {[ "test.wav" := test_wav ]} test_header "test.wav"
     = Throw UnsupportedSampleWidth.
Proof.
  split.
  - destruct (loadWav_sample_width int8_t {[ "test.wav" := test_wav ]} test_header
                                   "test.wav" test_wav) as [_ H];
      [vm_compute; reflexivity|].
    destruct H as (samples & H1 & _ & H3 & H4); [vm_compute; reflexivity ..|].
    exists samples. split; [exact H1|]. split; [exact H3|].
    rewrite H4; [vm_compute; reflexivity|vm_compute; lia].
  - destruct (loadWav_sample_width int16_t {[ "test.wav" := test_wav ]} test_header
                                   "test.wav" test_wav) as [H _];
      [vm_compute; reflexivity|].
    apply H. vm_compute. discriminate.
Defined.

Example loadWav_examples :
  loadWav_samples int8_t {[ "test.wav" := test_wav ]} test_header "test.wav"
  = Ok ([1; -1; -128; 127]%Z, 44100%Z)
  /\ loadWav_samples int16_t {[ "test.wav" := test_wav ]} test_header "test.wav"
     = Throw UnsupportedSampleWidth
  /\ loadWav_samples int8_t {[ "test.wav" := test_wav ]} test_header "none.wav"
     = Throw (MorseException "Cannot open none.wav").
Proof. repeat split; vm_compute; reflexivity. Qed.

(** * More on the text codec *)

(** ** The two tables *)

Lemma inverse_okb_all c : inverse_okb c = true.
Proof. each_ascii c; vm_compute; reflexivity. Qed.

Lemma pattern_shapeb_all c : pattern_shapeb c = true.
Proof. each_ascii c; vm_compute; reflexivity. Qed.

Lemma mappings_lookup c p :
  In (c, p) mappings -> charToMorse new !! c = Some p /\ morseToChar new !! p = Some c.
Proof.
  unfold mappings. cbn [In]. intros H.
  repeat (destruct H as [H|H]; [injection H as <- <-; split; vm_compute; reflexivity|]).
  destruct H.
Qed.

Lemma pattern_shape c p :
  charToMorse new !! c = Some p ->
  1 <= String.length p <= 6 /\ forall x, In x (list_ascii_of_string p) -> morse_char x = true.
Proof.
  intros Hp. pose proof (pattern_shapeb_all c) as H. unfold pattern_shapeb in H.
  rewrite Hp in H. apply andb_true_iff in H as [H Hall].
  apply andb_true_iff in H as [H1 H2]. apply Nat.leb_le in H1, H2.
  split; [lia|]. intros x Hx. rewrite forallb_forall in Hall. apply Hall, Hx.
Qed.

(** X1: the two tables [initMaps] builds are inverse of each other: a
    character has a pattern exactly when that pattern leads back to the
    character; each holds the 40 entries of [mappings]. *)
Theorem tables_inverse :
  (forall c p, charToMorse new !! c = Some p <-> morseToChar new !! p = Some c)
  /\ size (charToMorse new) = 40 /\ size (morseToChar new) = 40.
Proof.
  split; [|split; vm_compute; reflexivity].
  intros c p. split.
  - intros Hp. pose proof (inverse_okb_all c) as H. unfold inverse_okb in H.
    rewrite Hp in H. destruct (morseToChar new !! p) as [c'|]; [|discriminate].
    apply Ascii.eqb_eq in H. subst. reflexivity.
  - intros Hc. apply morseToChar_elements in Hc. apply mappings_lookup in Hc. tauto.
Qed.

(** ** [encode] and the case of letters *)

Lemma toupper_idem c : toupper (toupper c) = toupper c.
Proof. each_ascii c; vm_compute; reflexivity. Qed.

Lemma toupper_alphabet c : in_alphabet c = true -> toupper c = c.
Proof. each_ascii c; vm_compute; intros H; (reflexivity || discriminate H). Qed.

(** X2: [encode] does not see the case of letters: a text and its
    upper-cased form have the same outcome, the same Morse string or the
    same exception. *)
Theorem encode_case_insensitive (this : MorseConverter.t) (text : string) :
  encode this (uppercase text) = encode this text.
Proof.
  unfold encode. generalize "" false.
  induction text as [|c text IH]; intros morse prev; [reflexivity|].
  cbn [uppercase encode_loop]. rewrite toupper_idem.
  destruct (toupper c =? " ")%char; [apply IH|].
  destruct (count (charToMorse this) (toupper c) =? 0); [reflexivity|].
  destruct (at_ (charToMorse this) (toupper c)); try reflexivity.
  cbn [mbind outcome_mbind outcome_bind]. apply IH.
Qed.

(** ** The character [encode] fails on *)

Lemma not_alphabet_not_space c : in_alphabet c = false -> (c =? " ")%char = false.
Proof.
  intros H. destruct (c =? " ")%char eqn:E; [|reflexivity].
  rewrite (space_in_alphabet _ E) in H. discriminate.
Qed.

Lemma encode_tail_prefix_throw pre c post : forall sep,
  supported pre -> in_alphabet (toupper c) = false ->
  encode_tail new (pre +:+ String c post) sep = Throw (cannot_encode (toupper c)).
Proof.
  induction pre as [|c0 pre IH]; intros sep Hsup Hc.
  - rewrite sapp_nil_l. cbn [encode_tail].
    rewrite (not_alphabet_not_space _ Hc).
    apply lookup_alphabet in Hc. rewrite Hc. reflexivity.
  - apply supported_cons in Hsup as [Hc0 Hsup]. rewrite sapp_cons. cbn [encode_tail].
    destruct (toupper c0 =? " ")%char.
    + rewrite IH by assumption. reflexivity.
    + destruct (supported_lookup _ Hc0) as [p ->]. rewrite IH by assumption. reflexivity.
Qed.

(** X3: when [encode] fails, the exception names the first character of
    the text that is outside the alphabet, in its upper-cased form. *)
Theorem encode_first_unsupported (pre post : string) (c : ascii) :
  supported pre -> in_alphabet (toupper c) = false ->
  encode new (pre +:+ String c post)
  = Throw (MorseException ("Character '" +:+ String (toupper c) "' cannot be encoded in Morse.")).
Proof.
  intros Hsup Hc. rewrite encode_tail_spec, encode_tail_prefix_throw by assumption.
  reflexivity.
Qed.

Lemma encode_first_unsupported_witness :
  encode new ("ab c" +:+ String "!" "d#")
  = Throw (MorseException ("Character '" +:+ String (toupper "!") "' cannot be encoded in Morse.")).
Proof.
  apply (encode_first_unsupported "ab c" "d#" "!").
  - intros c Hc. cbn [list_ascii_of_string In] in Hc.
    repeat (destruct Hc as [<-|Hc]; [vm_compute; reflexivity|]). destruct Hc.
  - vm_compute. reflexivity.
Defined.

(** ** Shape and length of an encoding *)

Lemma encode_tail_shape text : forall sep m,
  encode_tail new text sep = Ok m ->
  (forall x, In x (list_ascii_of_string m) -> morse_char x = true)
  /\ String.length text <= String.length m <= 7 * String.length text.
Proof.
  induction text as [|c0 text IH]; intros sep m Hm.
  - injection Hm as <-. split; [intros x []|cbn; lia].
  - cbn [encode_tail] in Hm. destruct (toupper c0 =? " ")%char.
    + destruct (encode_tail new text false) as [m'| | |] eqn:Hm'; try discriminate.
      injection Hm as <-. destruct (IH _ _ Hm') as [Hch Hlen]. split.
      * intros x Hx. rewrite list_ascii_app in Hx. apply in_app_or in Hx as [Hx|Hx].
        -- cbn in Hx. destruct Hx as [<-|[<-|[<-|[]]]]; reflexivity.
        -- apply Hch, Hx.
      * rewrite slength_app. cbn [String.length]. lia.
    + destruct (charToMorse new !! toupper c0) as [p|] eqn:Hp; [|discriminate].
      destruct (pattern_shape _ _ Hp) as [Hpl Hpc].
      destruct (encode_tail new text true) as [m'| | |] eqn:Hm'; try discriminate.
      injection Hm as <-. destruct (IH _ _ Hm') as [Hch Hlen]. split.
      * intros x Hx. rewrite !list_ascii_app in Hx.
        apply in_app_or in Hx as [Hx|Hx]; [|apply in_app_or in Hx as [Hx|Hx]].
        -- destruct sep; cbn in Hx; [destruct Hx as [<-|[]]; reflexivity|destruct Hx].
        -- apply Hpc, Hx.
        -- apply Hch, Hx.
      * rewrite !slength_app. cbn [String.length].
        destruct sep; cbn [String.length]; lia.
Qed.

(** X4: a string [encode] returns holds only ['.'], ['-'] and [' '], and
    has between one and seven characters for each character of the text. *)
Theorem encode_output_shape (text morse : string) :
  encode new text = Ok morse ->
  (forall x, In x (list_ascii_of_string morse) -> morse_char x = true)
  /\ String.length text <= String.length morse <= 7 * String.length text.
Proof. rewrite encode_tail_spec. apply encode_tail_shape. Qed.

Lemma encode_output_shape_witness :
  (forall x, In x (list_ascii_of_string "...   ---      .") -> morse_char x = true)
  /\ String.length "s o  e" <= String.length "...   ---      ." <= 7 * String.length "s o  e".
Proof. apply (encode_output_shape "s o  e"). vm_compute. reflexivity. Defined.

(** ** [encode] of a concatenation *)

Lemma outcome_fmap_id {A : Type} (f : A -> A) (m : outcome A) :
  (forall a, f a = a) -> f <$> m = m.
Proof. intros H. destruct m; try reflexivity. unfold fmap, outcome_fmap. simpl. rewrite H. reflexivity. Qed.

Lemma encode_tail_sep b :
  encode_tail new b true
  = (fun m => (if starts_letter b then " " else "") +:+ m) <$> encode_tail new b false.
Proof.
  destruct b as [|c b]; [reflexivity|].
  cbn [encode_tail]. unfold starts_letter. cbn [first_char].
  rewrite <- (toupper_space c). destruct (toupper c =? " ")%char.
  - cbn [negb]. rewrite outcome_fmap_compose. apply outcome_fmap_ext. reflexivity.
  - destruct (charToMorse new !! toupper c) as [p|]; [|reflexivity].
    cbn [negb]. rewrite outcome_fmap_compose. apply outcome_fmap_ext. reflexivity.
Qed.

Lemma encode_tail_app a : forall sep b,
  encode_tail new (a +:+ b) sep
  = (ma ← encode_tail new a sep; mb ← encode_tail new b (sep_after a sep); Ok (ma +:+ mb)).
Proof.
  induction a as [|c a IH]; intros sep b.
  - rewrite sapp_nil_l. unfold sep_after. cbn [last_char encode_tail mbind outcome_mbind outcome_bind].
    destruct (encode_tail new b sep); reflexivity.
  - rewrite sapp_cons. cbn [encode_tail].
    assert (Hafter : sep_after (String c a) sep
                     = sep_after a (negb (toupper c =? " ")%char)).
    { unfold sep_after. cbn [last_char]. rewrite toupper_space.
      destruct (last_char a); reflexivity. }
    rewrite Hafter. destruct (toupper c =? " ")%char.
    + rewrite IH. cbn [negb].
      destruct (encode_tail new a false) as [ma| | |]; try reflexivity.
      cbn [fmap outcome_fmap outcome_bind mbind outcome_mbind].
      destruct (encode_tail new b (sep_after a false)); reflexivity.
    + destruct (charToMorse new !! toupper c) as [p|]; [|reflexivity].
      rewrite IH. cbn [negb].
      destruct (encode_tail new a true) as [ma| | |]; try reflexivity.
      cbn [fmap outcome_fmap outcome_bind mbind outcome_mbind].
      destruct (encode_tail new b (sep_after a true)); try reflexivity.
      cbv beta iota delta [fmap outcome_fmap mbind outcome_mbind outcome_bind].
      rewrite !sapp_assoc. reflexivity.
Qed.

(** X5: [encode] of a concatenation is the concatenation of the two
    encodings, with one letter gap between them exactly when the first
    text ends with a character other than a space and the second starts
    with one; an exception of the first part comes before one of the
    second. *)
Theorem encode_app (a b : string) :
  encode new (a +:+ b)
  = (ma ← encode new a; mb ← encode new b;
     Ok (ma +:+ (if letter_joint a b then " " else "") +:+ mb)).
Proof.
  rewrite !encode_tail_spec, encode_tail_app.
  destruct (encode_tail new a false) as [ma| | |]; try reflexivity.
  cbn [mbind outcome_mbind outcome_bind].
  unfold letter_joint, ends_letter, sep_after.
  destruct (last_char a) as [x|]; [|destruct (encode_tail new b false); reflexivity].
  destruct (x =? " ")%char; cbn [negb andb];
    [destruct (encode_tail new b false); reflexivity|].
  rewrite encode_tail_sep.
  destruct (encode_tail new b false); reflexivity.
Qed.

Example encode_app_examples :
  encode new ("so" +:+ "s") = Ok "... --- ..."
  /\ encode new ("so " +:+ "s") = Ok "... ---   ..."
  /\ encode new ("so" +:+ " s") = Ok "... ---   ..."
  /\ encode new ("so!" +:+ "#") = Throw (cannot_encode "!").
Proof. repeat split; vm_compute; reflexivity. Qed.

(** ** [encode] is one-to-one up to case *)

Lemma encode_ok_supported text sep m : encode_tail new text sep = Ok m -> supported text.
Proof.
  intros Hm. destruct (supported_or_not text) as [Hs|Hn]; [exact Hs|].
  destruct (encode_tail_throw text sep Hn) as (c & _ & Ht). congruence.
Qed.

Lemma encode_decode text :
  supported text ->
  exists m, encode_tail new text false = Ok m /\ decode new m = Ok (uppercase text).
Proof.
  intros Hsup. destruct (roundtrip_tail text false "" Hsup) as (m & Hm & Hjoin); [reflexivity|].
  exists m. split; [exact Hm|]. rewrite decode_spec. unfold segments. rewrite Hjoin. reflexivity.
Qed.

(** X6: two texts with the same encoding are equal up to the case of
    their letters. *)
Theorem encode_injective (a b morse : string) :
  encode new a = Ok morse -> encode new b = Ok morse -> uppercase a = uppercase b.
Proof.
  rewrite !encode_tail_spec. intros Ha Hb.
  destruct (encode_decode a (encode_ok_supported _ _ _ Ha)) as (ma & Hma & Hda).
  destruct (encode_decode b (encode_ok_supported _ _ _ Hb)) as (mb & Hmb & Hdb).
  rewrite Ha in Hma. rewrite Hb in Hmb. injection Hma as <-. injection Hmb as <-.
  rewrite Hda in Hdb. injection Hdb as H. exact H.
Qed.

Lemma encode_injective_witness : uppercase "So s" = uppercase "sO S".
Proof.
  apply (encode_injective "So s" "sO S" "... ---   ..."); vm_compute; reflexivity.
Defined.

(** ** The text [decode] returns *)

Lemma in_concat_space l : forall x,
  In x (list_ascii_of_string (String.concat " " l)) ->
  x = " "%char \/ exists w, In w l /\ In x (list_ascii_of_string w).
Proof.
  induction l as [|w l IH]; intros x Hx; [destruct Hx|].
  destruct l as [|w' l].
  - cbn [String.concat] in Hx. right. exists w. split; [left; reflexivity|exact Hx].
  - rewrite concat_cons in Hx by discriminate. rewrite !list_ascii_app in Hx.
    apply in_app_or in Hx as [Hx|Hx]; [|apply in_app_or in Hx as [Hx|Hx]].
    + right. exists w. split; [left; reflexivity|exact Hx].
    + left. destruct Hx as [<-|[]]. reflexivity.
    + destruct (IH x Hx) as [->|(w0 & Hw0 & Hx0)]; [left; reflexivity|].
      right. exists w0. split; [right; exact Hw0|exact Hx0].
Qed.

Lemma morseToChar_alphabet token c : morseToChar new !! token = Some c -> in_alphabet c = true.
Proof.
  intros H. apply morseToChar_elements, mappings_lookup in H as [H _].
  apply not_false_iff_true. intros Hn. apply lookup_alphabet in Hn. congruence.
Qed.

Lemma tokens_text_alphabet tokens x :
  In x (list_ascii_of_string (tokens_text new tokens)) -> in_alphabet x = true.
Proof.
  induction tokens as [|t ts IH]; [intros []|].
  cbn [tokens_text foldr]. fold (tokens_text new ts). rewrite list_ascii_app.
  intros Hx. apply in_app_or in Hx as [Hx|Hx]; [|apply IH, Hx].
  unfold token_text in Hx. destruct (morseToChar new !! t) as [c|] eqn:Hc; [|destruct Hx].
  destruct Hx as [<-|[]]. exact (morseToChar_alphabet _ _ Hc).
Qed.

Lemma decode_alphabet morse x :
  In x (list_ascii_of_string (String.concat " " (map (segment_text new) (segments morse)))) ->
  in_alphabet x = true.
Proof.
  intros Hx. apply in_concat_space in Hx as [->|(w & Hw & Hx)]; [reflexivity|].
  apply in_map_iff in Hw as (seg & <- & _). exact (tokens_text_alphabet _ _ Hx).
Qed.

Lemma uppercase_alphabet text :
  (forall x, In x (list_ascii_of_string text) -> in_alphabet x = true) -> uppercase text = text.
Proof.
  induction text as [|c text IH]; intros H; [reflexivity|].
  cbn [uppercase]. rewrite toupper_alphabet by (apply H; left; reflexivity).
  rewrite IH; [reflexivity|]. intros x Hx. apply H. right. exact Hx.
Qed.

Lemma alphabet_supported text :
  (forall x, In x (list_ascii_of_string text) -> in_alphabet x = true) -> supported text.
Proof.
  intros H c Hc. rewrite toupper_alphabet by (apply H, Hc). apply H, Hc.
Qed.

(** X7: the text [decode] returns holds only characters of the alphabet
    (upper-case letters, digits, ['.'], [','], ['?'], space), whatever
    the input. *)
Theorem decode_output_alphabet (morse : string) :
  exists text,
    decode new morse = Ok text
    /\ (forall x, In x (list_ascii_of_string text) -> in_alphabet x = true)
    /\ uppercase text = text.
Proof.
  eexists. split; [apply decode_spec|].
  assert (H := decode_alphabet morse). split; [exact H|apply uppercase_alphabet, H].
Qed.

(** X8: [encode] succeeds on every text [decode] returns, and decoding
    that encoding gives the same text again. *)
Theorem decode_encode_decode (morse : string) :
  exists text again,
    decode new morse = Ok text /\ encode new text = Ok again /\ decode new again = Ok text.
Proof.
  assert (H := decode_alphabet morse).
  destruct (encode_decode _ (alphabet_supported _ H)) as (again & Henc & Hdec).
  eexists. exists again. split; [apply decode_spec|].
  rewrite encode_tail_spec. split; [exact Henc|].
  rewrite Hdec, uppercase_alphabet by exact H. reflexivity.
Qed.

Example decode_encode_decode_example :
  decode new " zz ..   	.... ..-- .-" = Ok "I HA"
  /\ encode new "I HA" = Ok "..   .... .-" /\ decode new "..   .... .-" = Ok "I HA".
Proof. repeat split; vm_compute; reflexivity. Qed.

(** ** [decode] of two parts joined by a word gap *)

Lemma last_char_cons c s : s <> "" -> last_char (String c s) = last_char s.
Proof.
  intros Hne. cbn [last_char]. destruct (last_char s) eqn:E; [reflexivity|].
  apply last_char_none in E. congruence.
Qed.

Lemma split3_two_spaces cur c z :
  (c =? " ")%char = false ->
  split3 cur (String " " (String " " (String c z)))
  = split3 (push_back (push_back cur " ") " ") (String c z).
Proof.
  intros Hc. cbn [split3].
  rewrite (prefix_cons " " "  " " "), (prefix_cons " " " " " "), (prefix_cons " " "" c),
    (Ascii.eqb_sym " " c), Hc.
  cbn [andb Ascii.eqb Bool.eqb]. cbv beta iota.
  rewrite (prefix_cons " " "  " " "), (prefix_cons " " " " c), (Ascii.eqb_sym " " c), Hc.
  rewrite andb_false_r. reflexivity.
Qed.

Lemma split3_app_gap n : forall a cur b,
  String.length a <= n -> last_char a <> Some " "%char ->
  split3 cur (a +:+ "   " +:+ b) = split3 cur a ++ split3 "" b.
Proof.
  induction n as [n IH] using lt_wf_ind. intros a cur b Hn Hlast.
  destruct a as [|c a].
  - rewrite sapp_nil_l, split3_word_gap. reflexivity.
  - destruct (c =? " ")%char eqn:Hc.
    + apply Ascii.eqb_eq in Hc. subst c.
      destruct a as [|c1 a]; [destruct Hlast; reflexivity|].
      rewrite last_char_cons in Hlast by discriminate.
      destruct (c1 =? " ")%char eqn:Hc1.
      * apply Ascii.eqb_eq in Hc1. subst c1.
        destruct a as [|c2 a]; [destruct Hlast; reflexivity|].
        rewrite last_char_cons in Hlast by discriminate.
        destruct (c2 =? " ")%char eqn:Hc2.
        -- apply Ascii.eqb_eq in Hc2. subst c2.
           change (String " " (String " " (String " " a)) +:+ "   " +:+ b)
             with ("   " +:+ (a +:+ "   " +:+ b)).
           change (String " " (String " " (String " " a))) with ("   " +:+ a).
           rewrite !split3_word_gap. cbn [app]. f_equal.
           apply (IH (String.length a)); [cbn [String.length] in Hn; lia|lia|].
           destruct a as [|c3 a]; [discriminate|].
           rewrite last_char_cons in Hlast by discriminate. exact Hlast.
        -- rewrite !sapp_cons. rewrite !(split3_two_spaces _ c2) by exact Hc2.
           rewrite <- sapp_cons.
           apply (IH (String.length (String c2 a))); [cbn [String.length] in *; lia|lia|exact Hlast].
      * rewrite !sapp_cons. rewrite !(split3_letter_gap _ c1) by exact Hc1.
        rewrite <- sapp_cons.
        apply (IH (String.length (String c1 a))); [cbn [String.length] in *; lia|lia|exact Hlast].
    + rewrite sapp_cons. cbn [split3]. rewrite !prefix3_head by exact Hc.
      apply (IH (String.length a)); [cbn [String.length] in Hn; lia|lia|].
      destruct a as [|c1 a]; [discriminate|].
      rewrite last_char_cons in Hlast by discriminate. exact Hlast.
Qed.

Lemma concat_app_space l1 l2 :
  l1 <> [] -> l2 <> [] ->
  String.concat " " (l1 ++ l2) = String.concat " " l1 +:+ " " +:+ String.concat " " l2.
Proof.
  intros H1 H2. induction l1 as [|x l1 IH]; [congruence|].
  destruct l1 as [|y l1].
  - cbn [app]. rewrite concat_cons by exact H2. reflexivity.
  - cbn [app] in *. rewrite (concat_cons " " x (y :: l1 ++ l2)) by discriminate.
    rewrite IH by discriminate.
    rewrite (concat_cons " " x (y :: l1)) by discriminate.
    rewrite !sapp_assoc. reflexivity.
Qed.

(** X9: [decode] of two Morse strings joined by a word gap is the two
    decoded texts joined by one space, when the first string does not end
    with a space. *)
Theorem decode_app_gap (a b : string) :
  last_char a <> Some " "%char ->
  exists ta tb,
    decode new a = Ok ta /\ decode new b = Ok tb
    /\ decode new (a +:+ "   " +:+ b) = Ok (ta +:+ " " +:+ tb).
Proof.
  intros Hlast. rewrite !decode_spec. eexists. eexists.
  split; [reflexivity|]. split; [reflexivity|].
  unfold segments. rewrite (split3_app_gap (String.length a)) by (lia || exact Hlast).
  rewrite map_app, concat_app_space; [reflexivity| |];
    intros E; apply map_eq_nil in E; exact (split3_nonempty _ _ E).
Qed.

Lemma decode_app_gap_witness :
  exists ta tb,
    decode new "... --- ..." = Ok ta /\ decode new "  .   ..." = Ok tb
    /\ decode new ("... --- ..." +:+ "   " +:+ "  .   ...") = Ok (ta +:+ " " +:+ tb).
Proof. apply (decode_app_gap "... --- ..." "  .   ..."). discriminate. Defined.

Example decode_app_gap_trailing_space :
  decode new (". " +:+ "   " +:+ "  .") = Ok "E  E"
  /\ decode new ". " = Ok "E" /\ decode new "  ." = Ok "E".
Proof. repeat split; vm_compute; reflexivity. Qed.

(** * More on rendering *)

Section render_more.
Variable T : SampleType.
Variable sin : float -> float.

Lemma gap_length_nonneg k : (0 <= gap_length k)%Z.
Proof.
  unfold gap_length. destruct (k =? 1); [vm_compute; discriminate|].
  destruct (3 <=? k); [vm_compute; discriminate|lia].
Qed.

Lemma length_gap_samples k : Z.of_nat (List.length (gap_samples k)) = gap_length k.
Proof.
  rewrite gap_samples_length, length_replicate. apply Z2Nat.id, gap_length_nonneg.
Qed.

Lemma length_symbol_samples c :
  Z.of_nat (List.length (symbol_samples T sin c))
  = if (c =? ".")%char then 8820%Z else if (c =? "-")%char then 17640%Z else 0%Z.
Proof.
  unfold symbol_samples, addSilence, addSine.
  destruct (c =? ".")%char; [|destruct (c =? "-")%char; [|reflexivity]];
    rewrite app_nil_l, length_app, length_replicate, length_sine_burst;
    vm_compute; reflexivity.
Qed.

Lemma sum_emit_run run : foldr Z.add 0%Z (gap_length <$> emit_run run) = gap_length run.
Proof. destruct run; [reflexivity|]. cbn [emit_run fmap list_fmap foldr]. lia. Qed.

Lemma length_render_go s : forall run,
  Z.of_nat (List.length (render_go T sin run s))
  = (8820 * Z.of_nat (count_char "." s) + 17640 * Z.of_nat (count_char "-" s)
     + foldr Z.add 0 (gap_length <$> runs_go run s))%Z.
Proof.
  induction s as [|c s IH]; intros run.
  - cbn [render_go runs_go count_char]. rewrite length_gap_samples, sum_emit_run. lia.
  - cbn [render_go runs_go count_char]. destruct (c =? " ")%char eqn:Hsp.
    + apply Ascii.eqb_eq in Hsp. subst c. cbn [Ascii.eqb Bool.eqb]. cbv beta iota.
      rewrite IH. lia.
    + rewrite !length_app, !Nat2Z.inj_add, length_gap_samples, length_symbol_samples, IH.
      rewrite fmap_app, foldr_app.
      assert (Hsum : forall l a, foldr Z.add a l = (foldr Z.add 0 l + a)%Z).
      { induction l as [|x l IHl]; intros a; cbn [foldr]; [lia|]. rewrite IHl. lia. }
      rewrite (Hsum (gap_length <$> emit_run run)), sum_emit_run.
      destruct (c =? ".")%char eqn:Hdot.
      * apply Ascii.eqb_eq in Hdot. subst c. cbn [Ascii.eqb Bool.eqb]. cbv beta iota. lia.
      * destruct (c =? "-")%char eqn:Hdash; lia.
Qed.

(** X10: [generateSamples] returns for every string, and the number of
    samples is 8820 for each dot, 17640 for each dash, plus the gap of
    each run of spaces (13230 for one space, 30869 for three or more);
    other characters add nothing. *)
Theorem generateSamples_length (m : string) :
  exists samples,
    generateSamples T sin m = Ok samples
    /\ Z.of_nat (List.length samples) = samples_count m.
Proof.
  exists (render T sin m). split; [apply generateSamples_spec|].
  unfold render, samples_count. rewrite length_render_go. f_equal.
Qed.

(** X11: the samples of a concatenation are the samples of the two parts
    one after the other, when the cut does not fall inside a run of
    spaces. *)
Theorem generateSamples_app (a b : string) :
  last_char a <> Some " "%char \/ first_char b <> Some " "%char ->
  exists sa sb,
    generateSamples T sin a = Ok sa /\ generateSamples T sin b = Ok sb
    /\ generateSamples T sin (a +:+ b) = Ok (sa ++ sb).
Proof.
  intros H. exists (render T sin a), (render T sin b). rewrite !generateSamples_spec.
  split; [reflexivity|]. split; [reflexivity|]. f_equal.
  destruct H as [Ha|Hb]; [apply render_app, Ha|apply render_go_app_l, Hb].
Qed.
End render_more.

Example samples_count_values :
  samples_count "" = 0%Z /\ samples_count "." = 8820%Z /\ samples_count "-" = 17640%Z
  /\ samples_count ". -" = 39690%Z /\ samples_count ".  -" = 26460%Z
  /\ samples_count ".   -" = 57329%Z /\ samples_count ".      -" = 57329%Z.
Proof. repeat split; vm_compute; reflexivity. Qed.

Lemma generateSamples_app_witness :
  exists sa sb,
    generateSamples int8_t sin_poly ". " = Ok sa /\ generateSamples int8_t sin_poly "-" = Ok sb
    /\ generateSamples int8_t sin_poly (". " +:+ "-") = Ok (sa ++ sb).
Proof. apply (generateSamples_app int8_t sin_poly ". " "-"). right. discriminate. Defined.

(** Cutting a run of spaces changes the samples: two single spaces are
    two letter gaps, a run of two spaces is nothing. *)
Example generateSamples_app_inside_a_run :
  forall T sin,
    generateSamples T sin (" " +:+ " ") = Ok []
    /\ exists s, generateSamples T sin " " = Ok s /\ Z.of_nat (List.length s) = 13230%Z.
Proof.
  intros T sin. rewrite !generateSamples_spec. split; [reflexivity|].
  eexists. split; [reflexivity|]. unfold render. rewrite length_render_go. reflexivity.
Qed.

(** * More on detection *)

Lemma first_char_app s z :
  first_char (s +:+ z) = match first_char s with Some c => Some c | None => first_char z end.
Proof. destruct s; reflexivity. Qed.

Lemma runs_go_snoc m c : forall run,
  (c =? " ")%char = false -> runs_go run (m +:+ String c "") = runs_go run m.
Proof.
  induction m as [|x m IH]; intros run Hc.
  - rewrite sapp_nil_l. cbn [runs_go]. rewrite Hc. apply app_nil_r.
  - rewrite sapp_cons. cbn [runs_go]. destruct (x =? " ")%char; rewrite IH by exact Hc; reflexivity.
Qed.

Lemma runs_go_app_r pre : forall run z,
  pre <> "" -> last_char pre <> Some " "%char ->
  runs_go run (pre +:+ z) = runs_go run pre ++ runs_go 0 z.
Proof.
  induction pre as [|c pre IH]; intros run z Hne Hlast; [congruence|].
  rewrite sapp_cons. cbn [runs_go]. destruct pre as [|c' pre].
  - cbn [last_char] in Hlast. destruct (c =? " ")%char eqn:Hc.
    + apply Ascii.eqb_eq in Hc. subst. congruence.
    + rewrite sapp_nil_l. cbn [runs_go emit_run]. rewrite app_nil_r. reflexivity.
  - rewrite last_char_cons in Hlast by discriminate.
    destruct (c =? " ")%char.
    + apply IH; [discriminate|exact Hlast].
    + rewrite IH by (discriminate || exact Hlast). rewrite <- !app_assoc. reflexivity.
Qed.

Lemma space_runs_app m z :
  last_char m <> Some " "%char -> space_runs (m +:+ z) = space_runs m ++ space_runs z.
Proof.
  intros Hlast. destruct m as [|c m]; [reflexivity|].
  apply runs_go_app_r; [discriminate|exact Hlast].
Qed.

Section detector_more.
Variable T : SampleType.
Variable sr : Z.

Lemma gap_of_cases i ss :
  gap_of sr i ss = "" \/ (ss <> (-1)%Z /\ (gap_of sr i ss = " " \/ gap_of sr i ss = "   ")).
Proof.
  unfold gap_of. destruct (Z.eqb_spec ss (-1)) as [->|Hss]; [left; reflexivity|].
  destruct (0.79 <=? _)%float; [right; auto|].
  destruct (0.39 <=? _)%float; [right; auto|left; reflexivity].
Qed.

Lemma symbol_of_cases i ts : symbol_of sr i ts = "." \/ symbol_of sr i ts = "-".
Proof. unfold symbol_of. destruct (_ <? _)%float; auto. Qed.

(** ** Streams that give nothing *)

Lemma quiet_run_any l : forall m ts ss i,
  Forall (fun x => active T x = false) l ->
  detect_loop T sr l i (Detector m false ts ss 0) = Detector m false ts ss 0.
Proof.
  induction l as [|x l IH]; intros m ts ss i Hq; [reflexivity|].
  apply Forall_cons in Hq as [Hx Hq]. cbn [detect_loop].
  rewrite step_quiet_silence by exact Hx. apply IH, Hq.
Qed.

Lemma step_nothing_yet st i x :
  nothing_yet sr i st -> (i + 1 < 2 * debounce_threshold sr)%Z ->
  nothing_yet sr (i + 1) (step T sr st i x).
Proof.
  destruct st as [m it ts ss c]. unfold nothing_yet.
  cbn [morse silence_start debounce_counter in_tone].
  intros (-> & -> & Hc & Hsil & Htone) Hi.
  destruct (active T x) eqn:Hx; destruct it.
  - rewrite step_active_tone by exact Hx. cbn [morse silence_start debounce_counter in_tone].
    specialize (Htone eq_refl). repeat split; try lia; try discriminate.
  - rewrite step_active_silence by exact Hx. specialize (Hsil eq_refl).
    destruct (Z.geb_spec (c + 1) (debounce_threshold sr));
      cbn [morse silence_start debounce_counter in_tone gap_of Z.eqb];
      repeat split; try lia; try discriminate.
  - rewrite step_quiet_tone by exact Hx. specialize (Htone eq_refl).
    destruct (Z.geb_spec (c + 1) (debounce_threshold sr)); [lia|].
    cbn [morse silence_start debounce_counter in_tone].
    repeat split; try lia; try discriminate.
  - rewrite step_quiet_silence by exact Hx.
    cbn [morse silence_start debounce_counter in_tone]. specialize (Hsil eq_refl).
    repeat split; try lia; try discriminate.
Qed.

Lemma detect_nothing_yet l : forall i st,
  nothing_yet sr i st -> (i + Z.of_nat (List.length l) < 2 * debounce_threshold sr)%Z ->
  morse (detect_loop T sr l i st) = "".
Proof.
  induction l as [|x l IH]; intros i st Hst Hlen; [exact (proj1 Hst)|].
  cbn [detect_loop]. cbn [List.length] in Hlen. apply IH; [|lia].
  apply step_nothing_yet; [exact Hst|lia].
Qed.

(** X12: [decodeSamples] returns the empty string when no sample exceeds
    the threshold, and when there are fewer samples than two debounce
    periods. *)
Theorem decodeSamples_nothing (samples : list Z) :
  (Forall (fun x => active T x = false) samples -> decodeSamples T samples sr = "")
  /\ ((Z.of_nat (List.length samples) < 2 * debounce_threshold sr)%Z ->
      decodeSamples T samples sr = "").
Proof.
  unfold decodeSamples, detector_init. split.
  - intros Hq. rewrite quiet_run_any by exact Hq. reflexivity.
  - intros Hlen. apply detect_nothing_yet; [|lia].
    unfold nothing_yet. cbn [morse silence_start debounce_counter in_tone].
    repeat split; try lia; try discriminate.
Qed.

(** ** The shape of what is detected *)

Lemma shape_gap m g :
  single_and_triple_gaps m -> m <> "" -> last_char m <> Some " "%char ->
  g = " " \/ g = "   " -> single_and_triple_gaps (m +:+ g).
Proof.
  intros [Hch Hruns] Hne Hlast Hg. split.
  - intros c Hc. rewrite list_ascii_app in Hc. apply in_app_or in Hc as [Hc|Hc]; [apply Hch, Hc|].
    destruct Hg as [-> | ->]; cbn in Hc; intuition (subst; reflexivity).
  - rewrite space_runs_app by exact Hlast. apply Forall_app. split; [exact Hruns|].
    destruct Hg as [-> | ->]; vm_compute; (constructor; [auto|constructor]).
Qed.

Lemma shape_symbol m s :
  single_and_triple_gaps m -> s = "." \/ s = "-" -> single_and_triple_gaps (m +:+ s).
Proof.
  intros [Hch Hruns] Hs. split.
  - intros c Hc. rewrite list_ascii_app in Hc. apply in_app_or in Hc as [Hc|Hc]; [apply Hch, Hc|].
    destruct Hs as [-> | ->]; cbn in Hc; intuition (subst; reflexivity).
  - unfold space_runs in *. destruct Hs as [-> | ->]; rewrite runs_go_snoc by reflexivity;
      exact Hruns.
Qed.

Lemma step_shape st i x : detector_shape st -> detector_shape (step T sr st i x).
Proof.
  destruct st as [m it ts ss c]. unfold detector_shape. cbn [morse in_tone silence_start].
  intros (Hgaps & Hfirst & Hlast & Hpend).
  destruct (active T x) eqn:Hx; destruct it.
  - rewrite step_active_tone by exact Hx. cbn [morse in_tone silence_start]. auto.
  - rewrite step_active_silence by exact Hx.
    destruct (c + 1 >=? debounce_threshold sr)%Z; cbn [morse in_tone silence_start]; [|auto].
    destruct (gap_of_cases i ss) as [->|[Hss Hg]].
    + rewrite sapp_nil_r. repeat split; (assumption || discriminate || apply Hgaps).
    + specialize (Hlast eq_refl). specialize (Hpend eq_refl Hss).
      split; [apply shape_gap; assumption|]. split; [|split; discriminate].
      rewrite first_char_app. destruct m; [congruence|exact Hfirst].
  - rewrite step_quiet_tone by exact Hx.
    destruct (c + 1 >=? debounce_threshold sr)%Z; cbn [morse in_tone silence_start];
      [|repeat split; (assumption || discriminate || apply Hgaps)].
    pose proof (symbol_of_cases i ts) as Hs.
    split; [apply shape_symbol; assumption|]. split; [|split].
    + rewrite first_char_app. destruct m as [|c0 m]; [|exact Hfirst].
      destruct Hs as [-> | ->]; discriminate.
    + intros _. rewrite last_char_app. destruct Hs as [-> | ->]; discriminate.
    + intros _ _. destruct m; destruct Hs as [-> | ->]; discriminate.
  - rewrite step_quiet_silence by exact Hx. cbn [morse in_tone silence_start]. auto.
Qed.

Lemma detect_shape l : forall i st,
  detector_shape st -> detector_shape (detect_loop T sr l i st).
Proof.
  induction l as [|x l IH]; intros i st Hst; [exact Hst|].
  cbn [detect_loop]. apply IH, step_shape, Hst.
Qed.

(** X13: whatever the samples, the string [decodeSamples] returns holds
    only ['.'], ['-'] and [' '], its runs of spaces have length 1 or 3,
    and it does not start with a space. *)
Theorem decodeSamples_shape (samples : list Z) :
  single_and_triple_gaps (decodeSamples T samples sr)
  /\ first_char (decodeSamples T samples sr) <> Some " "%char.
Proof.
  unfold decodeSamples.
  destruct (detect_shape samples 0 detector_init) as (H1 & H2 & _).
  - unfold detector_shape, detector_init. cbn [morse in_tone silence_start].
    repeat split; try discriminate; try congruence.
    + intros c [].
    + constructor.
  - split; assumption.
Qed.

(** ** The output only grows *)

Lemma step_extends st i x : exists r, morse (step T sr st i x) = morse st +:+ r.
Proof.
  destruct st as [m it ts ss c]. cbn [morse].
  destruct (active T x) eqn:Hx; destruct it.
  - rewrite step_active_tone by exact Hx. exists "". rewrite sapp_nil_r. reflexivity.
  - rewrite step_active_silence by exact Hx.
    destruct (c + 1 >=? debounce_threshold sr)%Z; cbn [morse]; [eauto|].
    exists "". rewrite sapp_nil_r. reflexivity.
  - rewrite step_quiet_tone by exact Hx.
    destruct (c + 1 >=? debounce_threshold sr)%Z; cbn [morse]; [eauto|].
    exists "". rewrite sapp_nil_r. reflexivity.
  - rewrite step_quiet_silence by exact Hx. exists "". rewrite sapp_nil_r. reflexivity.
Qed.

Lemma detect_extends l : forall i st,
  exists r, morse (detect_loop T sr l i st) = morse st +:+ r.
Proof.
  induction l as [|x l IH]; intros i st.
  - exists "". rewrite sapp_nil_r. reflexivity.
  - cbn [detect_loop]. destruct (IH (i + 1)%Z (step T sr st i x)) as [r Hr].
    destruct (step_extends st i x) as [r0 Hr0].
    exists (r0 +:+ r). rewrite Hr, Hr0, sapp_assoc. reflexivity.
Qed.

(** X14: hearing more samples only adds to the output: the string
    decoded from a stream starts with the string decoded from any of its
    initial parts. *)
Theorem decodeSamples_grows (heard more : list Z) :
  exists rest,
    decodeSamples T (heard ++ more) sr = decodeSamples T heard sr +:+ rest.
Proof.
  unfold decodeSamples. rewrite detect_loop_app. apply detect_extends.
Qed.

(** ** The end of a tone *)


End detector_more.

(** Two debounce periods are enough for a symbol. *)
Example decodeSamples_nothing_examples :
  decodeSamples int8_t (replicate 1000 1%Z) 44100 = ""
  /\ decodeSamples int8_t (replicate 44 100%Z ++ replicate 43 0%Z) 44100 = ""
  /\ decodeSamples int8_t (replicate 44 100%Z ++ replicate 44 0%Z) 44100 = ".".
Proof. repeat split; vm_compute; reflexivity. Qed.



(** ** Dropouts inside a tone *)

Section dropouts.
Variable T : SampleType.
Variable sr : Z.

Lemma step_active_counter st i x :
  active T x = true -> in_tone (step T sr st i x) = true ->
  debounce_counter (step T sr st i x) = 0%Z.
Proof.
  destruct st as [m [] ts ss c]; intros Hx.
  - rewrite step_active_tone by exact Hx. reflexivity.
  - rewrite step_active_silence by exact Hx.
    destruct (c + 1 >=? debounce_threshold sr)%Z; [reflexivity|discriminate].
Qed.

Lemma quiet_run_below l : forall m ts ss c i,
  Forall (fun x => active T x = false) l ->
  (c + Z.of_nat (List.length l) < debounce_threshold sr)%Z ->
  detect_loop T sr l i (Detector m true ts ss c)
  = Detector m true ts ss (c + Z.of_nat (List.length l)).
Proof.
  induction l as [|x l IH]; intros m ts ss c i Hq Hlen.
  - cbn [detect_loop List.length]. rewrite Z.add_0_r. reflexivity.
  - apply Forall_cons in Hq as [Hx Hq]. cbn [List.length] in *.
    cbn [detect_loop]. rewrite step_quiet_tone by exact Hx.
    rewrite Zgeb_false by lia.
    rewrite IH by (assumption || lia). f_equal. lia.
Qed.

(** X16: inside a tone, a run of quiet samples shorter than the debounce
    minimum does not end the tone and adds no symbol; the active sample
    that follows puts the counter back to zero. *)
Theorem short_quiet_run_ignored (pre run : list Z) :
  in_tone (detect_loop T sr pre 0 detector_init) = true ->
  (exists pre' x, pre = pre' ++ [x] /\ active T x = true) ->
  Forall (fun x => active T x = false) run ->
  (Z.of_nat (List.length run) < debounce_threshold sr)%Z ->
  (forall j, j <= List.length run ->
     let st := detect_loop T sr (pre ++ take j run) 0 detector_init in
     in_tone st = true
     /\ morse st = morse (detect_loop T sr pre 0 detector_init)
     /\ debounce_counter st = Z.of_nat j)
  /\ (forall x, active T x = true ->
        let st := detect_loop T sr (pre ++ run ++ [x]) 0 detector_init in
        in_tone st = true
        /\ morse st = morse (detect_loop T sr pre 0 detector_init)
        /\ debounce_counter st = 0%Z).
Proof.
  intros Htone (pre' & x0 & -> & Hx0) Hrun Hlen.
  assert (Hc : debounce_counter (detect_loop T sr (pre' ++ [x0]) 0 detector_init) = 0%Z).
  { rewrite detect_loop_app in *. cbn [detect_loop] in *.
    apply step_active_counter; assumption. }
  destruct (detect_loop T sr (pre' ++ [x0]) 0 detector_init) as [m it ts ss c] eqn:Hst.
  cbn [in_tone debounce_counter morse] in *. subst it c.
  split.
  - intros j Hj. cbv zeta. rewrite detect_loop_app, Hst.
    rewrite quiet_run_below.
    + rewrite length_take. cbn [in_tone morse debounce_counter].
      repeat split. lia.
    + apply Forall_take, Hrun.
    + rewrite length_take. lia.
  - intros x Hx. cbv zeta. rewrite detect_loop_app, Hst, detect_loop_app.
    rewrite quiet_run_below by (assumption || lia).
    cbn [detect_loop]. rewrite step_active_tone by exact Hx.
    repeat split.
Qed.
End dropouts.

Lemma short_quiet_run_ignored_witness :
  (forall j, j <= List.length (replicate 43 0%Z) ->
     let st := detect_loop int8_t 44100 (replicate 44 100%Z ++ take j (replicate 43 0%Z)) 0
                 detector_init in
     in_tone st = true
     /\ morse st = morse (detect_loop int8_t 44100 (replicate 44 100%Z) 0 detector_init)
     /\ debounce_counter st = Z.of_nat j)
  /\ (forall x, active int8_t x = true ->
        let st := detect_loop int8_t 44100 (replicate 44 100%Z ++ replicate 43 0%Z ++ [x]) 0
                    detector_init in
        in_tone st = true
        /\ morse st = morse (detect_loop int8_t 44100 (replicate 44 100%Z) 0 detector_init)
        /\ debounce_counter st = 0%Z).
Proof.
  apply (short_quiet_run_ignored int8_t 44100 (replicate 44 100%Z) (replicate 43 0%Z)).
  - vm_compute. reflexivity.
  - exists (replicate 43 100%Z), 100%Z. split; reflexivity.
  - apply Forall_replicate. reflexivity.
  - vm_compute. reflexivity.
Defined.

(** ** One burst *)

(** X17: at 44100 samples a second, a clean burst alone gives no symbol
    (a tone that is not followed by silence is lost); followed by at
    least 44 zero samples it gives exactly one symbol, a dot when its
    length less one sample lasts under 0.2 s and a dash otherwise. *)
Theorem single_burst_detected (T : SampleType) (b : list Z) :
  clean_burst T b = true ->
  (Z.of_nat (List.length b) + 43 < 2 ^ 31)%Z ->
  decodeSamples T b 44100 = ""
  /\ forall L, (44 <= L)%Z ->
       decodeSamples T (b ++ replicate (Z.to_nat L) 0%Z) 44100
       = symbol_of 44100 (Z.of_nat (List.length b) - 1) 0.
Proof.
  intros Hb Hlen. unfold decodeSamples, detector_init.
  assert (44 < Z.of_nat (List.length b))%Z.
  { destruct b as [|x0 rest]; [discriminate|]. cbn [clean_burst] in Hb.
    apply andb_true_iff in Hb as [Hb _]. apply andb_true_iff in Hb as [Hb _].
    apply andb_true_iff in Hb as [_ Hb]. apply Nat.eqb_eq in Hb.
    rewrite length_take in Hb. cbn [List.length]. lia. }
  split.
  - rewrite burst_attack by exact Hb. reflexivity.
  - intros L HL. rewrite burst_then_silence by assumption.
    cbn [morse]. rewrite !Z.add_0_l.
    rewrite int_of_size_t_small by zlia.
    rewrite symbol_of_shift by zlia.
    replace (Z.of_nat (List.length b) + 43 - 44)%Z with (Z.of_nat (List.length b) - 1)%Z by lia.
    reflexivity.
Qed.

Lemma single_burst_detected_witness :
  decodeSamples int8_t (0%Z :: replicate (Z.to_nat 8819) 100%Z) 44100 = ""
  /\ decodeSamples int8_t ((0%Z :: replicate (Z.to_nat 8819) 100%Z) ++ replicate (Z.to_nat 44) 0%Z) 44100
     = "."
  /\ decodeSamples int8_t ((0%Z :: replicate (Z.to_nat 8820) 100%Z) ++ replicate (Z.to_nat 44) 0%Z) 44100
     = "-".
Proof.
  destruct (single_burst_detected int8_t (0%Z :: replicate (Z.to_nat 8819) 100%Z)) as [H0 H1];
    [vm_compute; reflexivity|apply Z.ltb_lt; vm_compute; reflexivity|].
  destruct (single_burst_detected int8_t (0%Z :: replicate (Z.to_nat 8820) 100%Z)) as [_ H2];
    [vm_compute; reflexivity|apply Z.ltb_lt; vm_compute; reflexivity|].
  split; [exact H0|]. split.
  - rewrite H1 by lia. vm_compute. reflexivity.
  - rewrite H2 by lia. vm_compute. reflexivity.
Defined.

Example symbol_of_44100 :
  symbol_of 44100 8819 0 = "." /\ symbol_of 44100 8820 0 = "-"
  /\ symbol_of 44100 4409 0 = "." /\ symbol_of 44100 13229 0 = "-".
Proof. repeat split; vm_compute; reflexivity. Qed.

(** * What detection recovers of a rendered string *)

Lemma gap_text_of run : gap_of 44100 (4411 + gap_length run) 0 = gap_text run.
Proof.
  unfold gap_length, gap_text. destruct (run =? 1); [vm_compute; reflexivity|].
  destruct (3 <=? run); vm_compute; reflexivity.
Qed.

Section squeeze.
Variable T : SampleType.
Variable sin : float -> float.

Hypothesis dot_clean : clean_burst T (dot_burst T sin) = true.
Hypothesis dash_clean : clean_burst T (dash_burst T sin) = true.

Lemma squeeze_detect s : forall run (seen : bool) mo ts (ss i : Z),
  (forall c, In c (list_ascii_of_string s) -> morse_char c = true) ->
  (0 <= i)%Z -> (i + Z.of_nat (List.length (render_go T sin run s)) <= 2 ^ 31)%Z ->
  (if seen then ss = (i - 4367)%Z /\ (4367 <= i)%Z else ss = (-1)%Z) ->
  exists ts' ss',
    detect_loop T 44100 (render_go T sin run s) i (Detector mo false ts ss 0)
    = Detector (mo +:+ squeeze_go gap_text seen run s) false ts' ss' 0.
Proof.
  induction s as [|c s IH]; intros run seen mo ts ss i Hch Hi Hlen Hss.
  - cbn [render_go squeeze_go]. rewrite gap_samples_length.
    rewrite quiet_run_silence by (apply Forall_replicate, zero_quiet).
    rewrite sapp_nil_r. eauto.
  - assert (Hc : morse_char c = true) by (apply Hch; left; reflexivity).
    assert (Hch' : forall x, In x (list_ascii_of_string s) -> morse_char x = true)
      by (intros x Hx; apply Hch; right; exact Hx).
    cbn [render_go squeeze_go] in *. destruct (c =? " ")%char eqn:Hsp.
    + apply IH; assumption.
    + unfold morse_char in Hc. rewrite Hsp, orb_false_r in Hc.
      rewrite !length_app, !Nat2Z.inj_add, length_gap_samples in Hlen.
      pose proof (gap_length_nonneg run) as HG.
      assert (Hsl : (8820 <= Z.of_nat (List.length (symbol_samples T sin c)))%Z).
      { rewrite length_symbol_samples. unfold is_symbol in Hc.
        destruct (c =? ".")%char; [lia|]. destruct (c =? "-")%char; [lia|discriminate]. }
      rewrite detect_loop_app, gap_samples_length.
      rewrite quiet_run_silence by (apply Forall_replicate, zero_quiet).
      rewrite length_replicate, Z2Nat.id by exact HG.
      rewrite detect_loop_app, (symbol_detect T sin dot_clean dash_clean) by (assumption || lia).
      edestruct (IH 0 true) as (ts' & ss' & ->); [exact Hch'| | |split; [reflexivity|]|].
      * lia.
      * lia.
      * lia.
      * exists ts', ss'. f_equal. rewrite !sapp_assoc. f_equal.
        destruct seen.
        -- destruct Hss as [-> Hi']. rewrite gap_of_shift by zlia.
           replace (i + gap_length run + 44 - (i - 4367))%Z with (4411 + gap_length run)%Z by lia.
           rewrite gap_text_of. reflexivity.
        -- subst ss. reflexivity.
Qed.

Lemma squeeze_decode (m : string) :
  (forall c, In c (list_ascii_of_string m) -> morse_char c = true) ->
  (Z.of_nat (List.length (render T sin m)) <= 2 ^ 31)%Z ->
  decodeSamples T (render T sin m) 44100 = squeeze m.
Proof.
  intros Hch Hlen. unfold decodeSamples, detector_init, render.
  destruct (squeeze_detect m 0 false "" 0%Z (-1)%Z 0%Z) as (ts' & ss' & ->);
    [exact Hch|lia|rewrite Z.add_0_l; exact Hlen|reflexivity|reflexivity].
Qed.
End squeeze.

(** X18: for every string over ['.'], ['-'], [' '], detection gives back
    the string squeezed: leading and trailing spaces dropped, a single
    space kept, a run of three or more spaces turned into three, a run of
    two dropped (clean bursts, and a number of samples that fits [int]). *)
Theorem waveform_squeeze (T : SampleType) (sin : float -> float) (m : string) :
  clean_burst T (dot_burst T sin) = true ->
  clean_burst T (dash_burst T sin) = true ->
  (forall c, In c (list_ascii_of_string m) -> morse_char c = true) ->
  exists samples,
    generateSamples T sin m = Ok samples
    /\ ((Z.of_nat (List.length samples) <= 2 ^ 31)%Z ->
        decodeSamples T samples 44100 = squeeze m).
Proof.
  intros Hdot Hdash Hch. exists (render T sin m). split; [apply generateSamples_spec|].
  intros Hlen. apply squeeze_decode; assumption.
Qed.

Example squeeze_values :
  squeeze "   .-  -      . " = ".--   ." /\ squeeze " " = "" /\ squeeze ". - .   -" = ". - .   -".
Proof. repeat split; vm_compute; reflexivity. Qed.

Lemma waveform_squeeze_witness :
  exists samples,
    generateSamples int8_t sin_poly " .  -      . " = Ok samples
    /\ decodeSamples int8_t samples 44100 = ".-   .".
Proof.
  destruct (waveform_squeeze int8_t sin_poly " .  -      . ") as (samples & Hgen & Hdec).
  - vm_compute. reflexivity.
  - vm_compute. reflexivity.
  - intros c Hc. cbn [list_ascii_of_string In] in Hc.
    repeat (destruct Hc as [<-|Hc]; [reflexivity|]). destruct Hc.
  - exists samples. split; [exact Hgen|]. rewrite Hdec; [reflexivity|].
    rewrite generateSamples_spec in Hgen. injection Hgen as <-.
    unfold render. rewrite length_render_go. vm_compute. discriminate.
Defined.

(** * More on the WAV container *)

(** ** Bytes *)

Lemma le_value_le_bytes n : forall z, le_value (le_bytes n z) = (z mod 256 ^ Z.of_nat n)%Z.
Proof.
  induction n as [|n IH]; intros z.
  - cbn [le_bytes le_value]. change (256 ^ Z.of_nat 0)%Z with 1%Z. rewrite Z.mod_1_r. reflexivity.
  - cbn [le_bytes le_value]. rewrite IH, N_ascii_embedding.
    + rewrite Z2N.id by (apply Z.mod_pos_bound; lia).
      rewrite Nat2Z.inj_succ, Z.pow_succ_r by lia.
      rewrite Z.rem_mul_r by lia. reflexivity.
    + apply N2Z.inj_lt. rewrite Z2N.id by (apply Z.mod_pos_bound; lia).
      apply Z.mod_pos_bound. lia.
Qed.

Lemma substring_app_skip s t a k :
  substring (String.length s + a) k (s +:+ t) = substring a k t.
Proof.
  induction s as [|c s IH]; [reflexivity|].
  rewrite sapp_cons. cbn [String.length Nat.add substring]. exact IH.
Qed.

Lemma substring_app_take s t k :
  k <= String.length s -> substring 0 k (s +:+ t) = substring 0 k s.
Proof.
  revert k. induction s as [|c s IH]; intros k Hk.
  - cbn [String.length] in Hk. replace k with 0 by lia. rewrite sapp_nil_l.
    destruct t; reflexivity.
  - rewrite sapp_cons. destruct k as [|k]; [reflexivity|].
    cbn [substring]. rewrite IH by (cbn [String.length] in Hk; lia). reflexivity.
Qed.

Lemma substring_whole s k : String.length s <= k -> substring 0 k s = s.
Proof.
  revert k. induction s as [|c s IH]; intros k Hk.
  - destruct k; reflexivity.
  - destruct k as [|k]; [cbn [String.length] in Hk; lia|].
    cbn [substring]. rewrite IH by (cbn [String.length] in Hk; lia). reflexivity.
Qed.

Lemma sample_of_le_bytes T x :
  in_range T x = true -> sample_of_bytes T (le_bytes (Z.to_nat (sizeof T)) x) = x.
Proof.
  unfold in_range, sample_of_bytes. intros H. apply andb_true_iff in H as [H1 H2].
  apply Z.leb_le in H1, H2. rewrite le_value_le_bytes.
  destruct T; cbn [sizeof numeric_limits_max] in *;
    match goal with |- context [(x mod ?m)%Z] =>
      let m' := eval vm_compute in m in change m with m'
    end;
    match goal with |- context [(2 ^ ?e)%Z] =>
      let p := eval vm_compute in (2 ^ e)%Z in change (2 ^ e)%Z with p
    end;
    match goal with |- context [(2 ^ ?e)%Z] =>
      let p := eval vm_compute in (2 ^ e)%Z in change (2 ^ e)%Z with p
    end;
    (destruct (Z.ltb_spec x 0);
     [ match goal with |- context [(x mod ?m)%Z] =>
         replace (x mod m)%Z with (x + m)%Z
           by (apply Z.mod_unique with (q := (-1)%Z); lia)
       end
     | rewrite Z.mod_small by lia ];
     match goal with |- context [(?a <? ?b)%Z] => destruct (Z.ltb_spec a b) end; lia).
Qed.

Lemma length_buffer_of_samples T samples :
  Z.of_nat (String.length (buffer_of_samples T samples))
  = (Z.of_nat (List.length samples) * sizeof T)%Z.
Proof.
  induction samples as [|x samples IH]; [reflexivity|].
  cbn [buffer_of_samples List.length]. rewrite slength_app, length_le_bytes.
  rewrite Nat2Z.inj_add, IH. destruct T; cbn [sizeof]; lia.
Qed.

Lemma samples_of_buffer_of_samples T samples : forall done a,
  String.length done = a * Z.to_nat (sizeof T) ->
  Forall (fun x => in_range T x = true) samples ->
  (fun k => sample_of_bytes T
              (substring (k * Z.to_nat (sizeof T)) (Z.to_nat (sizeof T))
                         (done +:+ buffer_of_samples T samples)))
  <$> seq a (List.length samples) = samples.
Proof.
  induction samples as [|x samples IH]; intros done a Hdone Hr; [reflexivity|].
  apply Forall_cons in Hr as [Hx Hr].
  cbn [List.length seq fmap list_fmap buffer_of_samples]. f_equal.
  - rewrite <- Hdone.
    rewrite <- (Nat.add_0_r (String.length done)), substring_app_skip.
    rewrite substring_app_take by (rewrite length_le_bytes; lia).
    rewrite substring_whole by (rewrite length_le_bytes; lia).
    apply sample_of_le_bytes, Hx.
  - rewrite <- sapp_assoc. apply IH; [|exact Hr].
    rewrite slength_app, length_le_bytes, Hdone. lia.
Qed.

(** ** The header in memory *)

Lemma header_parse_image rs fsz af nc srate br ba bps ds :
  header_parse
    (header_image {| riffId := "RIFF"; riffSize := rs; waveId := "WAVE"; fmtId := "fmt ";
                     fmtSize := fsz; audioFormat := af; numChannels := nc;
                     sampleRate := srate; byteRate := br; blockAlign := ba;
                     bitsPerSample := bps; dataId := "data"; dataSize := ds |})
  = {| riffId := "RIFF"; riffSize := rs mod 2 ^ 32; waveId := "WAVE"; fmtId := "fmt ";
       fmtSize := fsz mod 2 ^ 32; audioFormat := af mod 2 ^ 16; numChannels := nc mod 2 ^ 16;
       sampleRate := srate mod 2 ^ 32; byteRate := br mod 2 ^ 32; blockAlign := ba mod 2 ^ 16;
       bitsPerSample := bps mod 2 ^ 16; dataId := "data"; dataSize := ds mod 2 ^ 32 |}%Z.
Proof.
  unfold header_parse. f_equal.
  - exact (le_value_le_bytes 4 rs).
  - exact (le_value_le_bytes 4 fsz).
  - exact (le_value_le_bytes 2 af).
  - exact (le_value_le_bytes 2 nc).
  - exact (le_value_le_bytes 4 srate).
  - exact (le_value_le_bytes 4 br).
  - exact (le_value_le_bytes 2 ba).
  - exact (le_value_le_bytes 2 bps).
  - exact (le_value_le_bytes 4 ds).
Qed.

Lemma length_default_image indeterminate :
  String.length (header_image (WavHeader_init indeterminate)) = 44.
Proof. reflexivity. Qed.

Lemma length_saveWav_image T indeterminate samples :
  String.length (header_image (saveWav_header T indeterminate samples)) = 44.
Proof. reflexivity. Qed.

Lemma saveWav_header_parse T indeterminate samples :
  (Z.of_nat (List.length samples) * sizeof T + 36 < 2 ^ 32)%Z ->
  header_parse (header_image (saveWav_header T indeterminate samples))
  = wav_header T (List.length samples).
Proof.
  intros Hlen. unfold saveWav_header, WavHeader_init.
  cbn [riffId waveId fmtId fmtSize audioFormat numChannels sampleRate dataId].
  rewrite header_parse_image. unfold wav_header, uint32_t, uint16_t.
  assert (Hsz : (1 <= sizeof T <= 4)%Z) by (destruct T; cbn [sizeof]; lia).
  change (2 ^ 32)%Z with 4294967296%Z in *. change (2 ^ 16)%Z with 65536%Z.
  rewrite !Z.mod_mod by lia.
  rewrite (Z.mod_small (Z.of_nat (List.length samples) * sizeof T)) by nia.
  rewrite !Z.mod_small by nia.
  f_equal; lia.
Qed.

(** ** Reading what is there *)

Lemma substring_zeros k : forall a m,
  a + m <= k -> substring a m (le_bytes k 0) = le_bytes m 0.
Proof.
  induction k as [|k IH]; intros a m H.
  - replace a with 0 by lia. replace m with 0 by lia. reflexivity.
  - change (le_bytes (S k) 0) with (String "000"%char (le_bytes k 0)).
    destruct a as [|a].
    + destruct m as [|m]; [reflexivity|]. cbn [substring].
      change (le_bytes (S m) 0) with (String "000"%char (le_bytes m 0)).
      rewrite IH by lia. reflexivity.
    + cbn [substring]. apply IH. lia.
Qed.

Lemma loadWav_samples_payload T fs indeterminate filename image payload :
  fs !! filename = Some (image +:+ payload) ->
  String.length image = 44 ->
  bitsPerSample (header_parse image) = (sizeof T * 8)%Z ->
  (dataSize (header_parse image) mod sizeof T = 0)%Z ->
  (Z.of_nat (String.length payload) <= dataSize (header_parse image))%Z ->
  loadWav_samples T fs indeterminate filename
  = Ok (samples_of_buffer T (Z.to_nat (dataSize (header_parse image) / sizeof T))
          (payload +:+ le_bytes (Z.to_nat (dataSize (header_parse image))
                                 - String.length payload) 0),
        sampleRate (header_parse image)).
Proof.
  intros Hfs Himage Hbits Hmod Hlen.
  assert (Hsize : (0 < sizeof T)%Z) by (destruct T; reflexivity).
  unfold loadWav_samples. rewrite Hfs.
  cbv beta iota zeta delta [read good pos content].
  assert (Hhead : substring 0 44 (image +:+ payload) = image).
  { rewrite <- Himage. apply substring_take. }
  rewrite Hhead, Himage. cbn [Nat.eqb Nat.add].
  rewrite overlay_full by (rewrite length_default_image; lia).
  rewrite Hbits, Z.eqb_refl. cbn [negb].
  set (d := dataSize (header_parse image)) in *.
  assert (Hmul : (d / sizeof T * sizeof T = d)%Z).
  { rewrite Z.mul_comm. symmetry. apply Z.div_exact; lia. }
  assert (Hgot : substring 44 (Z.to_nat d) (image +:+ payload) = payload).
  { rewrite <- Himage at 1. rewrite <- (Nat.add_0_r (String.length image)).
    rewrite substring_app_skip. apply substring_whole. lia. }
  rewrite Hgot, Hmul.
  rewrite (proj2 (Z.ltb_ge _ _)) by lia.
  unfold overlay. rewrite length_le_bytes, substring_zeros by lia. reflexivity.
Qed.

Lemma lookup_written (fs : gmap string string) filename bytes :
  <[filename := bytes]> fs !! filename = Some bytes.
Proof. apply lookup_insert_eq. Qed.

Lemma loadWav_samples_saved T indeterminate indeterminate' (fs : gmap string string)
  filename samples :
  Forall (fun x => in_range T x = true) samples ->
  (Z.of_nat (List.length samples) * sizeof T + 36 < 2 ^ 32)%Z ->
  loadWav_samples T
    (<[filename := header_image (saveWav_header T indeterminate samples)
                   +:+ buffer_of_samples T samples]> fs)
    indeterminate' filename
  = Ok (samples, 44100%Z).
Proof.
  intros Hr Hlen.
  assert (Hsize : (0 < sizeof T)%Z) by (destruct T; reflexivity).
  rewrite (loadWav_samples_payload T _ _ filename
             (header_image (saveWav_header T indeterminate samples))
             (buffer_of_samples T samples)).
  - rewrite saveWav_header_parse by exact Hlen. cbn [wav_header dataSize sampleRate].
    rewrite Z.div_mul by lia. rewrite Nat2Z.id.
    rewrite <- length_buffer_of_samples, Nat2Z.id, Nat.sub_diag.
    change (le_bytes 0 0) with "". rewrite sapp_nil_r.
    unfold samples_of_buffer.
    rewrite <- (sapp_nil_l (buffer_of_samples T samples)).
    rewrite samples_of_buffer_of_samples by (reflexivity || exact Hr). reflexivity.
  - apply lookup_written.
  - apply length_saveWav_image.
  - rewrite saveWav_header_parse by exact Hlen. cbn [wav_header bitsPerSample]. lia.
  - rewrite saveWav_header_parse by exact Hlen. cbn [wav_header dataSize].
    apply Z.mod_mul. lia.
  - rewrite saveWav_header_parse by exact Hlen. cbn [wav_header dataSize].
    rewrite length_buffer_of_samples. lia.
Qed.

(** X19: [loadWav] reads back what [saveWav] wrote: the same samples at
    44100 samples a second, when every sample is a value of the sample
    type and the sizes fit 32 bits; [saveWav] changes no other file. *)
Theorem saveWav_loadWav
  (T : SampleType) (writable : string -> bool) (indeterminate indeterminate' : WavHeader)
  (fs : gmap string string) (filename : string) (samples : list Z) :
  writable filename = true ->
  Forall (fun x => in_range T x = true) samples ->
  (Z.of_nat (List.length samples) * sizeof T + 36 < 2 ^ 32)%Z ->
  exists fs',
    saveWav T writable indeterminate fs filename samples = Ok fs'
    /\ loadWav_samples T fs' indeterminate' filename = Ok (samples, 44100%Z)
    /\ loadWav T fs' indeterminate' filename = Ok (decodeSamples T samples 44100)
    /\ forall other, other <> filename -> fs' !! other = fs !! other.
Proof.
  intros Hw Hr Hlen. unfold saveWav. rewrite Hw. eexists. split; [reflexivity|].
  pose proof (loadWav_samples_saved T indeterminate indeterminate' fs filename samples Hr Hlen)
    as Hload.
  split; [exact Hload|]. split.
  - unfold loadWav. rewrite Hload. reflexivity.
  - intros other Hne. apply lookup_insert_ne. congruence.
Qed.

Lemma saveWav_loadWav_witness :
  exists fs',
    saveWav int16_t (fun _ => true) test_header ∅ "a.wav" [0; -1; 32767; -32768; 258]%Z = Ok fs'
    /\ loadWav_samples int16_t fs' test_header "a.wav" = Ok ([0; -1; 32767; -32768; 258]%Z, 44100%Z)
    /\ loadWav int16_t fs' test_header "a.wav"
       = Ok (decodeSamples int16_t [0; -1; 32767; -32768; 258]%Z 44100)
    /\ forall other, other <> "a.wav" -> fs' !! other = (∅ : gmap string string) !! other.
Proof.
  apply (saveWav_loadWav int16_t (fun _ => true) test_header test_header ∅ "a.wav"
           [0; -1; 32767; -32768; 258]%Z).
  - reflexivity.
  - repeat constructor.
  - vm_compute. reflexivity.
Defined.

(** ** The file [saveWav] writes *)

(** X20: [saveWav] throws when the file cannot be opened; otherwise the
    file holds 44 + n * sizeof(SampleType) bytes: a header whose members
    are those of a PCM file of n mono samples at 44100 Hz, whatever the
    uninitialized members held, followed by the bytes of the samples. *)
Theorem saveWav_file
  (T : SampleType) (writable : string -> bool) (indeterminate : WavHeader)
  (fs : gmap string string) (filename : string) (samples : list Z) :
  (writable filename = false ->
   saveWav T writable indeterminate fs filename samples
   = Throw (MorseException ("Cannot open " +:+ filename)))
  /\ (writable filename = true ->
      (Z.of_nat (List.length samples) * sizeof T + 36 < 2 ^ 32)%Z ->
      exists bytes,
        saveWav T writable indeterminate fs filename samples = Ok (<[filename := bytes]> fs)
        /\ Z.of_nat (String.length bytes) = (44 + Z.of_nat (List.length samples) * sizeof T)%Z
        /\ header_parse (substring 0 44 bytes) = wav_header T (List.length samples)
        /\ substring 44 (String.length bytes - 44) bytes = buffer_of_samples T samples).
Proof.
  unfold saveWav. split; intros Hw; rewrite Hw; [reflexivity|].
  intros Hlen. eexists. split; [reflexivity|].
  pose proof (length_saveWav_image T indeterminate samples) as Himage.
  split; [|split].
  - rewrite slength_app, Nat2Z.inj_add, Himage, length_buffer_of_samples. lia.
  - rewrite <- Himage at 1. rewrite substring_take. apply saveWav_header_parse, Hlen.
  - rewrite slength_app, Himage.
    replace (44 + String.length (buffer_of_samples T samples) - 44)
      with (String.length (buffer_of_samples T samples)) by lia.
    rewrite <- Himage at 1. rewrite <- (Nat.add_0_r (String.length _)) at 1.
    rewrite substring_app_skip. apply substring_all.
Qed.

Example saveWav_bytes :
  saveWav int8_t (fun _ => true) test_header ∅ "test.wav" [1; -1; -128; 127]%Z
  = Ok {[ "test.wav" := test_wav ]}.
Proof. vm_compute. reflexivity. Qed.

(** ** Files that are too short *)

Lemma substring_substring s : forall a k b m,
  a + k <= m -> substring a k (substring b m s) = substring (a + b) k s.
Proof.
  induction s as [|c s IH]; intros a k b m H.
  - destruct b, m, a, k; reflexivity.
  - destruct b as [|b].
    + rewrite Nat.add_0_r. destruct m as [|m].
      * replace a with 0 by lia. replace k with 0 by lia. reflexivity.
      * cbn [substring]. destruct a as [|a].
        -- destruct k as [|k]; [reflexivity|]. cbn [substring].
           rewrite (IH 0 k 0 m) by lia. reflexivity.
        -- cbn [substring]. rewrite (IH a k 0 m) by lia. rewrite Nat.add_0_r. reflexivity.
    + rewrite Nat.add_succ_r. cbn [substring]. apply IH. exact H.
Qed.

(** X21: a file of fewer than 35 bytes is refused by the 8-bit and the
    32-bit readers with the sample-width exception: the bits-per-sample
    member keeps its initial value 16. *)
Theorem loadWav_short_file
  (T : SampleType) (fs : gmap string string) (indeterminate : WavHeader)
  (filename bytes : string) :
  T <> int16_t ->
  fs !! filename = Some bytes ->
  String.length bytes <= 34 ->
  loadWav_samples T fs indeterminate filename = Throw UnsupportedSampleWidth
  /\ loadWav T fs indeterminate filename = Throw UnsupportedSampleWidth.
Proof.
  intros HT Hfs Hlen.
  assert (H : loadWav_samples T fs indeterminate filename = Throw UnsupportedSampleWidth).
  { unfold loadWav_samples. rewrite Hfs.
    cbv beta iota zeta delta [read good pos content].
    rewrite substring_whole by lia.
    set (image := header_image (WavHeader_init indeterminate)).
    assert (Hbits : bitsPerSample (header_parse (overlay bytes image)) = 16%Z).
    { unfold header_parse. cbn [bitsPerSample]. unfold overlay.
      replace 34 with (String.length bytes + (34 - String.length bytes)) at 1 by lia.
      rewrite substring_app_skip, substring_substring
        by (unfold image; rewrite length_default_image; lia).
      replace (34 - String.length bytes + String.length bytes) with 34 by lia.
      reflexivity. }
    rewrite Hbits.
    destruct T; [reflexivity|congruence|reflexivity]. }
  split; [exact H|]. unfold loadWav. rewrite H. reflexivity.
Qed.

Lemma loadWav_short_file_witness :
  loadWav_samples int8_t {[ "empty.wav" := "" ]} test_header "empty.wav"
  = Throw UnsupportedSampleWidth
  /\ loadWav int8_t {[ "empty.wav" := "" ]} test_header "empty.wav" = Throw UnsupportedSampleWidth.
Proof.
  apply (loadWav_short_file int8_t {[ "empty.wav" := "" ]} test_header "empty.wav" "").
  - discriminate.
  - reflexivity.
  - cbn [String.length]. lia.
Defined.

(** The 16-bit reader accepts an empty file: the member keeps its
    initial value 16. *)
Example loadWav_empty_file_16 :
  loadWav_samples int16_t {[ "empty.wav" := "" ]} (wav_header int16_t 0) "empty.wav"
  = Ok ([], 44100%Z).
Proof. vm_compute. reflexivity. Qed.

(** ** A payload cut short *)

Lemma le_bytes_zeros_app a b : le_bytes a 0 +:+ le_bytes b 0 = le_bytes (a + b) 0.
Proof.
  induction a as [|a IH]; [reflexivity|].
  change (le_bytes (S a) 0) with (String "000"%char (le_bytes a 0)).
  change (le_bytes (S a + b) 0) with (String "000"%char (le_bytes (a + b) 0)).
  rewrite sapp_cons, IH. reflexivity.
Qed.

Lemma buffer_of_zeros T j :
  buffer_of_samples T (replicate j 0%Z) = le_bytes (j * Z.to_nat (sizeof T)) 0.
Proof.
  induction j as [|j IH]; [reflexivity|].
  cbn [replicate buffer_of_samples]. rewrite IH, le_bytes_zeros_app. reflexivity.
Qed.

Lemma buffer_of_samples_app T l1 l2 :
  buffer_of_samples T (l1 ++ l2) = buffer_of_samples T l1 +:+ buffer_of_samples T l2.
Proof.
  induction l1 as [|x l1 IH]; [reflexivity|].
  cbn [app buffer_of_samples]. rewrite IH, sapp_assoc. reflexivity.
Qed.

Lemma substring_app_more s t j :
  substring 0 (String.length s + j) (s +:+ t) = s +:+ substring 0 j t.
Proof.
  induction s as [|c s IH]; [reflexivity|].
  rewrite sapp_cons. cbn [String.length Nat.add substring]. rewrite IH. reflexivity.
Qed.

Lemma substring_buffer_take T samples : forall k,
  k <= List.length samples ->
  substring 0 (k * Z.to_nat (sizeof T)) (buffer_of_samples T samples)
  = buffer_of_samples T (take k samples).
Proof.
  induction samples as [|x samples IH]; intros k Hk.
  - cbn [List.length] in Hk. replace k with 0 by lia. reflexivity.
  - destruct k as [|k].
    + cbn [Nat.mul take buffer_of_samples]. apply substring_empty.
    + cbn [take buffer_of_samples]. cbn [List.length] in Hk.
      replace (S k * Z.to_nat (sizeof T))
        with (String.length (le_bytes (Z.to_nat (sizeof T)) x) + k * Z.to_nat (sizeof T))
        by (rewrite length_le_bytes; lia).
      rewrite substring_app_more, IH by lia. reflexivity.
Qed.

(** X22: when the file [saveWav] wrote is cut after [k] samples,
    [loadWav] still hands the number of samples the header announces to
    the detector: the [k] samples of the file, then zeros. *)
Theorem loadWav_truncated
  (T : SampleType) (writable : string -> bool) (indeterminate indeterminate' : WavHeader)
  (fs : gmap string string) (filename : string) (samples : list Z) :
  writable filename = true ->
  Forall (fun x => in_range T x = true) samples ->
  (Z.of_nat (List.length samples) * sizeof T + 36 < 2 ^ 32)%Z ->
  exists bytes,
    saveWav T writable indeterminate fs filename samples = Ok (<[filename := bytes]> fs)
    /\ forall k, k <= List.length samples ->
         loadWav_samples T (<[filename := substring 0 (44 + k * Z.to_nat (sizeof T)) bytes]> fs)
                         indeterminate' filename
         = Ok (take k samples ++ replicate (List.length samples - k) 0%Z, 44100%Z).
Proof.
  intros Hw Hr Hlen. unfold saveWav. rewrite Hw. eexists. split; [reflexivity|].
  intros k Hk.
  assert (Hsize : (0 < sizeof T)%Z) by (destruct T; reflexivity).
  pose proof (length_saveWav_image T indeterminate samples) as Himage.
  rewrite <- Himage at 1. rewrite substring_app_more, substring_buffer_take by exact Hk.
  rewrite (loadWav_samples_payload T _ _ filename
             (header_image (saveWav_header T indeterminate samples))
             (buffer_of_samples T (take k samples))).
  - rewrite saveWav_header_parse by exact Hlen. cbn [wav_header dataSize sampleRate].
    rewrite Z.div_mul by lia. rewrite Nat2Z.id. f_equal. f_equal.
    assert (Hfill : Z.to_nat (Z.of_nat (List.length samples) * sizeof T)
                    - String.length (buffer_of_samples T (take k samples))
                    = (List.length samples - k) * Z.to_nat (sizeof T)).
    { apply Nat2Z.inj. pose proof (length_buffer_of_samples T (take k samples)) as Hb.
      rewrite length_take in Hb.
      rewrite Nat2Z.inj_sub
        by (apply Nat2Z.inj_le; rewrite Hb, Z2Nat.id by lia; nia).
      rewrite Z2Nat.id, Hb, Nat2Z.inj_mul, Nat2Z.inj_sub, Z2Nat.id by lia.
      rewrite Nat2Z.inj_min. nia. }
    rewrite Hfill, <- buffer_of_zeros, <- buffer_of_samples_app.
    set (l := take k samples ++ replicate (List.length samples - k) 0%Z).
    assert (Hl : List.length l = List.length samples)
      by (unfold l; rewrite length_app, length_take, length_replicate; lia).
    assert (HF : Forall (fun x => in_range T x = true) l).
    { apply Forall_app. split; [apply Forall_take, Hr|].
      apply Forall_replicate. destruct T; reflexivity. }
    pose proof (samples_of_buffer_of_samples T l "" 0 eq_refl HF) as H.
    rewrite Hl, sapp_nil_l in H. exact H.
  - apply lookup_written.
  - exact Himage.
  - rewrite saveWav_header_parse by exact Hlen. cbn [wav_header bitsPerSample]. lia.
  - rewrite saveWav_header_parse by exact Hlen. cbn [wav_header dataSize].
    apply Z.mod_mul. lia.
  - rewrite saveWav_header_parse by exact Hlen. cbn [wav_header dataSize].
    rewrite length_buffer_of_samples, length_take. nia.
Qed.

Lemma loadWav_truncated_witness :
  exists bytes,
    saveWav int16_t (fun _ => true) test_header ∅ "a.wav" [7; -1; 300; -300]%Z
    = Ok (<[ "a.wav" := bytes ]> ∅)
    /\ forall k, k <= List.length [7; -1; 300; -300]%Z ->
         loadWav_samples int16_t
           (<[ "a.wav" := substring 0 (44 + k * Z.to_nat (sizeof int16_t)) bytes ]> ∅)
           test_header "a.wav"
         = Ok (take k [7; -1; 300; -300]%Z
               ++ replicate (List.length [7; -1; 300; -300]%Z - k) 0%Z, 44100%Z).
Proof.
  apply (loadWav_truncated int16_t (fun _ => true) test_header test_header ∅ "a.wav"
           [7; -1; 300; -300]%Z).
  - reflexivity.
  - repeat constructor.
  - vm_compute. reflexivity.
Defined.

(** * From a text file to a WAV file and back *)

(** ** Squeezing an encoding *)

Lemma squeeze_go_token gap p : forall seen run z,
  gap 0 = "" -> no_spaceb p = true -> empty p = false ->
  squeeze_go gap seen run (p +:+ z)
  = (if seen then gap run else "") +:+ p +:+ squeeze_go gap true 0 z.
Proof.
  induction p as [|c p IH]; intros seen run z Hgap Hns Hne; [discriminate|].
  pose proof (no_spaceb_head _ _ Hns) as Hc.
  cbn [no_spaceb] in Hns. apply andb_true_iff in Hns as [_ Hns].
  rewrite sapp_cons. cbn [squeeze_go]. rewrite Hc.
  destruct p as [|c' p]; [reflexivity|].
  rewrite IH by (assumption || reflexivity). rewrite Hgap. reflexivity.
Qed.

Lemma gap_text_word r : gap_text (3 * S r) = "   ".
Proof.
  unfold gap_text. replace (3 * S r =? 1) with false by (symmetry; apply Nat.eqb_neq; lia).
  replace (3 <=? 3 * S r) with true by (symmetry; apply Nat.leb_le; lia). reflexivity.
Qed.

Lemma squeeze_encode text : forall (seen : bool) r sep m,
  encode_tail new text sep = Ok m ->
  sep = seen && (r =? 0) ->
  encode_tail new (squeeze_go word_gap seen r text) seen
  = Ok (squeeze_go gap_text seen (3 * r) m).
Proof.
  induction text as [|c0 text IH]; intros seen r sep m Hm Hsep.
  - injection Hm as <-. reflexivity.
  - cbn [encode_tail] in Hm. cbn [squeeze_go]. rewrite <- (toupper_space c0).
    destruct (toupper c0 =? " ")%char eqn:Hsp.
    + destruct (encode_tail new text false) as [m'| | |] eqn:Hm'; try discriminate.
      injection Hm as <-.
      rewrite (IH seen (S r) false m' Hm') by (rewrite andb_false_r; reflexivity).
      f_equal. change ("   " +:+ m') with (String " " (String " " (String " " m'))).
      cbn [squeeze_go Ascii.eqb Bool.eqb]. cbv beta iota. f_equal. lia.
    + destruct (charToMorse new !! toupper c0) as [p|] eqn:Hp; [|discriminate].
      destruct (pattern_facts _ _ Hp Hsp) as (Hne & Hns & _).
      destruct (encode_tail new text true) as [m'| | |] eqn:Hm'; try discriminate.
      injection Hm as <-.
      pose proof (IH true 0 true m' Hm' eq_refl) as Hrest. cbn [Nat.mul] in Hrest.
      destruct seen, r as [|r]; cbn [andb Nat.eqb] in Hsep; subst sep; cbn [word_gap].
      * rewrite sapp_nil_l. cbn [encode_tail]. rewrite Hsp, Hp, Hrest.
        change (" " +:+ p +:+ m') with (String " " (p +:+ m')).
        cbn [squeeze_go Ascii.eqb Bool.eqb Nat.mul]. cbv beta iota.
        rewrite squeeze_go_token by (assumption || reflexivity). reflexivity.
      * change (" " +:+ String c0 (squeeze_go word_gap true 0 text))
          with (String " " (String c0 (squeeze_go word_gap true 0 text))).
        cbn [encode_tail]. change (toupper " " =? " ")%char with true. cbv beta iota.
        rewrite Hsp, Hp, Hrest. rewrite sapp_nil_l.
        rewrite squeeze_go_token by (assumption || reflexivity).
        rewrite gap_text_word. reflexivity.
      * rewrite sapp_nil_l. cbn [encode_tail]. rewrite Hsp, Hp, Hrest.
        rewrite sapp_nil_l, squeeze_go_token by (assumption || reflexivity). reflexivity.
      * rewrite sapp_nil_l. cbn [encode_tail]. rewrite Hsp, Hp, Hrest.
        rewrite sapp_nil_l, squeeze_go_token by (assumption || reflexivity). reflexivity.
Qed.

Lemma decode_squeeze_encode text m :
  encode_tail new text false = Ok m ->
  decode new (squeeze m) = Ok (uppercase (normalize text)).
Proof.
  intros Hm. pose proof (squeeze_encode text false 0 false m Hm eq_refl) as Hn.
  cbn [Nat.mul] in Hn. fold (normalize text) in Hn. fold (squeeze m) in Hn.
  destruct (encode_decode _ (encode_ok_supported _ _ _ Hn)) as (m2 & Hm2 & Hdec).
  rewrite Hn in Hm2. injection Hm2 as <-. exact Hdec.
Qed.

Example normalize_values :
  normalize "  so   long  " = "so long" /\ normalize test_message = test_message
  /\ normalize "   " = "".
Proof. repeat split; vm_compute; reflexivity. Qed.

(** ** Size and range of the samples *)

Section samples_facts.
Variable T : SampleType.
Variable sin : float -> float.

Lemma gap_length_bound run : (gap_length run <= 17640 * Z.of_nat run)%Z.
Proof.
  unfold gap_length. destruct (Nat.eqb_spec run 1) as [->|H1]; [vm_compute; discriminate|].
  destruct (Nat.leb_spec 3 run) as [H3|H3]; [|lia].
  assert (trunc (0.7 * 44100) = 30869%Z) as -> by (vm_compute; reflexivity). lia.
Qed.

Lemma length_render_go_bound s : forall run,
  (Z.of_nat (List.length (render_go T sin run s))
   <= 17640 * Z.of_nat (run + String.length s))%Z.
Proof.
  induction s as [|c s IH]; intros run.
  - cbn [render_go String.length]. rewrite length_gap_samples, Nat.add_0_r.
    apply gap_length_bound.
  - cbn [render_go String.length]. destruct (c =? " ")%char.
    + specialize (IH (S run)). replace (run + S (String.length s)) with (S run + String.length s) by lia.
      exact IH.
    + rewrite !length_app, !Nat2Z.inj_add, length_gap_samples.
      pose proof (gap_length_bound run). specialize (IH 0).
      pose proof (length_symbol_samples T sin c) as Hs.
      destruct (c =? ".")%char; [|destruct (c =? "-")%char]; lia.
Qed.

Hypothesis dot_range : forallb (in_range T) (dot_burst T sin) = true.
Hypothesis dash_range : forallb (in_range T) (dash_burst T sin) = true.

Lemma forallb_Forall {A : Type} (f : A -> bool) l :
  forallb f l = true -> Forall (fun x => f x = true) l.
Proof.
  intros H. apply Forall_forall. intros x Hx. apply list_elem_of_In in Hx.
  rewrite forallb_forall in H. apply H, Hx.
Qed.

Lemma zeros_in_range n : Forall (fun x => in_range T x = true) (replicate n 0%Z).
Proof. apply Forall_replicate. destruct T; reflexivity. Qed.

Lemma symbol_samples_in_range c : Forall (fun x => in_range T x = true) (symbol_samples T sin c).
Proof.
  unfold symbol_samples.
  destruct (c =? ".")%char; [|destruct (c =? "-")%char; [|constructor]];
    rewrite addSilence_app; apply Forall_app; (split; [|apply zeros_in_range]);
    apply forallb_Forall; assumption.
Qed.

Lemma render_go_in_range s : forall run,
  Forall (fun x => in_range T x = true) (render_go T sin run s).
Proof.
  induction s as [|c s IH]; intros run; cbn [render_go].
  - rewrite gap_samples_length. apply zeros_in_range.
  - destruct (c =? " ")%char; [apply IH|].
    apply Forall_app. split; [rewrite gap_samples_length; apply zeros_in_range|].
    apply Forall_app. split; [apply symbol_samples_in_range|apply IH].
Qed.
End samples_facts.

(** ** The two file operations *)

Section pipeline.
Variable sin : float -> float.
Variable writable : string -> bool.
Variable indeterminate indeterminate' : WavHeader.

Hypothesis dot_clean : clean_burst int8_t (dot_burst int8_t sin) = true.
Hypothesis dash_clean : clean_burst int8_t (dash_burst int8_t sin) = true.
Hypothesis dot_range : forallb (in_range int8_t) (dot_burst int8_t sin) = true.
Hypothesis dash_range : forallb (in_range int8_t) (dash_burst int8_t sin) = true.

Lemma encode_render_bound text m :
  encode_tail new text false = Ok m ->
  (Z.of_nat (String.length text) <= 17000)%Z ->
  (Z.of_nat (List.length (render int8_t sin m)) <= 2099160000)%Z.
Proof.
  intros Hm Hlen. destruct (encode_tail_shape _ _ _ Hm) as [_ [_ Hb]].
  pose proof (length_render_go_bound int8_t sin m 0) as H. unfold render. lia.
Qed.

Lemma pipeline (fs : gmap string string) input wav output text :
  fs !! input = Some text -> supported text -> (Z.of_nat (String.length text) <= 17000)%Z ->
  writable wav = true -> writable output = true ->
  exists bytes,
    MorseEncoder.encodeFile sin writable indeterminate MorseEncoder.new fs input wav
    = Ok (<[wav := bytes]> fs)
    /\ MorseDecoder.decodeFile writable indeterminate' MorseDecoder.new
         (<[wav := bytes]> fs) wav output
       = Ok (<[output := uppercase (normalize text)]> (<[wav := bytes]> fs)).
Proof.
  intros Hfs Hsup Hlen Hwav Hout.
  destruct (encode_decode text Hsup) as (m & Hm & _).
  pose proof (encode_render_bound text m Hm Hlen) as Hbound.
  eexists. split.
  - unfold MorseEncoder.encodeFile, FileHandler.read. rewrite Hfs.
    cbn [mbind outcome_mbind outcome_bind].
    unfold MorseEncoder.encode, MorseEncoder.new. cbn [MorseEncoder.converter].
    rewrite encode_tail_spec, Hm. cbn [mbind outcome_mbind outcome_bind].
    rewrite generateSamples_spec. cbn [mbind outcome_mbind outcome_bind].
    unfold saveWav. rewrite Hwav. reflexivity.
  - unfold MorseDecoder.decodeFile, loadWav.
    rewrite loadWav_samples_saved.
    + cbn [mbind outcome_mbind outcome_bind].
      rewrite squeeze_decode.
      * unfold MorseDecoder.decode, MorseDecoder.new. cbn [MorseDecoder.converter].
        rewrite (decode_squeeze_encode text m Hm). cbn [mbind outcome_mbind outcome_bind].
        unfold FileHandler.write. rewrite Hout. reflexivity.
      * exact dot_clean.
      * exact dash_clean.
      * destruct (encode_tail_shape _ _ _ Hm) as [Hch _]. exact Hch.
      * zlia.
    + apply render_go_in_range; assumption.
    + cbn [sizeof]. change (2 ^ 32)%Z with 4294967296%Z. lia.
Qed.
End pipeline.

(** ** main *)

(** X23: running the program with [--encode] and then with [--decode]
    on the file it wrote ends both times with status 0 and leaves in the
    output file the text in upper case with its spaces normalized
    (leading and trailing spaces dropped, runs reduced to one space),
    for a text over the alphabet of at most 17000 characters, with files
    that can be written and tone bursts that are clean and fit the
    sample type. *)
Theorem main_encode_then_decode
  (sin : float -> float) (writable : string -> bool) (indeterminate indeterminate' : WavHeader)
  (fs : gmap string string) (prog input wav output text : string) :
  clean_burst int8_t (dot_burst int8_t sin) = true ->
  clean_burst int8_t (dash_burst int8_t sin) = true ->
  forallb (in_range int8_t) (dot_burst int8_t sin) = true ->
  forallb (in_range int8_t) (dash_burst int8_t sin) = true ->
  fs !! input = Some text -> supported text -> (Z.of_nat (String.length text) <= 17000)%Z ->
  writable wav = true -> writable output = true ->
  exists fs1 fs2,
    main sin writable indeterminate [prog; "--encode"; input; wav] fs = Ok (0%Z, fs1)
    /\ main sin writable indeterminate' [prog; "--decode"; wav; output] fs1 = Ok (0%Z, fs2)
    /\ FileHandler.read fs2 output = Ok (uppercase (normalize text)).
Proof.
  intros Hdc Hhc Hdr Hhr Hfs Hsup Hlen Hwav Hout.
  destruct (pipeline sin writable indeterminate indeterminate' Hdc Hhc Hdr Hhr
              fs input wav output text Hfs Hsup Hlen Hwav Hout) as (bytes & Henc & Hdec).
  eexists. eexists. unfold main.
  change (String.eqb "--encode" "--encode") with true.
  change (String.eqb "--decode" "--encode") with false.
  change (String.eqb "--decode" "--decode") with true. cbv beta iota.
  rewrite Henc. cbn [try_step]. split; [reflexivity|].
  rewrite Hdec. cbn [try_step]. split; [reflexivity|].
  unfold FileHandler.read. rewrite lookup_insert_eq. reflexivity.
Qed.

(** X24: run without its three arguments the program makes its
    self-test, which ends with status 0, leaves the message in
    [test.txt] and the same message in [output.txt], and touches no file
    but these and [test.wav]. *)
Theorem main_self_test
  (sin : float -> float) (writable : string -> bool) (indeterminate : WavHeader)
  (fs : gmap string string) (argv : list string) :
  clean_burst int8_t (dot_burst int8_t sin) = true ->
  clean_burst int8_t (dash_burst int8_t sin) = true ->
  forallb (in_range int8_t) (dot_burst int8_t sin) = true ->
  forallb (in_range int8_t) (dash_burst int8_t sin) = true ->
  List.length argv <> 4 ->
  writable "test.txt" = true -> writable "test.wav" = true -> writable "output.txt" = true ->
  exists fs',
    main sin writable indeterminate argv fs = Ok (0%Z, fs')
    /\ fs' !! "test.txt" = Some "I HAVE 2 CUPS OF WATER."
    /\ fs' !! "output.txt" = Some "I HAVE 2 CUPS OF WATER."
    /\ forall other, other <> "test.txt" -> other <> "test.wav" -> other <> "output.txt" ->
         fs' !! other = fs !! other.
Proof.
  intros Hdc Hhc Hdr Hhr Hargv Htxt Hwav Hout.
  assert (Hmain : main sin writable indeterminate argv fs = self_test sin writable indeterminate fs).
  { destruct argv as [|a0 [|a1 [|a2 [|a3 [|a4 argv]]]]]; try reflexivity.
    cbn [List.length] in Hargv. congruence. }
  rewrite Hmain. unfold self_test, FileHandler.write.
  change (writable test_file) with (writable "test.txt"). rewrite Htxt. cbn [try_step].
  assert (Hsup : supported test_message).
  { intros c Hc. cbn [test_message list_ascii_of_string In] in Hc.
    repeat (destruct Hc as [<-|Hc]; [vm_compute; reflexivity|]). destruct Hc. }
  destruct (encode_decode _ Hsup) as (m & Hm & _).
  unfold MorseEncoder.encode at 1, MorseEncoder.new at 1. cbn [MorseEncoder.converter].
  rewrite encode_tail_spec, Hm. cbn [try_step].
  destruct (pipeline sin writable indeterminate indeterminate Hdc Hhc Hdr Hhr
              (<[test_file := test_message]> fs) test_file test_wav_file test_out test_message)
    as (bytes & Henc & Hdec);
    [apply lookup_insert_eq|exact Hsup|vm_compute; discriminate|exact Hwav|exact Hout|].
  rewrite Henc. cbn [try_step]. rewrite Hdec. cbn [try_step].
  unfold FileHandler.read. rewrite lookup_insert_eq. cbn [try_step].
  eexists. split; [reflexivity|].
  assert (Hmsg : uppercase (normalize test_message) = test_message) by (vm_compute; reflexivity).
  rewrite Hmsg. split; [|split].
  - rewrite lookup_insert_ne by discriminate. rewrite lookup_insert_ne by discriminate.
    apply lookup_insert_eq.
  - apply lookup_insert_eq.
  - intros other H1 H2 H3.
    rewrite !lookup_insert_ne
      by (intros E; first [apply H1; symmetry; exact E|apply H2; symmetry; exact E
                            |apply H3; symmetry; exact E]).
    reflexivity.
Qed.

Lemma main_encode_then_decode_witness :
  exists fs1 fs2,
    main sin_poly (fun _ => true) test_header ["morse"; "--encode"; "in.txt"; "out.wav"]
         {[ "in.txt" := " Sos  now " ]} = Ok (0%Z, fs1)
    /\ main sin_poly (fun _ => true) test_header ["morse"; "--decode"; "out.wav"; "out.txt"] fs1
       = Ok (0%Z, fs2)
    /\ FileHandler.read fs2 "out.txt" = Ok "SOS NOW".
Proof.
  apply (main_encode_then_decode sin_poly (fun _ => true) test_header test_header
           {[ "in.txt" := " Sos  now " ]} "morse" "in.txt" "out.wav" "out.txt" " Sos  now ").
  - vm_compute. reflexivity.
  - vm_compute. reflexivity.
  - vm_compute. reflexivity.
  - vm_compute. reflexivity.
  - reflexivity.
  - intros c Hc. cbn [list_ascii_of_string In] in Hc.
    repeat (destruct Hc as [<-|Hc]; [vm_compute; reflexivity|]). destruct Hc.
  - vm_compute. discriminate.
  - reflexivity.
  - reflexivity.
Defined.

Lemma main_self_test_witness :
  exists fs',
    main sin_poly (fun _ => true) test_header ["morse"] ∅ = Ok (0%Z, fs')
    /\ fs' !! "test.txt" = Some "I HAVE 2 CUPS OF WATER."
    /\ fs' !! "output.txt" = Some "I HAVE 2 CUPS OF WATER."
    /\ forall other, other <> "test.txt" -> other <> "test.wav" -> other <> "output.txt" ->
         fs' !! other = (∅ : gmap string string) !! other.
Proof.
  apply (main_self_test sin_poly (fun _ => true) test_header ∅ ["morse"]).
  - vm_compute. reflexivity.
  - vm_compute. reflexivity.
  - vm_compute. reflexivity.
  - vm_compute. reflexivity.
  - cbn [List.length]. lia.
  - reflexivity.
  - reflexivity.
  - reflexivity.
Defined.

(** ** Exit status *)

Lemma loadWav_int8 (fs : gmap string string) indeterminate filename bytes :
  fs !! filename = Some bytes ->
  let header :=
    header_parse (overlay (substring 0 44 bytes)
                          (header_image (WavHeader_init indeterminate))) in
  (bitsPerSample header <> 8%Z ->
   loadWav int8_t fs indeterminate filename = Throw UnsupportedSampleWidth)
  /\ (bitsPerSample header = 8%Z ->
      exists morse, loadWav int8_t fs indeterminate filename = Ok morse).
Proof.
  intros Hfs header.
  assert (Hdata : (0 <= dataSize header)%Z) by apply le_value_nonneg.
  unfold loadWav, loadWav_samples. rewrite Hfs.
  cbv beta iota zeta delta [read good pos content]. fold header.
  cbn [sizeof]. change (1 * 8)%Z with 8%Z. split.
  - intros Hbits.
    replace (bitsPerSample header =? 8)%Z with false
      by (symmetry; apply Z.eqb_neq; lia).
    reflexivity.
  - intros Hbits. rewrite Hbits, Z.eqb_refl. cbn [negb].
    rewrite Z.div_1_r, Z.mul_1_r.
    clearbody header.
    destruct (String.length (substring 0 44 bytes) =? 44).
    + rewrite (proj2 (Z.ltb_ge _ _)) by (rewrite length_substring; lia). eauto.
    + cbn [String.length]. rewrite (proj2 (Z.ltb_ge _ _)) by (cbn; lia). eauto.
Qed.

(** X25: with [--encode] the program ends with status 0 exactly when the
    input file can be read, its text is over the alphabet and the output
    file can be opened; it then wrote the output file only; otherwise it
    ends with status 1 and leaves every file as it was. *)
Theorem main_encode_status
  (sin : float -> float) (writable : string -> bool) (indeterminate : WavHeader)
  (fs : gmap string string) (prog input output : string) :
  exists status fs',
    main sin writable indeterminate [prog; "--encode"; input; output] fs = Ok (status, fs')
    /\ ((status = 0%Z /\ exists bytes, fs' = <[output := bytes]> fs)
        \/ (status = 1%Z /\ fs' = fs))
    /\ (status = 0%Z
        <-> (exists text, fs !! input = Some text /\ supported text)
            /\ writable output = true).
Proof.
  unfold main. change (String.eqb "--encode" "--encode") with true. cbv beta iota.
  unfold MorseEncoder.encodeFile, FileHandler.read.
  destruct (fs !! input) as [text|] eqn:Hfs.
  - cbn [mbind outcome_mbind outcome_bind].
    unfold MorseEncoder.encode, MorseEncoder.new. cbn [MorseEncoder.converter].
    rewrite encode_tail_spec.
    destruct (supported_or_not text) as [Hsup|Hbad].
    + destruct (encode_decode text Hsup) as (m & Hm & _). rewrite Hm.
      cbn [mbind outcome_mbind outcome_bind]. rewrite generateSamples_spec.
      cbn [mbind outcome_mbind outcome_bind]. unfold saveWav.
      destruct (writable output) eqn:Hw; cbn [try_step].
      * eexists. eexists. split; [reflexivity|]. split; [left; eauto|].
        split; [intros _; eauto|reflexivity].
      * exists 1%Z, fs. split; [reflexivity|]. split; [right; auto|].
        split; [discriminate|intros [_ H]; discriminate].
    + destruct (encode_tail_throw text false Hbad) as (c & _ & Ht). rewrite Ht.
      cbn [mbind outcome_mbind outcome_bind try_step].
      exists 1%Z, fs. split; [reflexivity|]. split; [right; auto|].
      split; [discriminate|]. intros [(text' & [= <-] & Hsup) _].
      destruct (supported_not_unsupported _ Hsup Hbad).
  - cbn [mbind outcome_mbind outcome_bind try_step].
    exists 1%Z, fs. split; [reflexivity|]. split; [right; auto|].
    split; [discriminate|]. intros [(text & [=] & _) _].
Qed.

(** X26: with [--decode] the program ends with status 0 exactly when the
    input file can be opened, its header announces 8 bits per sample and
    the output file can be opened; it then wrote the output file only;
    otherwise it ends with status 1 and leaves every file as it was. *)
Theorem main_decode_status
  (sin : float -> float) (writable : string -> bool) (indeterminate : WavHeader)
  (fs : gmap string string) (prog input output : string) :
  exists status fs',
    main sin writable indeterminate [prog; "--decode"; input; output] fs = Ok (status, fs')
    /\ ((status = 0%Z /\ exists text, fs' = <[output := text]> fs)
        \/ (status = 1%Z /\ fs' = fs))
    /\ (status = 0%Z
        <-> (exists bytes,
               fs !! input = Some bytes
               /\ bitsPerSample
                    (header_parse (overlay (substring 0 44 bytes)
                                           (header_image (WavHeader_init indeterminate))))
                  = 8%Z)
            /\ writable output = true).
Proof.
  unfold main. change (String.eqb "--decode" "--encode") with false.
  change (String.eqb "--decode" "--decode") with true. cbv beta iota.
  unfold MorseDecoder.decodeFile.
  destruct (fs !! input) as [bytes|] eqn:Hfs.
  - destruct (loadWav_int8 fs indeterminate input bytes Hfs) as [Hbad Hgood].
    destruct (Z.eq_dec
                (bitsPerSample
                   (header_parse (overlay (substring 0 44 bytes)
                                          (header_image (WavHeader_init indeterminate))))) 8%Z)
      as [Hbits|Hbits].
    + destruct (Hgood Hbits) as [morse Hload]. rewrite Hload.
      cbn [mbind outcome_mbind outcome_bind].
      unfold MorseDecoder.decode, MorseDecoder.new. cbn [MorseDecoder.converter].
      rewrite decode_spec. cbn [mbind outcome_mbind outcome_bind].
      unfold FileHandler.write. destruct (writable output) eqn:Hw; cbn [try_step].
      * eexists. eexists. split; [reflexivity|]. split; [left; eauto|].
        split; [intros _; eauto|reflexivity].
      * exists 1%Z, fs. split; [reflexivity|]. split; [right; auto|].
        split; [discriminate|intros [_ H]; discriminate].
    + rewrite (Hbad Hbits). cbn [mbind outcome_mbind outcome_bind try_step].
      exists 1%Z, fs. split; [reflexivity|]. split; [right; auto|].
      split; [discriminate|]. intros [(bytes' & [= <-] & Hb) _]. contradiction.
  - unfold loadWav, loadWav_samples. rewrite Hfs.
    cbn [mbind outcome_mbind outcome_bind try_step].
    exists 1%Z, fs. split; [reflexivity|]. split; [right; auto|].
    split; [discriminate|]. intros [(bytes & [=] & _) _].
Qed.

Example main_invalid_mode :
  forall sin writable indeterminate fs,
    main sin writable indeterminate ["morse"; "--help"; "a"; "b"] fs = Ok (1%Z, fs).
Proof. reflexivity. Qed.
